(** * Blitz Arena: the room manager and the server

    A shallow embedding of [server/roomManager.js], [shared/gameConfig.js]
    and of the server's handlers, game loop, cleanup and rate limiting,
    followed by the properties of the room/match state machine and of the
    server.

    Conventions of the embedding.
    - A finite JavaScript number is an exact rational ([Q]); the rounding
      of IEEE doubles is not modelled, nor is the overflow of a result to
      an infinity or its underflow to zero.  Values that arrive in client
      messages are [jsval]s, which also cover [NaN], the infinities and
      values whose [typeof] is not ['number'].
    - A JavaScript string is a [string] with one character per UTF-16
      code unit, which covers the strings whose code units are all below
      256; lengths and [slice] count these characters.
    - [Date.now()] and [uuidv4().slice(0, 8)] are read from the
      environment: every operation that calls them takes the value that the
      call returned as an argument ([now], [uuid]).
    - [Math.sqrt] is a parameter of [fireProjectile] and [tick].
    - A JavaScript [Map] whose iteration order the code relies on (players,
      projectiles) is an insertion-ordered association list ([OMap]); the
      registry of rooms, whose order is irrelevant, is a [gmap].
    - Objects mutated in place (a room, a player, a projectile) are
      written back into the container that holds them.
    - The countdown interval is the field [countdownTimer] of its room,
      which carries the variable [count] of the callback; its firings are
      the operation [countdownInterval].  The messages passed to
      [broadcastFn] are returned.
    - [cleanStale] and [getActiveRooms] iterate over the registry: their
      results come in the order of [map_to_list], and no property depends
      on that order.
    - In the server, what is handed to [ws.send] is collected, in order,
      in an [Outbox] of pairs (socket handle, message), and
      [ws.readyState === WebSocket.OPEN] is the parameter [isOpen].  The
      rate limiter and the table of connections per address take their
      state as an argument and return it; the readings of [Date.now()]
      within one call are the same [now]. *)

From Stdlib Require Import ZArith QArith Qminmax Qabs Qround Lia Lqa.
From stdpp Require Import base gmap strings list.

Local Open Scope Z_scope.

(** ** shared/gameConfig.js *)

Module CONFIG.
Definition ARENA_WIDTH : Q := 30.
Definition ARENA_DEPTH : Q := 20.
Definition PLAYER_RADIUS : Q := 0.6.
Definition PLAYER_SPAWN_OFFSET : Q := 8.
Definition PROJECTILE_SPEED : Q := 16.
Definition PROJECTILE_RADIUS : Q := 0.25.
Definition PROJECTILE_LIFETIME : Z := 3000.
Definition FIRE_COOLDOWN : Z := 350.
Definition MAX_PLAYERS : nat := 2.
Definition WIN_SCORE : Z := 10.
Definition MATCH_DURATION : Q := 180.
Definition COUNTDOWN_DURATION : Z := 3.
Definition TICK_RATE : Q := 20.
Definition HEARTBEAT_TIMEOUT : Z := 15000.
End CONFIG.

(** ** JavaScript values and arithmetic helpers *)

(** The double [Math.PI], which is the rational 884279719003555 / 2^48. *)
Definition Math_PI : Q := 884279719003555 # 281474976710656.

(** A value found in a field of a parsed client message. *)
Inductive jsval : Type :=
  | JNum (q : Q)      (* a finite number *)
  | JNaN
  | JInfinity
  | JNegInfinity
  | JNotNumber.       (* undefined, null, a string, an object, ... *)

(** [typeof v === 'number'] *)
Definition typeof_number (v : jsval) : bool :=
  match v with JNotNumber => false | _ => true end.

(** [isFinite(v)] on a value whose [typeof] is ['number'] *)
Definition isFinite (v : jsval) : bool :=
  match v with JNum _ => true | _ => false end.

(** [a < b] and [a <= b] on finite numbers *)
Definition Qltb (a b : Q) : bool := negb (Qle_bool b a).
Definition Qleb (a b : Q) : bool := Qle_bool a b.

(** ** Insertion-ordered maps with string keys (JavaScript [Map]) *)

Module OMap.
Section Ops.
Context {V : Type}.

Definition t : Type := list (string * V).

Definition empty : t := [].

Fixpoint get (k : string) (m : t) : option V :=
  match m with
  | [] => None
  | (k', v) :: m' => if String.eqb k k' then Some v else get k m'
  end.

(** [m.set(k, v)]: an existing key keeps its position. *)
Fixpoint set (k : string) (v : V) (m : t) : t :=
  match m with
  | [] => [(k, v)]
  | (k', v') :: m' =>
      if String.eqb k k' then (k, v) :: m' else (k', v') :: set k v m'
  end.

Fixpoint delete (k : string) (m : t) : t :=
  match m with
  | [] => []
  | (k', v') :: m' =>
      if String.eqb k k' then m' else (k', v') :: delete k m'
  end.

(** In-place mutation of the object stored under [k]. *)
Fixpoint alter (f : V -> V) (k : string) (m : t) : t :=
  match m with
  | [] => []
  | (k', v') :: m' =>
      if String.eqb k k' then (k', f v') :: m' else (k', v') :: alter f k m'
  end.

Definition size (m : t) : nat := length m.

Definition keys (m : t) : list string := fst <$> m.

(** The keys of a [Map] are pairwise distinct. *)
Definition wf (m : t) : Prop := NoDup (keys m).
End Ops.
Arguments t : clear implicits.
End OMap.

(** ** Entities *)

Inductive Phase : Type := waiting | countdown | playing | ended.

Definition Phase_eqb (a b : Phase) : bool :=
  match a, b with
  | waiting, waiting | countdown, countdown
  | playing, playing | ended, ended => true
  | _, _ => false
  end.

(** The connection object: opaque to the room manager, except for the two
    routing fields that [addPlayer] attaches to it. *)
Module WebSocket.
Record t : Type := mk {
  handle : nat;
  _playerId : option string;
  _roomId : option string;
}.
End WebSocket.

Module Player.
Record t : Type := mk {
  id : string;
  roomId : string;
  characterId : string;
  x : Q;
  z : Q;
  rotation : Q;
  score : Z;
  ws : WebSocket.t;
  lastHeartbeat : Z;
  lastFireTime : Z;
}.

Definition with_pose (x' z' rotation' : Q) (p : t) : t :=
  mk (id p) (roomId p) (characterId p) x' z' rotation' (score p) (ws p)
     (lastHeartbeat p) (lastFireTime p).

Definition with_score (s : Z) (p : t) : t :=
  mk (id p) (roomId p) (characterId p) (x p) (z p) (rotation p) s (ws p)
     (lastHeartbeat p) (lastFireTime p).

Definition with_lastHeartbeat (h : Z) (p : t) : t :=
  mk (id p) (roomId p) (characterId p) (x p) (z p) (rotation p) (score p)
     (ws p) h (lastFireTime p).

Definition with_lastFireTime (f : Z) (p : t) : t :=
  mk (id p) (roomId p) (characterId p) (x p) (z p) (rotation p) (score p)
     (ws p) (lastHeartbeat p) f.
End Player.

Module Projectile.
Record t : Type := mk {
  id : string;
  ownerId : string;
  x : Q;
  z : Q;
  vx : Q;
  vz : Q;
  createdAt : Z;
}.

Definition with_pos (x' z' : Q) (p : t) : t :=
  mk (id p) (ownerId p) x' z' (vx p) (vz p) (createdAt p).
End Projectile.

(** A pending [setInterval] handle, together with the variable [count]
    captured by its callback. *)
Record Interval : Type := { count : Z }.

Module Room.
Record t : Type := mk {
  id : string;
  players : OMap.t Player.t;
  projectiles : OMap.t Projectile.t;
  state : Phase;
  matchTimer : option Interval;
  countdownTimer : option Interval;
  startTime : option Z;
  timeRemaining : Q;
}.

Definition with_players (ps : OMap.t Player.t) (r : t) : t :=
  mk (id r) ps (projectiles r) (state r) (matchTimer r) (countdownTimer r)
     (startTime r) (timeRemaining r).

Definition with_projectiles (pr : OMap.t Projectile.t) (r : t) : t :=
  mk (id r) (players r) pr (state r) (matchTimer r) (countdownTimer r)
     (startTime r) (timeRemaining r).

Definition with_state (s : Phase) (r : t) : t :=
  mk (id r) (players r) (projectiles r) s (matchTimer r) (countdownTimer r)
     (startTime r) (timeRemaining r).

Definition with_matchTimer (tm : option Interval) (r : t) : t :=
  mk (id r) (players r) (projectiles r) (state r) tm (countdownTimer r)
     (startTime r) (timeRemaining r).

Definition with_countdownTimer (tm : option Interval) (r : t) : t :=
  mk (id r) (players r) (projectiles r) (state r) (matchTimer r) tm
     (startTime r) (timeRemaining r).

Definition with_startTime (st : option Z) (r : t) : t :=
  mk (id r) (players r) (projectiles r) (state r) (matchTimer r)
     (countdownTimer r) st (timeRemaining r).

Definition with_timeRemaining (tr : Q) (r : t) : t :=
  mk (id r) (players r) (projectiles r) (state r) (matchTimer r)
     (countdownTimer r) (startTime r) tr.
End Room.

(** A hit record returned by [tick]. *)
Module Hit.
Record t : Type := mk {
  projectileId : string;
  shooterId : string;
  targetId : string;
  x : Q;
  z : Q;
}.
End Hit.

(** Messages handed to [broadcastFn] by the match life cycle. *)
Inductive Broadcast : Type :=
  | MATCH_COUNTDOWN (count : Z)
  | MATCH_START.

(** The value returned by [getMatchResults]. *)
Module Results.
Record entry : Type := mkEntry {
  id : string;
  characterId : string;
  score : Z;
}.
Record t : Type := mk {
  players : list entry;
  winnerId : option string;
  isTie : bool;
  reason : string;
}.
End Results.

(** The value returned by [getState]: what is broadcast of a room. *)
Module State.
Module PlayerView.
Record t : Type := mk {
  id : string;
  characterId : string;
  x : Q;
  z : Q;
  rotation : Q;
  score : Z;
}.
End PlayerView.
Module ProjectileView.
Record t : Type := mk {
  id : string;
  ownerId : string;
  x : Q;
  z : Q;
  vx : Q;
  vz : Q;
}.
End ProjectileView.
Record t : Type := mk {
  players : list PlayerView.t;
  projectiles : list ProjectileView.t;
  state : Phase;
  timeRemaining : Z;
}.
End State.

(** An element of the array returned by [cleanStale]. *)
Module Stale.
Record t : Type := mk {
  roomId : string;
  playerId : string;
  ws : WebSocket.t;
}.
End Stale.

(** ** server/roomManager.js *)

Module RoomManager.

(** [this.rooms] *)
Abbreviation Manager := (gmap string Room.t).

Definition constructor : Manager := ∅.

(** [getRoom(roomId)]: get or create a room. *)
Definition getRoom (roomId : string) (m : Manager) : Manager * Room.t :=
  match m !! roomId with
  | Some room => (m, room)
  | None =>
      let room :=
        Room.mk roomId OMap.empty OMap.empty waiting None None None
                CONFIG.MATCH_DURATION in
      (<[roomId := room]> m, room)
  end.

(** [addPlayer(roomId, ws)]: the new player, or [None] if the room is
    full. *)
Definition addPlayer (now : Z) (uuid : string) (roomId : string)
    (ws : WebSocket.t) (m : Manager) : Manager * option Player.t :=
  let '(m, room) := getRoom roomId m in
  if (CONFIG.MAX_PLAYERS <=? OMap.size (Room.players room))%nat then
    (m, None)
  else
    let playerId := uuid in
    let playerIndex := OMap.size (Room.players room) in
    let characterKey :=
      if (playerIndex =? 0)%nat then "cupid_prime" else "dark_cupid" in
    let spawnX :=
      if (playerIndex =? 0)%nat
      then (- CONFIG.PLAYER_SPAWN_OFFSET)%Q
      else CONFIG.PLAYER_SPAWN_OFFSET in
    let ws :=
      WebSocket.mk (WebSocket.handle ws) (Some playerId) (Some roomId) in
    let player :=
      Player.mk playerId roomId characterKey spawnX 0
                (if (playerIndex =? 0)%nat then 0%Q else Math_PI)
                0 ws now 0 in
    let room :=
      Room.with_players (OMap.set playerId player (Room.players room)) room in
    (<[roomId := room]> m, Some player).

(** The body of [stopMatch] once the room is found: both timers are
    cleared. *)
Definition stopTimers (room : Room.t) : Room.t :=
  let room :=
    match Room.matchTimer room with
    | Some _ => Room.with_matchTimer None room
    | None => room
    end in
  match Room.countdownTimer room with
  | Some _ => Room.with_countdownTimer None room
  | None => room
  end.

(** [stopMatch(roomId)] *)
Definition stopMatch (roomId : string) (m : Manager) : Manager :=
  match m !! roomId with
  | None => m
  | Some room => <[roomId := stopTimers room]> m
  end.

(** [removePlayer(roomId, playerId)].  The calls [this.stopMatch(roomId)]
    act on the room object already at hand. *)
Definition removePlayer (roomId playerId : string) (m : Manager) : Manager :=
  match m !! roomId with
  | None => m
  | Some room =>
      let room :=
        Room.with_players (OMap.delete playerId (Room.players room)) room in
      if (OMap.size (Room.players room) =? 0)%nat then
        delete roomId (<[roomId := stopTimers room]> m)
      else if Phase_eqb (Room.state room) playing
              || Phase_eqb (Room.state room) countdown then
        let room := stopTimers room in
        let room := Room.with_state waiting room in
        let room := Room.with_projectiles OMap.empty room in
        <[roomId := room]> m
      else
        <[roomId := room]> m
  end.

(** [updatePlayerPosition(roomId, playerId, x, z, rotation)] *)
Definition updatePlayerPosition (roomId playerId : string)
    (x z rotation : jsval) (m : Manager) : Manager :=
  match m !! roomId with
  | None => m
  | Some room =>
      match OMap.get playerId (Room.players room) with
      | None => m
      | Some player =>
          if negb (typeof_number x) || negb (typeof_number z)
             || negb (typeof_number rotation)
             || negb (isFinite x) || negb (isFinite z)
             || negb (isFinite rotation)
          then m
          else
            match x, z, rotation with
            | JNum x, JNum z, JNum rotation =>
                let hw := (CONFIG.ARENA_WIDTH / 2 - CONFIG.PLAYER_RADIUS)%Q in
                let hd := (CONFIG.ARENA_DEPTH / 2 - CONFIG.PLAYER_RADIUS)%Q in
                let move :=
                  Player.with_pose (Qmax (- hw) (Qmin hw x))
                                   (Qmax (- hd) (Qmin hd z)) rotation in
                <[roomId := Room.with_players
                              (OMap.alter move playerId (Room.players room))
                              room]> m
            | _, _, _ => m (* excluded by the guard above *)
            end
      end
  end.

(** [startMatch(roomId, broadcastFn)] *)
Definition startMatch (now : Z) (roomId : string) (m : Manager)
    : Manager * list Broadcast :=
  match m !! roomId with
  | None => (m, [])
  | Some room =>
      let room := Room.with_state playing room in
      let room := Room.with_startTime (Some now) room in
      let room := Room.with_timeRemaining CONFIG.MATCH_DURATION room in
      (<[roomId := room]> m, [MATCH_START])
  end.

(** The loop of [startCountdown] that resets scores and positions; [i]
    counts the players visited so far. *)
Fixpoint resetPlayers (i : nat) (ps : OMap.t Player.t) : OMap.t Player.t :=
  match ps with
  | [] => []
  | (pid, p) :: ps' =>
      let p := Player.with_score 0 p in
      let p :=
        Player.with_pose
          (if (i =? 0)%nat
           then (- CONFIG.PLAYER_SPAWN_OFFSET)%Q
           else CONFIG.PLAYER_SPAWN_OFFSET)
          0
          (if (i =? 0)%nat then 0%Q else Math_PI) p in
      (pid, p) :: resetPlayers (S i) ps'
  end.

(** [startCountdown(roomId, broadcastFn)], up to the installation of the
    interval. *)
Definition startCountdown (roomId : string) (m : Manager)
    : Manager * list Broadcast :=
  match m !! roomId with
  | None => (m, [])
  | Some room =>
      let room := Room.with_state countdown room in
      let room := Room.with_projectiles OMap.empty room in
      let count := CONFIG.COUNTDOWN_DURATION in
      let room :=
        Room.with_players (resetPlayers 0 (Room.players room)) room in
      let room :=
        Room.with_countdownTimer (Some {| count := count |}) room in
      (<[roomId := room]> m, [MATCH_COUNTDOWN count])
  end.

(** One firing of the interval callback installed by [startCountdown];
    it runs only while the interval has not been cleared. *)
Definition countdownInterval (now : Z) (roomId : string) (m : Manager)
    : Manager * list Broadcast :=
  match m !! roomId with
  | None => (m, [])
  | Some room =>
      match Room.countdownTimer room with
      | None => (m, [])
      | Some iv =>
          let count := count iv - 1 in
          if 0 <? count then
            (<[roomId := Room.with_countdownTimer
                           (Some {| count := count |}) room]> m,
             [MATCH_COUNTDOWN count])
          else
            startMatch now roomId
              (<[roomId := Room.with_countdownTimer None room]> m)
      end
  end.

(** The loop of [getMatchResults]: the entries pushed so far, the
    current [winnerId] and [highScore]. *)
Fixpoint resultsLoop (ps : OMap.t Player.t)
    (acc : list Results.entry * option string * Z)
    : list Results.entry * option string * Z :=
  match ps with
  | [] => acc
  | (_, p) :: ps' =>
      let '(players, winnerId, highScore) := acc in
      let players :=
        players ++ [Results.mkEntry (Player.id p) (Player.characterId p)
                                    (Player.score p)] in
      if highScore <? Player.score p
      then resultsLoop ps' (players, Some (Player.id p), Player.score p)
      else resultsLoop ps' (players, winnerId, highScore)
  end.

(** [getMatchResults(roomId)] *)
Definition getMatchResults (roomId : string) (m : Manager)
    : option Results.t :=
  match m !! roomId with
  | None => None
  | Some room =>
      let '(players, winnerId, _) :=
        resultsLoop (Room.players room) ([], None, -1) in
      let scores := map Results.score players in
      let isTie :=
        match scores with
        | [s0; s1] => s0 =? s1
        | _ => false
        end in
      Some (Results.mk players
              (if isTie then None else winnerId)
              isTie
              (if Qleb (Room.timeRemaining room) 0
               then "timeout" else "score"))
  end.

(** [handleRematch(roomId)] *)
Definition handleRematch (roomId : string) (m : Manager) : Manager * bool :=
  match m !! roomId with
  | None => (m, false)
  | Some room =>
      if negb (Phase_eqb (Room.state room) ended) then (m, false)
      else
        let room := Room.with_projectiles OMap.empty room in
        let room := Room.with_state waiting room in
        (<[roomId := room]> m, true)
  end.

(** [heartbeat(roomId, playerId)] *)
Definition heartbeat (now : Z) (roomId playerId : string) (m : Manager)
    : Manager :=
  match m !! roomId with
  | None => m
  | Some room =>
      match OMap.get playerId (Room.players room) with
      | Some _ =>
          <[roomId := Room.with_players
                        (OMap.alter (Player.with_lastHeartbeat now) playerId
                                    (Room.players room))
                        room]> m
      | None => m
      end
  end.

(** The local state of one call of [tick]: the room's players and state
    as mutated so far, the projectiles already visited (each with its
    advanced position), and the two local arrays. *)
Record TickState : Type := mkTick {
  ts_players : OMap.t Player.t;
  ts_state : Phase;
  ts_moved : OMap.t Projectile.t;
  ts_hits : list Hit.t;
  ts_expired : list string;
}.

Definition tick_moved (projId : string) (proj : Projectile.t)
    (st : TickState) : TickState :=
  mkTick (ts_players st) (ts_state st) (ts_moved st ++ [(projId, proj)])
         (ts_hits st) (ts_expired st).

Definition tick_expire (projId : string) (st : TickState) : TickState :=
  mkTick (ts_players st) (ts_state st) (ts_moved st) (ts_hits st)
         (ts_expired st ++ [projId]).

Definition tick_hit (h : Hit.t) (st : TickState) : TickState :=
  mkTick (ts_players st) (ts_state st) (ts_moved st) (ts_hits st ++ [h])
         (ts_expired st).

Definition tick_players (ps : OMap.t Player.t) (st : TickState) : TickState :=
  mkTick ps (ts_state st) (ts_moved st) (ts_hits st) (ts_expired st).

Definition tick_state (s : Phase) (st : TickState) : TickState :=
  mkTick (ts_players st) s (ts_moved st) (ts_hits st) (ts_expired st).

(** [shooter.score++] *)
Definition incScore (p : Player.t) : Player.t :=
  Player.with_score (Player.score p + 1) p.

(** JavaScript truthiness of [room.startTime]: [null] and [0] are falsy. *)
Definition truthyTime (t : option Z) : option Z :=
  match t with
  | Some t => if t =? 0 then None else Some t
  | None => None
  end.

(** [proj.x += proj.vx * dt; proj.z += proj.vz * dt] *)
Definition advance (proj : Projectile.t) : Projectile.t :=
  let dt := (1 / CONFIG.TICK_RATE)%Q in
  Projectile.with_pos
    (Projectile.x proj + Projectile.vx proj * dt)%Q
    (Projectile.z proj + Projectile.vz proj * dt)%Q proj.

(** [Math.abs(proj.x) > hw || Math.abs(proj.z) > hd] *)
Definition outOfBounds (proj : Projectile.t) : bool :=
  let hw := (CONFIG.ARENA_WIDTH / 2)%Q in
  let hd := (CONFIG.ARENA_DEPTH / 2)%Q in
  Qltb hw (Qabs (Projectile.x proj)) || Qltb hd (Qabs (Projectile.z proj)).

(** [now - proj.createdAt > CONFIG.PROJECTILE_LIFETIME] *)
Definition lifetimeExpired (now : Z) (proj : Projectile.t) : bool :=
  CONFIG.PROJECTILE_LIFETIME <? now - Projectile.createdAt proj.

Section Simulation.

(** [Math.sqrt] on finite non-negative numbers. *)
Variable Math_sqrt : Q -> Q.

(** [fireProjectile(roomId, playerId, dirX, dirZ)] *)
Definition fireProjectile (now : Z) (uuid : string)
    (roomId playerId : string) (dirX dirZ : jsval) (m : Manager)
    : Manager * option Projectile.t :=
  match m !! roomId with
  | None => (m, None)
  | Some room =>
      if negb (Phase_eqb (Room.state room) playing) then (m, None)
      else
        match OMap.get playerId (Room.players room) with
        | None => (m, None)
        | Some player =>
            if negb (typeof_number dirX) || negb (typeof_number dirZ)
               || negb (isFinite dirX) || negb (isFinite dirZ)
            then (m, None)
            else
              match dirX, dirZ with
              | JNum dirX, JNum dirZ =>
                  if now - Player.lastFireTime player <? CONFIG.FIRE_COOLDOWN
                  then (m, None)
                  else
                    let room :=
                      Room.with_players
                        (OMap.alter (Player.with_lastFireTime now) playerId
                                    (Room.players room)) room in
                    let m := <[roomId := room]> m in
                    let len := Math_sqrt (dirX * dirX + dirZ * dirZ)%Q in
                    if Qltb len 0.01 then (m, None)
                    else
                      let nx := (dirX / len)%Q in
                      let nz := (dirZ / len)%Q in
                      let projId := uuid in
                      let projectile :=
                        Projectile.mk projId playerId
                          (Player.x player + nx * 1.0)%Q
                          (Player.z player + nz * 1.0)%Q
                          (nx * CONFIG.PROJECTILE_SPEED)%Q
                          (nz * CONFIG.PROJECTILE_SPEED)%Q
                          now in
                      let room :=
                        Room.with_projectiles
                          (OMap.set projId projectile (Room.projectiles room))
                          room in
                      (<[roomId := room]> m, Some projectile)
              | _, _ => (m, None) (* excluded by the guard above *)
              end
        end
  end.

(** [dist < hitDist] for a projectile and a player. *)
Definition collides (proj : Projectile.t) (p : Player.t) : bool :=
  let dx := (Projectile.x proj - Player.x p)%Q in
  let dz := (Projectile.z proj - Player.z p)%Q in
  let dist := Math_sqrt (dx * dx + dz * dz)%Q in
  let hitDist := (CONFIG.PLAYER_RADIUS + CONFIG.PROJECTILE_RADIUS)%Q in
  Qltb dist hitDist.

(** The block of [tick] run when projectile [projId] is within hit
    distance of player [pid]; the loop over the players stops after it. *)
Definition registerHit (pid projId : string) (proj : Projectile.t)
    (st : TickState) : TickState :=
  let shooter := OMap.get (Projectile.ownerId proj) (ts_players st) in
  let st :=
    match shooter with
    | Some _ =>
        tick_players
          (OMap.alter incScore (Projectile.ownerId proj) (ts_players st)) st
    | None => st
    end in
  let st :=
    tick_hit (Hit.mk projId (Projectile.ownerId proj) pid
                     (Projectile.x proj) (Projectile.z proj)) st in
  let st := tick_expire projId st in
  match OMap.get (Projectile.ownerId proj) (ts_players st) with
  | Some shooter =>
      if CONFIG.WIN_SCORE <=? Player.score shooter
      then tick_state ended st
      else st
  | None => st
  end.

(** The inner loop of [tick]: hit detection of one projectile against
    the players, in insertion order; [ps] are the players still to visit. *)
Fixpoint hitLoop (ps : OMap.t Player.t) (projId : string)
    (proj : Projectile.t) (st : TickState) : TickState :=
  match ps with
  | [] => st
  | (pid, p) :: ps' =>
      if String.eqb pid (Projectile.ownerId proj) then
        hitLoop ps' projId proj st
      else if collides proj p then registerHit pid projId proj st
      else hitLoop ps' projId proj st
  end.

(** The body of the outer loop of [tick] for one projectile. *)
Definition stepProjectile (now : Z) (projId : string) (proj : Projectile.t)
    (st : TickState) : TickState :=
  let proj := advance proj in
  let st := tick_moved projId proj st in
  if outOfBounds proj then tick_expire projId st
  else if lifetimeExpired now proj then tick_expire projId st
  else hitLoop (ts_players st) projId proj st.

(** The outer loop of [tick] over [room.projectiles]. *)
Fixpoint projectileLoop (now : Z) (projs : OMap.t Projectile.t)
    (st : TickState) : TickState :=
  match projs with
  | [] => st
  | (projId, proj) :: projs' =>
      projectileLoop now projs' (stepProjectile now projId proj st)
  end.

(** [for (const id of expiredProjectiles) room.projectiles.delete(id)] *)
Fixpoint removeExpired (expired : list string) (projs : OMap.t Projectile.t)
    : OMap.t Projectile.t :=
  match expired with
  | [] => projs
  | id :: expired' => removeExpired expired' (OMap.delete id projs)
  end.

(** The timer update that ends [tick]. *)
Definition updateTimer (now : Z) (room : Room.t) : Room.t :=
  match truthyTime (Room.startTime room) with
  | Some startTime =>
      let elapsed := (inject_Z (now - startTime) / 1000)%Q in
      let room :=
        Room.with_timeRemaining
          (Qmax 0 (CONFIG.MATCH_DURATION - elapsed)) room in
      if Qleb (Room.timeRemaining room) 0
         && Phase_eqb (Room.state room) playing
      then Room.with_state ended room
      else room
  | None => room
  end.

(** [tick(roomId)]: the room after the step, and the hits. *)
Definition tick (now : Z) (roomId : string) (m : Manager)
    : Manager * list Hit.t :=
  match m !! roomId with
  | None => (m, [])
  | Some room =>
      if negb (Phase_eqb (Room.state room) playing) then (m, [])
      else
        let st :=
          projectileLoop now (Room.projectiles room)
            (mkTick (Room.players room) (Room.state room) [] [] []) in
        let room := Room.with_players (ts_players st) room in
        let room := Room.with_state (ts_state st) room in
        let room :=
          Room.with_projectiles
            (removeExpired (ts_expired st) (ts_moved st)) room in
        let room := updateTimer now room in
        (<[roomId := room]> m, ts_hits st)
  end.

End Simulation.

(** The entry that [getState] pushes for a player, and for a
    projectile. *)
Definition playerView (p : Player.t) : State.PlayerView.t :=
  State.PlayerView.mk (Player.id p) (Player.characterId p) (Player.x p)
                      (Player.z p) (Player.rotation p) (Player.score p).

Definition projectileView (proj : Projectile.t) : State.ProjectileView.t :=
  State.ProjectileView.mk (Projectile.id proj) (Projectile.ownerId proj)
                          (Projectile.x proj) (Projectile.z proj)
                          (Projectile.vx proj) (Projectile.vz proj).

(** [getState(roomId)]; [Math.ceil] is [Qceiling]. *)
Definition getState (roomId : string) (m : Manager) : option State.t :=
  match m !! roomId with
  | None => None
  | Some room =>
      let players := (λ kp, playerView kp.2) <$> Room.players room in
      let projectiles :=
        (λ kp, projectileView kp.2) <$> Room.projectiles room in
      Some (State.mk players projectiles (Room.state room)
                     (Qceiling (Room.timeRemaining room)))
  end.

(** The inner loop of [cleanStale], over the players of one room. *)
Fixpoint staleLoop (now : Z) (roomId : string) (ps : OMap.t Player.t)
    : list Stale.t :=
  match ps with
  | [] => []
  | (playerId, player) :: ps' =>
      if CONFIG.HEARTBEAT_TIMEOUT <? now - Player.lastHeartbeat player
      then Stale.mk roomId playerId (Player.ws player)
           :: staleLoop now roomId ps'
      else staleLoop now roomId ps'
  end.

(** [cleanStale()].  The rooms are visited in the order in which the
    registry enumerates them, which the embedding leaves unspecified;
    within a room the players are visited in insertion order. *)
Definition cleanStale (now : Z) (m : Manager) : list Stale.t :=
  map_to_list m ≫= λ kr, staleLoop now kr.1 (Room.players kr.2).

(** [getActiveRooms()], in the order of the registry's enumeration. *)
Definition getActiveRooms (m : Manager) : list string :=
  (map_to_list m).*1.

End RoomManager.

(** ** The operations of the room manager as a transition system *)

Inductive Op : Type :=
  | OpGetRoom (roomId : string)
  | OpAddPlayer (now : Z) (uuid roomId : string) (ws : WebSocket.t)
  | OpRemovePlayer (roomId playerId : string)
  | OpUpdatePlayerPosition (roomId playerId : string) (x z rotation : jsval)
  | OpFireProjectile (now : Z) (uuid roomId playerId : string)
                     (dirX dirZ : jsval)
  | OpTick (now : Z) (roomId : string)
  | OpStartCountdown (roomId : string)
  | OpCountdownInterval (now : Z) (roomId : string)
  | OpStartMatch (now : Z) (roomId : string)
  | OpStopMatch (roomId : string)
  | OpHandleRematch (roomId : string)
  | OpHeartbeat (now : Z) (roomId playerId : string).

Section Run.

Variable Math_sqrt : Q -> Q.

(** The registry after one operation (results are dropped). *)
Definition exec (m : RoomManager.Manager) (o : Op) : RoomManager.Manager :=
  match o with
  | OpGetRoom roomId => (RoomManager.getRoom roomId m).1
  | OpAddPlayer now uuid roomId ws =>
      (RoomManager.addPlayer now uuid roomId ws m).1
  | OpRemovePlayer roomId playerId => RoomManager.removePlayer roomId playerId m
  | OpUpdatePlayerPosition roomId playerId x z rotation =>
      RoomManager.updatePlayerPosition roomId playerId x z rotation m
  | OpFireProjectile now uuid roomId playerId dirX dirZ =>
      (RoomManager.fireProjectile Math_sqrt now uuid roomId playerId
                                  dirX dirZ m).1
  | OpTick now roomId => (RoomManager.tick Math_sqrt now roomId m).1
  | OpStartCountdown roomId => (RoomManager.startCountdown roomId m).1
  | OpCountdownInterval now roomId =>
      (RoomManager.countdownInterval now roomId m).1
  | OpStartMatch now roomId => (RoomManager.startMatch now roomId m).1
  | OpStopMatch roomId => RoomManager.stopMatch roomId m
  | OpHandleRematch roomId => (RoomManager.handleRematch roomId m).1
  | OpHeartbeat now roomId playerId =>
      RoomManager.heartbeat now roomId playerId m
  end.

Definition run (ops : list Op) (m : RoomManager.Manager)
    : RoomManager.Manager :=
  fold_left exec ops m.

End Run.

(** ** The server: derivation of the room id of a new connection *)

Module Server.

(** [params.room], as produced by [url.parse(req.url, true).query]: absent,
    one string, or an array of strings when the parameter is repeated.
    Characters are bytes here. *)
Inductive QueryValue : Type :=
  | QAbsent
  | QString (s : string)
  | QArray (l : list string).

(** JavaScript truthiness: [undefined] and the empty string are falsy. *)
Definition truthy (v : QueryValue) : bool :=
  match v with
  | QAbsent => false
  | QString s => negb (String.eqb s "")
  | QArray _ => true
  end.

(** [Array.prototype.join(',')] *)
Fixpoint join (l : list string) : string :=
  match l with
  | [] => ""
  | [s] => s
  | s :: l' => String.append s (String.append "," (join l'))
  end.

(** [String(v)] *)
Definition String_ (v : QueryValue) : string :=
  match v with
  | QAbsent => "undefined"
  | QString s => s
  | QArray l => join l
  end.

(** [s.slice(0, n)] *)
Definition slice0 (n : nat) (s : string) : string := String.substring 0 n s.

(** [const rawRoom = params.room || 'default';
     const roomId = String(rawRoom).slice(0, 64);] *)
Definition roomIdOf (room : QueryValue) : string :=
  let rawRoom := if truthy room then room else QString "default" in
  slice0 64 (String_ rawRoom).

(** The character allowlist [a-z], [A-Z], [0-9], [_], [-]. *)
Definition allowedChar (c : Ascii.ascii) : bool :=
  let n := Ascii.nat_of_ascii c in
  ((97 <=? n) && (n <=? 122) || (65 <=? n) && (n <=? 90)
   || (48 <=? n) && (n <=? 57) || (n =? 95) || (n =? 45))%nat.

Fixpoint allowlisted (s : string) : bool :=
  match s with
  | EmptyString => true
  | String c s' => allowedChar c && allowlisted s'
  end.

(** *** Limits on clients *)

Definition MAX_MESSAGES_PER_SECOND : Z := 60.
Definition MAX_CONNECTIONS_PER_IP : Z := 4.

(** The object [ws._rateLimiter]. *)
Module RateLimiter.
Record t : Type := mk {
  count : Z;
  resetTime : Z;
}.
End RateLimiter.

(** [getRateLimiter(ws)], on the field [ws._rateLimiter]; the calls of
    [Date.now()] within one call are one reading, [now]. *)
Definition getRateLimiter (now : Z) (rl : option RateLimiter.t)
    : RateLimiter.t :=
  let rl :=
    match rl with
    | None => RateLimiter.mk 0 (now + 1000)
    | Some rl => rl
    end in
  if RateLimiter.resetTime rl <? now
  then RateLimiter.mk 0 (now + 1000)
  else rl.

(** The head of the message handler:
    [const rl = getRateLimiter(ws);
     if (++rl.count > MAX_MESSAGES_PER_SECOND) return;]
    The result tells whether the handler goes on to process the
    message. *)
Definition rateLimit (now : Z) (rl : option RateLimiter.t)
    : option RateLimiter.t * bool :=
  let rl := getRateLimiter now rl in
  let rl := RateLimiter.mk (RateLimiter.count rl + 1)
                           (RateLimiter.resetTime rl) in
  (Some rl, negb (MAX_MESSAGES_PER_SECOND <? RateLimiter.count rl)).

(** The messages of one connection arriving at the given times: which
    ones are processed. *)
Fixpoint rateLimitAll (times : list Z) (rl : option RateLimiter.t)
    : option RateLimiter.t * list bool :=
  match times with
  | [] => (rl, [])
  | now :: times' =>
      let '(rl, ok) := rateLimit now rl in
      let '(rl, oks) := rateLimitAll times' rl in
      (rl, ok :: oks)
  end.

(** [connectionsByIp.get(ip) || dflt] *)
Definition countOr (dflt : Z) (c : option Z) : Z :=
  match c with
  | Some c => if c =? 0 then dflt else c
  | None => dflt
  end.

(** The head of the connection handler, on the table [connectionsByIp]:
    whether the connection is kept. *)
Definition ipConnect (ip : string) (tbl : gmap string Z)
    : gmap string Z * bool :=
  let ipCount := countOr 0 (tbl !! ip) + 1 in
  if MAX_CONNECTIONS_PER_IP <? ipCount then (tbl, false)
  else (<[ip := ipCount]> tbl, true).

(** The [close] handler that a kept connection installs on the table. *)
Definition ipClose (ip : string) (tbl : gmap string Z) : gmap string Z :=
  let count := countOr 1 (tbl !! ip) - 1 in
  if count <=? 0 then delete ip tbl else <[ip := count]> tbl.

Inductive IpEvent : Type :=
  | IpConnect (ip : string)
  | IpClose (ip : string).

Definition ipStep (tbl : gmap string Z) (e : IpEvent) : gmap string Z :=
  match e with
  | IpConnect ip => (ipConnect ip tbl).1
  | IpClose ip => ipClose ip tbl
  end.

(** *** Messages sent to clients *)

Inductive Msg : Type :=
  | ROOM_FULL
  | PLAYER_JOINED (playerId characterId : string) (roomId : option string)
                  (players : list Results.entry)
  | PLAYER_LEFT (playerId : string) (players : list Results.entry)
  | STATE_UPDATE (s : State.t)
  | PROJECTILE_SPAWN (projectile : State.ProjectileView.t)
  | HIT_CONFIRM (hit : Hit.t)
  | LIFECYCLE (b : Broadcast)
  | MATCH_END (results : option Results.t).

(** Messages received from clients, once parsed; [OTHER] is any parsed
    value other than [null] whose [type] is none of the four.  A message
    that parses to [null] makes the handler throw at [msg.type]; it has
    no value here. *)
Inductive ClientMsg : Type :=
  | MOVE (x z rotation : jsval)
  | FIRE (dirX dirZ : jsval)
  | HEARTBEAT
  | REMATCH
  | OTHER.

(** What has been handed to [ws.send], in order: the handle of the socket
    and the message. *)
Definition Outbox : Type := list (nat * Msg).

Section Handlers.

(** [Math.sqrt], and [ws.readyState === WebSocket.OPEN] by handle. *)
Variable Math_sqrt : Q -> Q.
Variable isOpen : nat -> bool.

(** [send(ws, data)] *)
Definition send (ws : WebSocket.t) (data : Msg) : Outbox :=
  if isOpen (WebSocket.handle ws) then [(WebSocket.handle ws, data)] else [].

(** The loop of [broadcast] over the players of the room. *)
Fixpoint broadcastLoop (ps : OMap.t Player.t) (data : Msg)
    (excludeId : option string) : Outbox :=
  match ps with
  | [] => []
  | (pid, player) :: ps' =>
      let excluded :=
        match excludeId with
        | Some id => String.eqb pid id
        | None => false
        end in
      if negb excluded && isOpen (WebSocket.handle (Player.ws player))
      then (WebSocket.handle (Player.ws player), data)
           :: broadcastLoop ps' data excludeId
      else broadcastLoop ps' data excludeId
  end.

(** [broadcast(roomId, data, excludeId = null)] *)
Definition broadcast (roomId : string) (data : Msg)
    (excludeId : option string) (m : RoomManager.Manager) : Outbox :=
  match m !! roomId with
  | None => []
  | Some room => broadcastLoop (Room.players room) data excludeId
  end.

(** [getPlayerList(roomId)] *)
Definition getPlayerList (roomId : string) (m : RoomManager.Manager)
    : list Results.entry :=
  match m !! roomId with
  | None => []
  | Some room =>
      (λ kp, Results.mkEntry (Player.id kp.2) (Player.characterId kp.2)
                             (Player.score kp.2)) <$> Room.players room
  end.

(** [rooms.startCountdown(roomId, broadcast)]: the announcements go to the
    players of the room. *)
Definition startCountdownAndAnnounce (roomId : string)
    (m : RoomManager.Manager) : RoomManager.Manager * Outbox :=
  let '(m, bs) := RoomManager.startCountdown roomId m in
  (m, bs ≫= λ b, broadcast roomId (LIFECYCLE b) None m).

(** The connection handler, from the derivation of the room id to the
    automatic start; [None] for the player when the room is full, in
    which case the socket is closed. *)
Definition onConnection (now : Z) (uuid : string) (room : QueryValue)
    (ws : WebSocket.t) (m : RoomManager.Manager)
    : RoomManager.Manager * Outbox * option Player.t :=
  let roomId := roomIdOf room in
  let '(m, player) := RoomManager.addPlayer now uuid roomId ws m in
  match player with
  | None => (m, send ws ROOM_FULL, None)
  | Some player =>
      let out1 :=
        send ws (PLAYER_JOINED (Player.id player) (Player.characterId player)
                               (Some roomId) (getPlayerList roomId m)) in
      let out2 :=
        broadcast roomId
          (PLAYER_JOINED (Player.id player) (Player.characterId player)
                         None (getPlayerList roomId m))
          (Some (Player.id player)) m in
      let '(m, room) := RoomManager.getRoom roomId m in
      if (OMap.size (Room.players room) =? CONFIG.MAX_PLAYERS)%nat
         && Phase_eqb (Room.state room) waiting
      then
        let '(m, out3) := startCountdownAndAnnounce roomId m in
        (m, out1 ++ out2 ++ out3, Some player)
      else (m, out1 ++ out2, Some player)
  end.

(** The message handler, after rate limiting and parsing.  It is
    installed on connections that have joined, whose [_playerId] and
    [_roomId] are set; with either unset every branch finds no room. *)
Definition onMessage (now : Z) (uuid : string) (ws : WebSocket.t)
    (msg : ClientMsg) (m : RoomManager.Manager)
    : RoomManager.Manager * Outbox :=
  match WebSocket._playerId ws, WebSocket._roomId ws with
  | Some pid, Some rid =>
      match msg with
      | MOVE x z rotation =>
          (RoomManager.updatePlayerPosition rid pid x z rotation m, [])
      | FIRE dirX dirZ =>
          let '(m, proj) :=
            RoomManager.fireProjectile Math_sqrt now uuid rid pid dirX dirZ m in
          match proj with
          | Some proj =>
              (m, broadcast rid
                    (PROJECTILE_SPAWN (RoomManager.projectileView proj))
                    None m)
          | None => (m, [])
          end
      | HEARTBEAT => (RoomManager.heartbeat now rid pid m, [])
      | REMATCH =>
          let '(m, ok) := RoomManager.handleRematch rid m in
          if ok then
            let '(m, r) := RoomManager.getRoom rid m in
            if (OMap.size (Room.players r) =? CONFIG.MAX_PLAYERS)%nat
            then startCountdownAndAnnounce rid m
            else (m, [])
          else (m, [])
      | OTHER => (m, [])
      end
  | _, _ => (m, [])
  end.

(** JavaScript truthiness of a string. *)
Definition truthyString (s : option string) : option string :=
  match s with
  | Some s => if String.eqb s "" then None else Some s
  | None => None
  end.

(** The [close] handler of a connection that has joined. *)
Definition onClose (ws : WebSocket.t) (m : RoomManager.Manager)
    : RoomManager.Manager * Outbox :=
  match truthyString (WebSocket._playerId ws),
        truthyString (WebSocket._roomId ws) with
  | Some pid, Some rid =>
      let m := RoomManager.removePlayer rid pid m in
      (m, broadcast rid (PLAYER_LEFT pid (getPlayerList rid m)) None m)
  | _, _ => (m, [])
  end.

(** The tail of the body of the game loop: the state of a room that has
    players goes to its players. *)
Definition broadcastState (roomId : string) (m : RoomManager.Manager)
    : Outbox :=
  match m !! roomId with
  | Some room =>
      if (0 <? OMap.size (Room.players room))%nat then
        match RoomManager.getState roomId m with
        | Some state => broadcast roomId (STATE_UPDATE state) None m
        | None => []
        end
      else []
  | None => []
  end.

(** The body of the game loop for one room id; [room] is the object
    fetched at the head of the body, which the calls mutate. *)
Definition loopRoom (now : Z) (roomId : string) (m : RoomManager.Manager)
    : RoomManager.Manager * Outbox :=
  match m !! roomId with
  | None => (m, [])
  | Some room =>
      let '(m, out1) :=
        if Phase_eqb (Room.state room) playing then
          let '(m, hits) := RoomManager.tick Math_sqrt now roomId m in
          let outHits :=
            hits ≫= λ hit, broadcast roomId (HIT_CONFIRM hit) None m in
          match Room.state <$> m !! roomId with
          | Some ended =>
              let results := RoomManager.getMatchResults roomId m in
              let outEnd := broadcast roomId (MATCH_END results) None m in
              (RoomManager.stopMatch roomId m, outHits ++ outEnd)
          | _ => (m, outHits)
          end
        else (m, []) in
      (m, out1 ++ broadcastState roomId m)
  end.

(** The loop of the stale-connection cleanup over the array returned by
    [cleanStale]; each socket is then closed. *)
Fixpoint cleanupLoop (stale : list Stale.t) (m : RoomManager.Manager)
    : RoomManager.Manager * Outbox :=
  match stale with
  | [] => (m, [])
  | s :: stale' =>
      let m := RoomManager.removePlayer (Stale.roomId s) (Stale.playerId s) m in
      let out :=
        broadcast (Stale.roomId s)
          (PLAYER_LEFT (Stale.playerId s) (getPlayerList (Stale.roomId s) m))
          None m in
      let '(m, out') := cleanupLoop stale' m in
      (m, out ++ out')
  end.

Definition staleCleanup (now : Z) (m : RoomManager.Manager)
    : RoomManager.Manager * Outbox :=
  cleanupLoop (RoomManager.cleanStale now m) m.

End Handlers.

End Server.

(** ** A computable square root, for evaluation

    The square root rounded down to a multiple of [10^-12 / Qden q]. *)
Definition sqrt_floor (q : Q) : Q :=
  Z.sqrt (Qnum q * Z.pos (Qden q) * 10 ^ 24) # (Qden q * 10 ^ 12).

(** ** Vocabulary of the statements *)

(** A message field passes the validation of a number exactly when it is
    a finite number. *)
Definition validNumber (v : jsval) : bool := typeof_number v && isFinite v.

(** Every room of the registry holds at most [MAX_PLAYERS] players. *)
Definition capacity_ok (m : RoomManager.Manager) : Prop :=
  map_Forall
    (λ _ room, (OMap.size (Room.players room) ≤ CONFIG.MAX_PLAYERS)%nat) m.

(** The room after an accepted fire. *)
Definition firedRoom (now : Z) (uuid playerId : string)
    (proj : Projectile.t) (room : Room.t) : Room.t :=
  Room.with_projectiles
    (OMap.set uuid proj (Room.projectiles room))
    (Room.with_players
       (OMap.alter (Player.with_lastFireTime now) playerId
                   (Room.players room)) room).

(** A projectile entry after its position has been advanced. *)
Definition advanced (entry : string * Projectile.t)
    : string * Projectile.t :=
  (entry.1, RoomManager.advance entry.2).

(** Closed forms of what one simulation step does to one projectile,
    used to state the properties of [tick]; [ps] are the room's players. *)
Section StepVocabulary.
Variable Math_sqrt : Q -> Q.

(** The first player, in insertion order, other than the owner, that the
    projectile is within hit distance of. *)
Fixpoint firstTarget (ps : OMap.t Player.t) (proj : Projectile.t)
    : option string :=
  match ps with
  | [] => None
  | (pid, p) :: ps' =>
      if String.eqb pid (Projectile.ownerId proj) then firstTarget ps' proj
      else if RoomManager.collides Math_sqrt proj p then Some pid
      else firstTarget ps' proj
  end.

(** The hit record, if any, that a step produces for a projectile. *)
Definition hitOf (now : Z) (ps : OMap.t Player.t)
    (entry : string * Projectile.t) : option Hit.t :=
  let proj := RoomManager.advance entry.2 in
  if RoomManager.outOfBounds proj || RoomManager.lifetimeExpired now proj
  then None
  else
    (λ target,
       Hit.mk entry.1 (Projectile.ownerId proj) target
              (Projectile.x proj) (Projectile.z proj))
    <$> firstTarget ps proj.

(** Whether a step expires a projectile. *)
Definition expires (now : Z) (ps : OMap.t Player.t)
    (entry : string * Projectile.t) : bool :=
  let proj := RoomManager.advance entry.2 in
  RoomManager.outOfBounds proj || RoomManager.lifetimeExpired now proj
  || match firstTarget ps proj with Some _ => true | None => false end.

Definition expiredId (now : Z) (ps : OMap.t Player.t)
    (entry : string * Projectile.t) : option string :=
  if expires now ps entry then Some entry.1 else None.

(** The room after a step on a playing room, given the players and state
    that the loop over the projectiles has produced. *)
Definition steppedRoom (now : Z) (room : Room.t) (ps' : OMap.t Player.t)
    (s' : Phase) : Room.t :=
  RoomManager.updateTimer now
    (Room.mk (Room.id room) ps'
       (RoomManager.removeExpired
          (omap (expiredId now (Room.players room))
                (Room.projectiles room))
          (advanced <$> Room.projectiles room))
       s' (Room.matchTimer room) (Room.countdownTimer room)
       (Room.startTime room) (Room.timeRemaining room)).

End StepVocabulary.

(** Two player maps with the same ids, in the same order, at the same
    positions. *)
Definition samePose (ps ps' : OMap.t Player.t) : Prop :=
  Forall2
    (λ a b, a.1 = b.1 ∧ Player.x a.2 = Player.x b.2
            ∧ Player.z a.2 = Player.z b.2)
    ps ps'.

(** Every score is below [WIN_SCORE]; some score has reached it. *)
Definition belowWin (ps : OMap.t Player.t) : Prop :=
  Forall (λ kp, Player.score kp.2 < CONFIG.WIN_SCORE) ps.

Definition reachedWin (ps : OMap.t Player.t) : Prop :=
  Exists (λ kp, CONFIG.WIN_SCORE ≤ Player.score kp.2) ps.

(** The win invariant of the loop: once a score has reached [WIN_SCORE],
    the state is [ended]. *)
Definition winInv (st : RoomManager.TickState) : Prop :=
  RoomManager.ts_state st = ended ∨ belowWin (RoomManager.ts_players st).

(** Two local states of [tick] with the same players and state. *)
Definition sameCore (st1 st2 : RoomManager.TickState) : Prop :=
  RoomManager.ts_players st1 = RoomManager.ts_players st2
  ∧ RoomManager.ts_state st1 = RoomManager.ts_state st2.

(** In every room of the registry the player ids are pairwise distinct,
    and so are the projectile ids. *)
Definition wf_ok (m : RoomManager.Manager) : Prop :=
  map_Forall
    (λ _ room,
       OMap.wf (Room.players room) ∧ OMap.wf (Room.projectiles room)) m.

(** ** Concrete rooms *)

Module Scenario.

Definition conn (n : nat) (playerId : string) : WebSocket.t :=
  WebSocket.mk n (Some playerId) (Some "r1").

(** The first joiner of room ["r1"], at its spawn point. *)
Definition cupid (score lastFireTime : Z) : Player.t :=
  Player.mk "p1" "r1" "cupid_prime" (-8) 0 0 score (conn 1 "p1") 0
            lastFireTime.

(** The second joiner of room ["r1"], at its spawn point. *)
Definition dark (score : Z) : Player.t :=
  Player.mk "p2" "r1" "dark_cupid" 8 0 Math_PI score (conn 2 "p2") 0 0.

(** Room ["r1"] in a match started at [startTime]. *)
Definition arena (players : OMap.t Player.t)
    (projectiles : OMap.t Projectile.t) (startTime : Z) : Room.t :=
  Room.mk "r1" players projectiles playing None None (Some startTime) 180.

Definition registry (room : Room.t) : RoomManager.Manager :=
  <["r1" := room]> RoomManager.constructor.

(** A projectile that reaches the second player on the next step. *)
Definition winning_shot (owner : string) (createdAt : Z) : Projectile.t :=
  Projectile.mk "a1" owner 7.5 0 16 0 createdAt.

(** A projectile in the middle of the arena that reaches nobody. *)
Definition stray_shot : Projectile.t :=
  Projectile.mk "a2" "p2" 0 5 (-16) 0 1000900.

Definition phaseOf (m : RoomManager.Manager) : option Phase :=
  Room.state <$> m !! "r1".

Definition projectileIds (m : RoomManager.Manager) : option (list string) :=
  (λ room, OMap.keys (Room.projectiles room)) <$> m !! "r1".

Definition scoreOf (playerId : string) (m : RoomManager.Manager) : option Z :=
  room ← m !! "r1";
  Player.score <$> OMap.get playerId (Room.players room).

Definition lastFireTimeOf (playerId : string) (m : RoomManager.Manager)
    : option Z :=
  room ← m !! "r1";
  Player.lastFireTime <$> OMap.get playerId (Room.players room).

Definition reasonOf (m : RoomManager.Manager) : option string :=
  Results.reason <$> RoomManager.getMatchResults "r1" m.

End Scenario.

(** ** Vocabulary of the further properties *)

(** The room that [getRoom] creates. *)
Definition freshRoom (roomId : string) : Room.t :=
  Room.mk roomId [] [] waiting None None None CONFIG.MATCH_DURATION.

(** The player that the loop of [startCountdown] leaves at position [i]
    of the iteration. *)
Definition respawned (i : nat) (p : Player.t) : Player.t :=
  Player.mk (Player.id p) (Player.roomId p) (Player.characterId p)
    (if (i =? 0)%nat
     then (- CONFIG.PLAYER_SPAWN_OFFSET)%Q
     else CONFIG.PLAYER_SPAWN_OFFSET)
    0
    (if (i =? 0)%nat then 0%Q else Math_PI)
    0 (Player.ws p) (Player.lastHeartbeat p) (Player.lastFireTime p).

(** A match aborted by a departure. *)
Definition abortedRoom (room : Room.t) : Room.t :=
  Room.with_projectiles []
    (Room.with_state waiting (RoomManager.stopTimers room)).

(** The same players in the same order, each one differing at most by
    its score, which has not decreased. *)
Definition scoresGrew (ps ps' : OMap.t Player.t) : Prop :=
  Forall2
    (λ a b, a.1 = b.1
            ∧ b.2 = Player.with_score (Player.score b.2) a.2
            ∧ Player.score a.2 ≤ Player.score b.2)
    ps ps'.

(** The sum of the scores of the players. *)
Fixpoint totalScore (ps : OMap.t Player.t) : Z :=
  match ps with
  | [] => 0
  | (_, p) :: ps' => Player.score p + totalScore ps'
  end.

(** The number of hits whose shooter is one of the players [ps]. *)
Fixpoint scoringHits (ps : OMap.t Player.t) (hits : list Hit.t) : Z :=
  match hits with
  | [] => 0
  | h :: hits' =>
      (match OMap.get (Hit.shooterId h) ps with Some _ => 1 | None => 0 end)
      + scoringHits ps hits'
  end.

(** The seconds elapsed since [startTime], as [tick] computes them. *)
Definition elapsedAt (now startTime : Z) : Q :=
  inject_Z (now - startTime) / 1000.

(** The invariants of the loop of [tick] over the projectiles, relative
    to the players [ps0] of the room when the step begins. *)
Definition scoreInv (ps0 : OMap.t Player.t) (st : RoomManager.TickState)
    : Prop :=
  scoresGrew ps0 (RoomManager.ts_players st)
  ∧ totalScore (RoomManager.ts_players st)
    = totalScore ps0 + scoringHits ps0 (RoomManager.ts_hits st)
  ∧ (RoomManager.ts_state st = playing
     ∨ reachedWin (RoomManager.ts_players st)).

(** The player record that [addPlayer] creates in a room that holds
    [playerIndex] players. *)
Definition joined (now : Z) (uuid roomId : string) (ws : WebSocket.t)
    (playerIndex : nat) : Player.t :=
  Player.mk uuid roomId
    (if (playerIndex =? 0)%nat then "cupid_prime" else "dark_cupid")
    (if (playerIndex =? 0)%nat
     then (- CONFIG.PLAYER_SPAWN_OFFSET)%Q
     else CONFIG.PLAYER_SPAWN_OFFSET)
    0
    (if (playerIndex =? 0)%nat then 0%Q else Math_PI)
    0 (WebSocket.mk (WebSocket.handle ws) (Some uuid) (Some roomId)) now 0.

(** The removals that the server's cleanup performs for the array
    returned by [cleanStale]. *)
Definition removeStale (stale : list Stale.t) (m : RoomManager.Manager)
    : RoomManager.Manager :=
  fold_left
    (λ m s, RoomManager.removePlayer (Stale.roomId s) (Stale.playerId s) m)
    stale m.

(** Every player of [m'] is a player of [m], in the same room and with
    the same record. *)
Definition playersWithin (m' m : RoomManager.Manager) : Prop :=
  ∀ roomId room' kp,
    m' !! roomId = Some room' → kp ∈ Room.players room' →
    ∃ room, m !! roomId = Some room ∧ kp ∈ Room.players room.

(** The operations other than the simulation step. *)
Definition isTick (o : Op) : bool :=
  match o with OpTick _ _ => true | _ => false end.

(** A player record stored under the id it carries, in the room it names,
    with its connection bound to both, and a score that is not
    negative. *)
Definition playerOk (roomId : string) (kp : string * Player.t) : Prop :=
  Player.id kp.2 = kp.1
  ∧ Player.roomId kp.2 = roomId
  ∧ WebSocket._playerId (Player.ws kp.2) = Some kp.1
  ∧ WebSocket._roomId (Player.ws kp.2) = Some roomId
  ∧ 0 ≤ Player.score kp.2.

Definition projectileOk (kp : string * Projectile.t) : Prop :=
  Projectile.id kp.2 = kp.1.

Definition roomOk (roomId : string) (room : Room.t) : Prop :=
  Room.id room = roomId
  ∧ Forall (playerOk roomId) (Room.players room)
  ∧ Forall projectileOk (Room.projectiles room)
  ∧ (0 <= Room.timeRemaining room)%Q
  ∧ Room.matchTimer room = None.

Definition consistent (m : RoomManager.Manager) : Prop :=
  map_Forall roomOk m.

(** The number of messages processed among the outcomes of
    [rateLimitAll]. *)
Fixpoint processed (oks : list bool) : nat :=
  match oks with
  | [] => 0
  | ok :: oks' => ((if ok then 1 else 0) + processed oks')%nat
  end.

(** Every address of the table has between 1 and
    [MAX_CONNECTIONS_PER_IP] connections. *)
Definition ipOk (tbl : gmap string Z) : Prop :=
  map_Forall (λ _ c, 1 ≤ c ≤ Server.MAX_CONNECTIONS_PER_IP) tbl.

(** ** Further concrete rooms *)

(** Room ["r1"] with both players, scores [s1] and [s2], a projectile in
    flight, in state [state]. *)
Definition duel (state : Phase) (s1 s2 : Z) : Room.t :=
  Room.with_state state
    (Scenario.arena [("p1", Scenario.cupid s1 0); ("p2", Scenario.dark s2)]
                    [("a2", Scenario.stray_shot)] 1000000).

(** Room ["r1"] with the first player only. *)
Definition solo (state : Phase) : Room.t :=
  Room.with_state state
    (Scenario.arena [("p1", Scenario.cupid 0 0)] [] 1000000).

(** Every socket is open. *)
Definition allOpen (handle : nat) : bool := true.

(** * Properties *)

(** ** Ordered maps *)

Section OMapFacts.
Context {V : Type}.
Implicit Types (m : OMap.t V) (k : string) (v : V).

Lemma eqb_refl_true k : String.eqb k k = true.
Proof. apply String.eqb_refl. Qed.

Lemma eqb_neq_false k k' : k ≠ k' → String.eqb k k' = false.
Proof. intros H. by apply String.eqb_neq. Qed.

Lemma omap_get_None_keys k m : OMap.get k m = None ↔ k ∉ OMap.keys m.
Proof.
  induction m as [|[k' v'] m IH]; simpl.
  - split; [intros _; apply not_elem_of_nil | done].
  - destruct (String.eqb_spec k k') as [->|Hne].
    + split; [done | intros H; exfalso; apply H; left].
    + rewrite IH, not_elem_of_cons. tauto.
Qed.

Lemma omap_get_In k v m : OMap.get k m = Some v → (k, v) ∈ m.
Proof.
  induction m as [|[k' v'] m IH]; simpl; [done|].
  destruct (String.eqb_spec k k') as [->|Hne].
  - intros [= ->]. left.
  - intros H. right. auto.
Qed.

Lemma omap_In_get k v m : OMap.wf m → (k, v) ∈ m → OMap.get k m = Some v.
Proof.
  unfold OMap.wf. induction m as [|[k' v'] m IH]; simpl.
  - intros _ H. by apply elem_of_nil in H.
  - rewrite NoDup_cons. intros [Hk Hm] H.
    apply elem_of_cons in H as [[= -> ->]|H].
    + by rewrite eqb_refl_true.
    + destruct (String.eqb_spec k k') as [->|Hne]; [|auto].
      exfalso. apply Hk. apply (list_elem_of_fmap_2 fst) in H. exact H.
Qed.

Lemma omap_keys_alter (f : V → V) k m :
  OMap.keys (OMap.alter f k m) = OMap.keys m.
Proof.
  induction m as [|[k' v'] m IH]; simpl; [done|].
  destruct (String.eqb k k'); simpl; [done|]. by rewrite IH.
Qed.

Lemma omap_size_alter (f : V → V) k m :
  OMap.size (OMap.alter f k m) = OMap.size m.
Proof.
  unfold OMap.size. induction m as [|[k' v'] m IH]; simpl; [done|].
  destruct (String.eqb k k'); simpl; [done|]. by rewrite IH.
Qed.

Lemma omap_get_alter (f : V → V) k k' m :
  OMap.get k' (OMap.alter f k m)
  = if String.eqb k k' then f <$> OMap.get k' m else OMap.get k' m.
Proof.
  induction m as [|[k0 v0] m IH]; simpl.
  - by destruct (String.eqb k k').
  - destruct (String.eqb_spec k k0) as [->|Hne]; simpl.
    + destruct (String.eqb_spec k0 k') as [->|Hne'].
      * by rewrite eqb_refl_true.
      * rewrite (eqb_neq_false k' k0); [done | congruence].
    + destruct (String.eqb_spec k' k0) as [->|Hne'].
      * by rewrite (eqb_neq_false k k0).
      * exact IH.
Qed.

Lemma omap_size_set k v m :
  (OMap.size (OMap.set k v m) ≤ S (OMap.size m))%nat.
Proof.
  unfold OMap.size. induction m as [|[k' v'] m IH]; simpl; [lia|].
  destruct (String.eqb k k'); simpl; lia.
Qed.

Lemma omap_size_delete k m : (OMap.size (OMap.delete k m) ≤ OMap.size m)%nat.
Proof.
  unfold OMap.size. induction m as [|[k' v'] m IH]; simpl; [lia|].
  destruct (String.eqb k k'); simpl; lia.
Qed.

Lemma omap_keys_delete_subset k k' m :
  k' ∈ OMap.keys (OMap.delete k m) → k' ∈ OMap.keys m.
Proof.
  induction m as [|[k0 v0] m IH]; simpl; [done|].
  destruct (String.eqb k k0); simpl.
  - intros H. by right.
  - intros H. apply elem_of_cons in H as [->|H]; [left | right; auto].
Qed.

Lemma omap_wf_delete k m : OMap.wf m → OMap.wf (OMap.delete k m).
Proof.
  unfold OMap.wf. induction m as [|[k0 v0] m IH]; simpl; [done|].
  rewrite NoDup_cons. intros [Hk Hm].
  destruct (String.eqb k k0); simpl; [done|].
  apply NoDup_cons. split; [|auto].
  intros H. apply Hk. by apply omap_keys_delete_subset in H.
Qed.

Lemma omap_delete_not_in k m : OMap.wf m → k ∉ OMap.keys (OMap.delete k m).
Proof.
  unfold OMap.wf. induction m as [|[k0 v0] m IH]; simpl.
  - intros _. apply not_elem_of_nil.
  - rewrite NoDup_cons. intros [Hk Hm].
    destruct (String.eqb_spec k k0) as [->|Hne]; simpl; [done|].
    rewrite not_elem_of_cons. split; [done | auto].
Qed.

Lemma omap_get_delete_ne k k' m :
  k ≠ k' → OMap.get k' (OMap.delete k m) = OMap.get k' m.
Proof.
  intros Hne. induction m as [|[k0 v0] m IH]; simpl; [done|].
  destruct (String.eqb_spec k k0) as [->|Hne0]; simpl.
  - by rewrite (eqb_neq_false k' k0).
  - by rewrite IH.
Qed.

End OMapFacts.

(** ** The room id of a connection *)

Lemma slice0_length n s : (String.length (Server.slice0 n s) ≤ n)%nat.
Proof.
  unfold Server.slice0. revert s.
  induction n as [|n IH]; intros [|c s]; simpl; try lia.
  specialize (IH s). lia.
Qed.

(** The room id is capped at 64 characters. *)
Lemma roomIdOf_length v : (String.length (Server.roomIdOf v) ≤ 64)%nat.
Proof. apply slice0_length. Qed.

Lemma slice0_short n s : (String.length s ≤ n)%nat → Server.slice0 n s = s.
Proof.
  unfold Server.slice0. revert n.
  induction s as [|c s IH]; intros [|n]; simpl; try done; try lia.
  intros Hlen. f_equal. apply IH. lia.
Qed.

(** Any non-empty string of at most 64 characters is used as it is,
    whatever its characters. *)
Lemma roomIdOf_short s :
  s ≠ "" → (String.length s ≤ 64)%nat →
  Server.roomIdOf (Server.QString s) = s.
Proof.
  intros Hne Hlen. unfold Server.roomIdOf. simpl.
  destruct (String.eqb_spec s ""); [done|]. simpl. by apply slice0_short.
Qed.

(** An absent or empty [room] parameter falls back to ["default"]. *)
Lemma roomIdOf_fallback :
  Server.roomIdOf Server.QAbsent = "default"
  ∧ Server.roomIdOf (Server.QString "") = "default".
Proof. split; reflexivity. Qed.

(** C5 (code defect).  The room id used as registry key is not restricted
    to the allowlist of letters, digits, [_] and [-]: for the request
    [?room=a%20b!] the key is ["a b!"], unchanged, and it is not replaced
    by the fallback either. *)
Theorem roomIdOf_keeps_disallowed_chars :
  Server.roomIdOf (Server.QString "a b!") = "a b!"
  ∧ Server.allowlisted (Server.roomIdOf (Server.QString "a b!")) = false.
Proof. split; reflexivity. Qed.

(** ** Moves *)

Lemma validNumber_spec v : validNumber v = true ↔ ∃ q, v = JNum q.
Proof.
  destruct v; simpl; split; try done; try (intros [q [=]]); eauto.
Qed.

Lemma clamp_bounds (h v : Q) :
  (- h <= h)%Q → (- h <= Qmax (- h) (Qmin h v) <= h)%Q.
Proof.
  intros Hh. split.
  - apply Q.le_max_l.
  - apply Q.max_lub; [exact Hh | apply Q.le_min_l].
Qed.

(** C7.  A move whose [x], [z] or [rotation] is not a finite number
    leaves the whole registry unchanged; a move with finite fields stores
    [x] within [-ARENA_WIDTH/2 + PLAYER_RADIUS, ARENA_WIDTH/2 -
    PLAYER_RADIUS], [z] within the same bounds for [ARENA_DEPTH], and the
    rotation exactly as received. *)
Theorem updatePlayerPosition_validates_and_clamps
    (roomId playerId : string) (x z rotation : jsval)
    (m : RoomManager.Manager) (room : Room.t) (player : Player.t) :
  m !! roomId = Some room →
  OMap.get playerId (Room.players room) = Some player →
  (validNumber x && validNumber z && validNumber rotation = false →
   RoomManager.updatePlayerPosition roomId playerId x z rotation m = m)
  ∧ (∀ qx qz qr : Q,
       x = JNum qx → z = JNum qz → rotation = JNum qr →
       ∃ room' player',
         RoomManager.updatePlayerPosition roomId playerId x z rotation m
           !! roomId = Some room'
         ∧ OMap.get playerId (Room.players room') = Some player'
         ∧ (- CONFIG.ARENA_WIDTH / 2 + CONFIG.PLAYER_RADIUS
            <= Player.x player'
            <= CONFIG.ARENA_WIDTH / 2 - CONFIG.PLAYER_RADIUS)%Q
         ∧ (- CONFIG.ARENA_DEPTH / 2 + CONFIG.PLAYER_RADIUS
            <= Player.z player'
            <= CONFIG.ARENA_DEPTH / 2 - CONFIG.PLAYER_RADIUS)%Q
         ∧ Player.rotation player' = qr
         ∧ Player.score player' = Player.score player).
Proof.
  intros Hroom Hplayer. unfold RoomManager.updatePlayerPosition.
  rewrite Hroom, Hplayer. split.
  - intros Hbad.
    destruct x, z, rotation; simpl in *; try reflexivity; discriminate.
  - intros qx qz qr -> -> ->. simpl.
    eexists _, _. rewrite lookup_insert_eq. split; [reflexivity|].
    simpl. rewrite omap_get_alter, eqb_refl_true, Hplayer. simpl.
    split; [reflexivity|]. simpl.
    split; [|split; [|split; reflexivity]].
    + destruct (clamp_bounds
                  (CONFIG.ARENA_WIDTH / 2 - CONFIG.PLAYER_RADIUS) qx)
        as [Hlo Hhi]; [by vm_compute|].
      split; [|exact Hhi].
      eapply Qle_trans; [|exact Hlo]. by vm_compute.
    + destruct (clamp_bounds
                  (CONFIG.ARENA_DEPTH / 2 - CONFIG.PLAYER_RADIUS) qz)
        as [Hlo Hhi]; [by vm_compute|].
      split; [|exact Hhi].
      eapply Qle_trans; [|exact Hlo]. by vm_compute.
Qed.

(** ** Structure of one simulation step *)

Section TickFacts.
Variable Math_sqrt : Q → Q.

Abbreviation hitLoop := (RoomManager.hitLoop Math_sqrt).
Abbreviation stepProjectile := (RoomManager.stepProjectile Math_sqrt).
Abbreviation projectileLoop := (RoomManager.projectileLoop Math_sqrt).

(** The simulation step never adds, removes or reorders players. *)
Lemma hitLoop_keys ps projId proj st :
  OMap.keys (RoomManager.ts_players (hitLoop ps projId proj st))
  = OMap.keys (RoomManager.ts_players st).
Proof.
  induction ps as [|[pid p] ps IH]; simpl; [done|].
  destruct (String.eqb pid (Projectile.ownerId proj)); [exact IH|].
  destruct (RoomManager.collides Math_sqrt proj p); [|exact IH].
  unfold RoomManager.registerHit.
  destruct (OMap.get (Projectile.ownerId proj) (RoomManager.ts_players st));
    simpl; repeat case_match; simpl; by rewrite ?omap_keys_alter.
Qed.

Lemma stepProjectile_keys now projId proj st :
  OMap.keys (RoomManager.ts_players (stepProjectile now projId proj st))
  = OMap.keys (RoomManager.ts_players st).
Proof.
  unfold RoomManager.stepProjectile.
  repeat case_match; simpl; try done. by rewrite hitLoop_keys.
Qed.

Lemma projectileLoop_keys now projs st :
  OMap.keys (RoomManager.ts_players (projectileLoop now projs st))
  = OMap.keys (RoomManager.ts_players st).
Proof.
  revert st. induction projs as [|[projId proj] projs IH]; intros st; simpl.
  - done.
  - by rewrite IH, stepProjectile_keys.
Qed.

End TickFacts.

Lemma omap_size_keys {V} (m : OMap.t V) :
  OMap.size m = length (OMap.keys m).
Proof. unfold OMap.size, OMap.keys. by rewrite length_fmap. Qed.

Lemma resetPlayers_size i ps :
  OMap.size (RoomManager.resetPlayers i ps) = OMap.size ps.
Proof.
  unfold OMap.size. revert i.
  induction ps as [|[pid p] ps IH]; intros i; simpl; [done|].
  by rewrite IH.
Qed.

(** ** Capacity *)

Lemma capacity_insert m roomId room :
  capacity_ok m →
  (OMap.size (Room.players room) ≤ CONFIG.MAX_PLAYERS)%nat →
  capacity_ok (<[roomId := room]> m).
Proof. intros Hm Hr. by apply map_Forall_insert_2. Qed.

Lemma capacity_lookup m roomId room :
  capacity_ok m → m !! roomId = Some room →
  (OMap.size (Room.players room) ≤ CONFIG.MAX_PLAYERS)%nat.
Proof. intros Hm Hr. exact (Hm _ _ Hr). Qed.

Lemma capacity_delete m roomId : capacity_ok m → capacity_ok (delete roomId m).
Proof. intros Hm. by apply map_Forall_delete. Qed.

Lemma stopTimers_players room :
  Room.players (RoomManager.stopTimers room) = Room.players room.
Proof. unfold RoomManager.stopTimers. by repeat case_match. Qed.

Lemma updateTimer_players now room :
  Room.players (RoomManager.updateTimer now room) = Room.players room.
Proof. unfold RoomManager.updateTimer. by repeat case_match. Qed.

Lemma capacity_startMatch now roomId m :
  capacity_ok m → capacity_ok (RoomManager.startMatch now roomId m).1.
Proof.
  intros Hm. unfold RoomManager.startMatch.
  destruct (m !! roomId) as [room|] eqn:Hroom; simpl; [|done].
  apply capacity_insert; [done|]. simpl. by eapply capacity_lookup.
Qed.

Lemma capacity_exec Math_sqrt m o :
  capacity_ok m → capacity_ok (exec Math_sqrt m o).
Proof.
  intros Hm. destruct o; simpl.
  - (* getRoom *)
    unfold RoomManager.getRoom.
    destruct (m !! roomId) eqn:Hroom; simpl; [done|].
    apply capacity_insert; [done | simpl; unfold CONFIG.MAX_PLAYERS; lia].
  - (* addPlayer *)
    unfold RoomManager.addPlayer, RoomManager.getRoom.
    destruct (m !! roomId) as [room|] eqn:Hroom.
    + destruct (Nat.leb_spec CONFIG.MAX_PLAYERS (OMap.size (Room.players room)));
        simpl; [done|].
      apply capacity_insert; [done|]. simpl.
      pose proof (omap_size_set uuid
        (Player.mk uuid roomId
           (if (OMap.size (Room.players room) =? 0)%nat
            then "cupid_prime" else "dark_cupid")
           (if (OMap.size (Room.players room) =? 0)%nat
            then (- CONFIG.PLAYER_SPAWN_OFFSET)%Q
            else CONFIG.PLAYER_SPAWN_OFFSET)
           0
           (if (OMap.size (Room.players room) =? 0)%nat
            then 0%Q else Math_PI)
           0 (WebSocket.mk (WebSocket.handle ws) (Some uuid) (Some roomId))
           now 0)
        (Room.players room)).
      lia.
    + simpl. apply capacity_insert.
      * apply capacity_insert; [done | simpl; unfold CONFIG.MAX_PLAYERS; lia].
      * simpl. unfold CONFIG.MAX_PLAYERS. lia.
  - (* removePlayer *)
    unfold RoomManager.removePlayer.
    destruct (m !! roomId) as [room|] eqn:Hroom; [|done].
    pose proof (capacity_lookup _ _ _ Hm Hroom) as Hsz.
    pose proof (omap_size_delete playerId (Room.players room)) as Hdel.
    simpl. repeat case_match.
    + refine (capacity_delete _ _ _). apply capacity_insert; [done|].
      rewrite stopTimers_players. simpl. lia.
    + apply capacity_insert; [done|]. simpl.
      unfold RoomManager.stopTimers; simpl. repeat case_match; simpl; lia.
    + apply capacity_insert; [done|]. simpl. lia.
  - (* updatePlayerPosition *)
    unfold RoomManager.updatePlayerPosition.
    destruct (m !! roomId) as [room|] eqn:Hroom; [|done].
    pose proof (capacity_lookup _ _ _ Hm Hroom) as Hsz.
    repeat case_match; try done.
    apply capacity_insert; [done|]. simpl. by rewrite omap_size_alter.
  - (* fireProjectile *)
    unfold RoomManager.fireProjectile.
    destruct (m !! roomId) as [room|] eqn:Hroom; [|done].
    pose proof (capacity_lookup _ _ _ Hm Hroom) as Hsz.
    repeat case_match; simpl; try done.
    + apply capacity_insert; [done|]. simpl. by rewrite omap_size_alter.
    + apply capacity_insert; [|simpl; by rewrite omap_size_alter].
      apply capacity_insert; [done|]. simpl. by rewrite omap_size_alter.
  - (* tick *)
    unfold RoomManager.tick.
    destruct (m !! roomId) as [room|] eqn:Hroom; [|done].
    pose proof (capacity_lookup _ _ _ Hm Hroom) as Hsz.
    case_match; simpl; [done|].
    apply capacity_insert; [done|].
    rewrite updateTimer_players. simpl.
    by rewrite omap_size_keys, projectileLoop_keys, <- omap_size_keys.
  - (* startCountdown *)
    unfold RoomManager.startCountdown.
    destruct (m !! roomId) as [room|] eqn:Hroom; [|done].
    pose proof (capacity_lookup _ _ _ Hm Hroom) as Hsz.
    simpl. apply capacity_insert; [done|]. simpl.
    by rewrite resetPlayers_size.
  - (* the countdown interval *)
    unfold RoomManager.countdownInterval.
    destruct (m !! roomId) as [room|] eqn:Hroom; [|done].
    pose proof (capacity_lookup _ _ _ Hm Hroom) as Hsz.
    repeat case_match; simpl; try done.
    + by apply capacity_insert.
    + apply capacity_startMatch. by apply capacity_insert.
  - by apply capacity_startMatch.
  - (* stopMatch *)
    unfold RoomManager.stopMatch.
    destruct (m !! roomId) as [room|] eqn:Hroom; [|done].
    apply capacity_insert; [done|]. rewrite stopTimers_players.
    by eapply capacity_lookup.
  - (* handleRematch *)
    unfold RoomManager.handleRematch.
    destruct (m !! roomId) as [room|] eqn:Hroom; [|done].
    pose proof (capacity_lookup _ _ _ Hm Hroom) as Hsz.
    case_match; simpl; [done|]. by apply capacity_insert.
  - (* heartbeat *)
    unfold RoomManager.heartbeat.
    destruct (m !! roomId) as [room|] eqn:Hroom; [|done].
    pose proof (capacity_lookup _ _ _ Hm Hroom) as Hsz.
    case_match; [|done].
    apply capacity_insert; [done|]. simpl. by rewrite omap_size_alter.
Qed.

Lemma capacity_run Math_sqrt ops m :
  capacity_ok m → capacity_ok (run Math_sqrt ops m).
Proof.
  revert m. induction ops as [|o ops IH]; intros m Hm; simpl; [done|].
  apply IH. by apply capacity_exec.
Qed.

(** C4.  Whatever operations are applied to a new room manager, every
    room holds at most [MAX_PLAYERS] players; and a join on a room that
    already holds [MAX_PLAYERS] players returns no player and leaves the
    registry, hence that room's players, projectiles, state and timers,
    as it was. *)
Theorem capacity_never_exceeded (Math_sqrt : Q → Q) :
  (∀ ops : list Op,
     capacity_ok (run Math_sqrt ops RoomManager.constructor))
  ∧ (∀ (now : Z) (uuid roomId : string) (ws : WebSocket.t)
       (m : RoomManager.Manager) (room : Room.t),
       m !! roomId = Some room →
       OMap.size (Room.players room) = CONFIG.MAX_PLAYERS →
       RoomManager.addPlayer now uuid roomId ws m = (m, None)).
Proof.
  split.
  - intros ops. apply capacity_run. apply map_Forall_empty.
  - intros now uuid roomId ws m room Hroom Hfull.
    unfold RoomManager.addPlayer, RoomManager.getRoom.
    rewrite Hroom, Hfull. reflexivity.
Qed.

(** ** Departure *)

(** C8.  Removing one of the two players of a room whose state is
    [countdown] or [playing] leaves the room in state [waiting] with no
    projectiles, and the other player's record (score, position, rotation,
    characterId and all other fields) is the one it was. *)
Theorem removePlayer_aborts_match
    (roomId a b gone : string) (pa pb : Player.t)
    (m : RoomManager.Manager) (room : Room.t) :
  m !! roomId = Some room →
  Room.players room = [(a, pa); (b, pb)] →
  a ≠ b →
  Room.state room = playing ∨ Room.state room = countdown →
  gone = a ∨ gone = b →
  ∃ room',
    RoomManager.removePlayer roomId gone m !! roomId = Some room'
    ∧ Room.state room' = waiting
    ∧ Room.projectiles room' = []
    ∧ Room.players room' = (if String.eqb gone a then [(b, pb)] else [(a, pa)]).
Proof.
  intros Hroom Hps Hab Hst Hgone.
  unfold RoomManager.removePlayer. rewrite Hroom. simpl. rewrite Hps.
  assert (Hphase : Phase_eqb (Room.state room) playing
                   || Phase_eqb (Room.state room) countdown = true)
    by (destruct Hst as [-> | ->]; reflexivity).
  destruct Hgone as [-> | ->]; simpl.
  - rewrite eqb_refl_true. simpl. rewrite Hphase.
    eexists. rewrite lookup_insert_eq. split; [reflexivity|].
    simpl. rewrite stopTimers_players. simpl. by rewrite ?eqb_refl_true.
  - rewrite (eqb_neq_false b a) by congruence. rewrite eqb_refl_true.
    simpl. rewrite Hphase.
    eexists. rewrite lookup_insert_eq. split; [reflexivity|].
    simpl. rewrite stopTimers_players. simpl.
    by rewrite ?(eqb_neq_false b a) by congruence.
Qed.

(** ** Role assignment *)

(** The role of a joining player is a function of the number of players
    in the room at that moment. *)
Lemma addPlayer_role now uuid roomId ws m room player m' :
  m !! roomId = Some room →
  RoomManager.addPlayer now uuid roomId ws m = (m', Some player) →
  Player.characterId player
  = (if (OMap.size (Room.players room) =? 0)%nat
     then "cupid_prime" else "dark_cupid").
Proof.
  intros Hroom. unfold RoomManager.addPlayer, RoomManager.getRoom.
  rewrite Hroom. case_match; [done|]. by intros [= <- <-].
Qed.

(** The role, spawn abscissa and rotation of an accepted join, as a
    function of the number of players that the room holds when
    [addPlayer] is called (a missing room holds none). *)
Lemma addPlayer_role_of_count now uuid roomId ws m m' player :
  RoomManager.addPlayer now uuid roomId ws m = (m', Some player) →
  let present := OMap.size (Room.players (RoomManager.getRoom roomId m).2) in
  Player.characterId player
  = (if (present =? 0)%nat then "cupid_prime" else "dark_cupid")
  ∧ Player.x player
    = (if (present =? 0)%nat
       then (- CONFIG.PLAYER_SPAWN_OFFSET)%Q
       else CONFIG.PLAYER_SPAWN_OFFSET)
  ∧ Player.rotation player
    = (if (present =? 0)%nat then 0%Q else Math_PI).
Proof.
  unfold RoomManager.addPlayer.
  destruct (RoomManager.getRoom roomId m) as [m0 room]. cbn [snd].
  case_match; [done|]. by intros [= <- <-].
Qed.

(** The end state of the sequence join, join, departure of the first
    joiner, join. *)
Lemma rejoin_end_state
    (now1 now2 now3 : Z) (id1 id2 id3 roomId : string)
    (ws1 ws2 ws3 : WebSocket.t) (m : RoomManager.Manager) :
  m !! roomId = None →
  id1 ≠ id2 → id2 ≠ id3 →
  let m1 := (RoomManager.addPlayer now1 id1 roomId ws1 m).1 in
  let m2 := (RoomManager.addPlayer now2 id2 roomId ws2 m1).1 in
  let m3 := RoomManager.removePlayer roomId id1 m2 in
  let m4 := (RoomManager.addPlayer now3 id3 roomId ws3 m3).1 in
  ∃ room p2 p3,
    m4 !! roomId = Some room
    ∧ Room.players room = [(id2, p2); (id3, p3)]
    ∧ Player.characterId p2 = "dark_cupid"
    ∧ Player.characterId p3 = "dark_cupid"
    ∧ Player.x p2 = CONFIG.PLAYER_SPAWN_OFFSET
    ∧ Player.x p3 = CONFIG.PLAYER_SPAWN_OFFSET
    ∧ Player.rotation p2 = Math_PI
    ∧ Player.rotation p3 = Math_PI.
Proof.
  intros Hfresh H12 H23. simpl.
  unfold RoomManager.addPlayer at 3. unfold RoomManager.getRoom.
  rewrite Hfresh. simpl.
  unfold RoomManager.addPlayer at 2. unfold RoomManager.getRoom.
  rewrite lookup_insert_eq. simpl.
  unfold RoomManager.removePlayer. rewrite lookup_insert_eq. simpl.
  rewrite (eqb_neq_false id2 id1) by congruence. simpl.
  rewrite eqb_refl_true. simpl.
  unfold RoomManager.addPlayer, RoomManager.getRoom.
  rewrite lookup_insert_eq. simpl.
  rewrite (eqb_neq_false id3 id2) by congruence.
  eexists _, _, _. rewrite lookup_insert_eq.
  split; [reflexivity|]. simpl. repeat split; reflexivity.
Qed.

(** C10.  The role that [addPlayer] gives is determined by the number of
    players in the room at the moment of the join: every accepted join,
    on any registry, yields ['cupid_prime'] at [-PLAYER_SPAWN_OFFSET]
    facing 0 when the room holds no player and ['dark_cupid'] at
    [+PLAYER_SPAWN_OFFSET] facing [Math.PI] otherwise.  It is not
    determined by the order of the joins: on a room that does not exist
    yet, let a first and a second player join, the first one leave, and
    a third player join, the id drawn for the second player differing
    from those of the first and of the third.  The first joiner was
    given ['cupid_prime'], [-PLAYER_SPAWN_OFFSET] and rotation 0, and the
    two players then in the room both have characterId ['dark_cupid'],
    spawn abscissa [+PLAYER_SPAWN_OFFSET] and rotation [Math.PI]. *)
Theorem rejoin_duplicates_role
    (now1 now2 now3 : Z) (id1 id2 id3 roomId : string)
    (ws1 ws2 ws3 : WebSocket.t) (m : RoomManager.Manager) :
  m !! roomId = None →
  id1 ≠ id2 → id2 ≠ id3 →
  let m1 := (RoomManager.addPlayer now1 id1 roomId ws1 m).1 in
  let m2 := (RoomManager.addPlayer now2 id2 roomId ws2 m1).1 in
  let m3 := RoomManager.removePlayer roomId id1 m2 in
  let m4 := (RoomManager.addPlayer now3 id3 roomId ws3 m3).1 in
  (∀ now uuid r ws m0 m' player,
     RoomManager.addPlayer now uuid r ws m0 = (m', Some player) →
     let present := OMap.size (Room.players (RoomManager.getRoom r m0).2) in
     Player.characterId player
     = (if (present =? 0)%nat then "cupid_prime" else "dark_cupid")
     ∧ Player.x player
       = (if (present =? 0)%nat
          then (- CONFIG.PLAYER_SPAWN_OFFSET)%Q
          else CONFIG.PLAYER_SPAWN_OFFSET)
     ∧ Player.rotation player
       = (if (present =? 0)%nat then 0%Q else Math_PI))
  ∧ (∃ p1,
       (RoomManager.addPlayer now1 id1 roomId ws1 m).2 = Some p1
       ∧ Player.characterId p1 = "cupid_prime"
       ∧ Player.x p1 = (- CONFIG.PLAYER_SPAWN_OFFSET)%Q
       ∧ Player.rotation p1 = 0%Q)
  ∧ ∃ room p2 p3,
      m4 !! roomId = Some room
      ∧ Room.players room = [(id2, p2); (id3, p3)]
      ∧ Player.characterId p2 = "dark_cupid"
      ∧ Player.characterId p3 = "dark_cupid"
      ∧ Player.x p2 = CONFIG.PLAYER_SPAWN_OFFSET
      ∧ Player.x p3 = CONFIG.PLAYER_SPAWN_OFFSET
      ∧ Player.rotation p2 = Math_PI
      ∧ Player.rotation p3 = Math_PI.
Proof.
  intros Hfresh H12 H23. cbv zeta. split; [|split].
  - intros now uuid r ws m0 m' player.
    apply addPlayer_role_of_count.
  - unfold RoomManager.addPlayer, RoomManager.getRoom. rewrite Hfresh.
    eexists. split; [reflexivity|]. by cbn.
  - by apply rejoin_end_state.
Qed.

(** Closes a conjunction of closed equations by evaluation. *)
Ltac by_evaluation :=
  cbv zeta; repeat (apply conj); vm_compute; reflexivity.

(** ** Fire intents *)

Lemma Phase_eqb_eq a b : Phase_eqb a b = true ↔ a = b.
Proof. destruct a, b; simpl; split; congruence. Qed.

Section FireFacts.
Variable Math_sqrt : Q → Q.

Abbreviation fireProjectile := (RoomManager.fireProjectile Math_sqrt).

(** What an accepted fire did. *)
Lemma fireProjectile_accepted now uuid roomId playerId dirX dirZ m m' proj :
  fireProjectile now uuid roomId playerId dirX dirZ m = (m', Some proj) →
  ∃ room player,
    m !! roomId = Some room
    ∧ Room.state room = playing
    ∧ OMap.get playerId (Room.players room) = Some player
    ∧ CONFIG.FIRE_COOLDOWN ≤ now - Player.lastFireTime player
    ∧ m' = <[roomId := firedRoom now uuid playerId proj room]> m.
Proof.
  unfold RoomManager.fireProjectile.
  destruct (m !! roomId) as [room|] eqn:Hroom; [|done].
  destruct (Phase_eqb (Room.state room) playing) eqn:Hst; simpl; [|done].
  destruct (OMap.get playerId (Room.players room)) as [player|] eqn:Hp;
    [|done].
  case_match; [done|].
  destruct dirX as [dx| | | |], dirZ as [dz| | | |]; try done.
  destruct (Z.ltb_spec (now - Player.lastFireTime player)
                       CONFIG.FIRE_COOLDOWN); [done|].
  case_match; [done|].
  intros [= <- <-]. exists room, player.
  apply Phase_eqb_eq in Hst.
  repeat split; try done. by rewrite insert_insert_eq.
Qed.

(** What a rejected fire did: nothing, except when the direction was
    found degenerate, in which case the player's [lastFireTime] has
    already been set. *)
Lemma fireProjectile_rejected now uuid roomId playerId dirX dirZ m m' :
  fireProjectile now uuid roomId playerId dirX dirZ m = (m', None) →
  m' = m
  ∨ ∃ room dx dz,
      m !! roomId = Some room
      ∧ dirX = JNum dx ∧ dirZ = JNum dz
      ∧ Qltb (Math_sqrt (dx * dx + dz * dz)%Q) 0.01 = true
      ∧ m' = <[roomId := Room.with_players
                           (OMap.alter (Player.with_lastFireTime now)
                                       playerId (Room.players room))
                           room]> m.
Proof.
  unfold RoomManager.fireProjectile.
  destruct (m !! roomId) as [room|] eqn:Hroom; [|intros [= <-]; by left].
  repeat case_match; intros [= <-]; try (by left).
  right. subst. eauto 10.
Qed.

End FireFacts.

(** C2 (code defect).  A fire intent that is rejected because its
    direction is degenerate is not a no-op: in a playing room, player
    ["p1"] with [lastFireTime = 0] fires at time 1001000 with direction
    (0, 0); no projectile is created, yet the player's [lastFireTime]
    becomes 1001000, and a well-formed fire 100 ms later is rejected by
    the cooldown check. *)
Theorem degenerate_fire_sets_lastFireTime :
  let m :=
    Scenario.registry
      (Scenario.arena [("p1", Scenario.cupid 0 0); ("p2", Scenario.dark 0)]
                      [] 1000000) in
  let r1 :=
    RoomManager.fireProjectile sqrt_floor 1001000 "s1" "r1" "p1"
                               (JNum 0) (JNum 0) m in
  let r2 :=
    RoomManager.fireProjectile sqrt_floor 1001100 "s2" "r1" "p1"
                               (JNum 1) (JNum 0) r1.1 in
  r1.2 = None
  ∧ Scenario.lastFireTimeOf "p1" m = Some 0
  ∧ Scenario.lastFireTimeOf "p1" r1.1 = Some 1001000
  ∧ r1.1 ≠ m
  ∧ r2.2 = None.
Proof.
  simpl. split; [by vm_compute|]. split; [by vm_compute|].
  split; [by vm_compute|]. split; [|by vm_compute].
  intros Heq.
  apply (f_equal (Scenario.lastFireTimeOf "p1")) in Heq.
  vm_compute in Heq. discriminate.
Qed.

(** C9, as stated, fails: two fire intents 100 ms apart, both sent while
    the player is still cooling down from an earlier shot, add no
    projectile at all. *)
Lemma two_fires_in_cooldown_add_none :
  let m :=
    Scenario.registry
      (Scenario.arena
         [("p1", Scenario.cupid 0 1000900); ("p2", Scenario.dark 0)]
         [] 1000000) in
  let r1 :=
    RoomManager.fireProjectile sqrt_floor 1001000 "s1" "r1" "p1"
                               (JNum 1) (JNum 0) m in
  let r2 :=
    RoomManager.fireProjectile sqrt_floor 1001100 "s2" "r1" "p1"
                               (JNum 1) (JNum 0) r1.1 in
  Scenario.phaseOf m = Some playing
  ∧ 1001100 - 1001000 < CONFIG.FIRE_COOLDOWN
  ∧ r1.2 = None ∧ r2.2 = None
  ∧ Scenario.projectileIds m = Some []
  ∧ Scenario.projectileIds r2.1 = Some [].
Proof. by_evaluation. Qed.

(** C9, amended.  Of two successive fire intents of one player whose
    timestamps differ by less than [FIRE_COOLDOWN], at most one creates a
    projectile; and when the first one is accepted, the second one is
    rejected without effect, so that exactly the first projectile has
    been added to the room. *)
Theorem cooldown_admits_one_projectile
    (Math_sqrt : Q → Q) (now1 now2 : Z) (uuid1 uuid2 roomId playerId : string)
    (dirX1 dirZ1 dirX2 dirZ2 : jsval) (m : RoomManager.Manager) :
  now2 - now1 < CONFIG.FIRE_COOLDOWN →
  let r1 :=
    RoomManager.fireProjectile Math_sqrt now1 uuid1 roomId playerId
                               dirX1 dirZ1 m in
  let r2 :=
    RoomManager.fireProjectile Math_sqrt now2 uuid2 roomId playerId
                               dirX2 dirZ2 r1.1 in
  (r1.2 = None ∨ r2.2 = None)
  ∧ (∀ proj,
       r1.2 = Some proj →
       r2 = (r1.1, None)
       ∧ ∃ room room',
           m !! roomId = Some room
           ∧ r2.1 !! roomId = Some room'
           ∧ Room.projectiles room'
             = OMap.set uuid1 proj (Room.projectiles room)).
Proof.
  intros Hclose r1 r2.
  assert (Hsome : ∀ proj, r1.2 = Some proj →
            r2 = (r1.1, None)
            ∧ ∃ room room',
                m !! roomId = Some room
                ∧ r2.1 !! roomId = Some room'
                ∧ Room.projectiles room'
                  = OMap.set uuid1 proj (Room.projectiles room)).
  { intros proj Hproj. subst r2.
    destruct r1 as [m1 res] eqn:Hr1. simpl in Hproj. subst res. simpl.
    apply fireProjectile_accepted in Hr1
      as (room & player & Hroom & Hst & Hp & _ & ->).
    assert (Hsnd :
      RoomManager.fireProjectile Math_sqrt now2 uuid2 roomId playerId
        dirX2 dirZ2 (<[roomId := firedRoom now1 uuid1 playerId proj room]> m)
      = (<[roomId := firedRoom now1 uuid1 playerId proj room]> m, None)).
    { unfold RoomManager.fireProjectile. rewrite lookup_insert_eq. simpl.
      rewrite Hst. simpl.
      rewrite omap_get_alter, eqb_refl_true, Hp. simpl.
      case_match; [done|].
      destruct dirX2, dirZ2; try done.
      destruct (Z.ltb_spec (now2 - now1) CONFIG.FIRE_COOLDOWN); [done|lia]. }
    rewrite Hsnd. split; [done|].
    exists room, (firedRoom now1 uuid1 playerId proj room). simpl.
    by rewrite lookup_insert_eq. }
  split; [|exact Hsome].
  destruct (r1.2) as [proj|] eqn:Hres; [|by left].
  right. destruct (Hsome proj eq_refl) as [-> _]. done.
Qed.

(** ** One simulation step in closed form *)

Lemma samePose_refl ps : samePose ps ps.
Proof. unfold samePose. induction ps; constructor; auto. Qed.

Lemma samePose_alter_incScore ps0 ps k :
  samePose ps0 ps → samePose ps0 (OMap.alter RoomManager.incScore k ps).
Proof.
  unfold samePose. induction 1 as [|[k0 p0] [k1 p1] ps0 ps Hhd Htl IH]; simpl.
  - constructor.
  - destruct (String.eqb k k1); constructor; auto.
Qed.

Lemma omap_alter_elem {V} (f : V → V) k (m : OMap.t V) kv :
  kv ∈ OMap.alter f k m →
  kv ∈ m ∨ ∃ v, OMap.get k m = Some v ∧ kv.2 = f v.
Proof.
  induction m as [|[k0 v0] m IH]; simpl; [by left|].
  destruct (String.eqb_spec k k0) as [->|Hne].
  - intros [->|H]%elem_of_cons; [right; eauto | left; by right].
  - intros [->|H]%elem_of_cons; [left; left|].
    destruct (IH H) as [?|?]; [left; by right | by right].
Qed.

Lemma omap_get_advanced k (m : OMap.t Projectile.t) :
  OMap.get k (advanced <$> m) = RoomManager.advance <$> OMap.get k m.
Proof.
  induction m as [|[k0 v0] m IH]; simpl; [done|].
  by destruct (String.eqb k k0).
Qed.

Lemma omap_keys_advanced (m : OMap.t Projectile.t) :
  OMap.keys (advanced <$> m) = OMap.keys m.
Proof.
  unfold OMap.keys. rewrite <- list_fmap_compose. by apply list_fmap_ext.
Qed.

Lemma removeExpired_wf ids m :
  OMap.wf m → OMap.wf (RoomManager.removeExpired ids m).
Proof.
  revert m. induction ids as [|id ids IH]; intros m Hwf; simpl; [done|].
  by apply IH, omap_wf_delete.
Qed.

Lemma removeExpired_keys_subset ids m k :
  k ∈ OMap.keys (RoomManager.removeExpired ids m) → k ∈ OMap.keys m.
Proof.
  revert m. induction ids as [|id ids IH]; intros m; simpl; [done|].
  intros H. by eapply omap_keys_delete_subset, IH.
Qed.

(** An expired id is no longer a key of the map. *)
Lemma removeExpired_removes ids m k :
  OMap.wf m → k ∈ ids → k ∉ OMap.keys (RoomManager.removeExpired ids m).
Proof.
  revert m. induction ids as [|id ids IH]; intros m Hwf Hk; simpl.
  - by apply elem_of_nil in Hk.
  - apply elem_of_cons in Hk as [->|Hk].
    + intros H. apply removeExpired_keys_subset in H.
      by apply (omap_delete_not_in id m).
    + apply IH; [by apply omap_wf_delete | done].
Qed.

(** The entry of an id that did not expire is kept as it is. *)
Lemma removeExpired_keeps ids m k :
  k ∉ ids →
  OMap.get k (RoomManager.removeExpired ids m) = OMap.get k m.
Proof.
  revert m. induction ids as [|id ids IH]; intros m Hk; simpl; [done|].
  apply not_elem_of_cons in Hk as [Hne Hk].
  rewrite IH by done. apply omap_get_delete_ne. congruence.
Qed.

Section StepFacts.
Variable Math_sqrt : Q → Q.

Abbreviation hitLoop' := (RoomManager.hitLoop Math_sqrt).
Abbreviation stepProjectile' := (RoomManager.stepProjectile Math_sqrt).
Abbreviation projectileLoop' := (RoomManager.projectileLoop Math_sqrt).

Lemma hitLoop_firstTarget ps projId proj st :
  hitLoop' ps projId proj st
  = match firstTarget Math_sqrt ps proj with
    | Some target => RoomManager.registerHit target projId proj st
    | None => st
    end.
Proof.
  induction ps as [|[pid p] ps IH]; simpl; [done|].
  destruct (String.eqb pid (Projectile.ownerId proj)); [exact IH|].
  by destruct (RoomManager.collides Math_sqrt proj p).
Qed.

Lemma firstTarget_samePose ps ps' proj :
  samePose ps ps' →
  firstTarget Math_sqrt ps proj = firstTarget Math_sqrt ps' proj.
Proof.
  unfold samePose.
  induction 1 as [|[k0 p0] [k1 p1] ps ps' (Hk & Hx & Hz) Htl IH]; simpl;
    [done|].
  simpl in Hk, Hx, Hz. subst k1. rewrite IH.
  unfold RoomManager.collides. by rewrite Hx, Hz.
Qed.

(** The effect of a registered hit on the local state of [tick]. *)
Lemma registerHit_effect ps0 target projId proj st :
  samePose ps0 (RoomManager.ts_players st) →
  let st' := RoomManager.registerHit target projId proj st in
  RoomManager.ts_moved st' = RoomManager.ts_moved st
  ∧ RoomManager.ts_hits st'
    = RoomManager.ts_hits st
      ++ [Hit.mk projId (Projectile.ownerId proj) target
                 (Projectile.x proj) (Projectile.z proj)]
  ∧ RoomManager.ts_expired st' = RoomManager.ts_expired st ++ [projId]
  ∧ samePose ps0 (RoomManager.ts_players st').
Proof.
  intros Hpose. unfold RoomManager.registerHit.
  destruct (OMap.get (Projectile.ownerId proj) (RoomManager.ts_players st));
    simpl; repeat case_match; simpl; repeat split;
    auto using samePose_alter_incScore.
Qed.

(** A hit by a projectile whose owner is not in the room changes neither
    the players nor the state. *)
Lemma registerHit_orphan target projId proj st :
  OMap.get (Projectile.ownerId proj) (RoomManager.ts_players st) = None →
  let st' := RoomManager.registerHit target projId proj st in
  RoomManager.ts_players st' = RoomManager.ts_players st
  ∧ RoomManager.ts_state st' = RoomManager.ts_state st.
Proof.
  intros Hnone. unfold RoomManager.registerHit. rewrite Hnone. simpl.
  by rewrite Hnone.
Qed.

Lemma registerHit_winInv target projId proj st :
  winInv st → winInv (RoomManager.registerHit target projId proj st).
Proof.
  unfold winInv, RoomManager.registerHit. intros Hinv.
  destruct (OMap.get (Projectile.ownerId proj) (RoomManager.ts_players st))
    as [shooter|] eqn:Hshooter; simpl.
  - rewrite omap_get_alter, eqb_refl_true, Hshooter. simpl.
    destruct (Z.leb_spec CONFIG.WIN_SCORE (Player.score shooter + 1));
      simpl; [by left|].
    destruct Hinv as [Hended|Hbelow]; [by left | right].
    unfold belowWin in *. rewrite Forall_forall in Hbelow |- *.
    intros kp Hkp. apply omap_alter_elem in Hkp as [Hkp|(v & Hv & ->)].
    + by apply Hbelow.
    + rewrite Hshooter in Hv. injection Hv as <-. simpl. lia.
  - rewrite Hshooter. simpl. exact Hinv.
Qed.

(** One iteration of the outer loop. *)
Lemma stepProjectile_effect ps0 now projId proj st :
  samePose ps0 (RoomManager.ts_players st) →
  let st' := stepProjectile' now projId proj st in
  RoomManager.ts_moved st'
  = RoomManager.ts_moved st ++ [advanced (projId, proj)]
  ∧ RoomManager.ts_hits st'
    = RoomManager.ts_hits st
      ++ option_list (hitOf Math_sqrt now ps0 (projId, proj))
  ∧ RoomManager.ts_expired st'
    = RoomManager.ts_expired st
      ++ option_list (expiredId Math_sqrt now ps0 (projId, proj))
  ∧ samePose ps0 (RoomManager.ts_players st').
Proof.
  intros Hpose. unfold RoomManager.stepProjectile, hitOf, expiredId, expires.
  simpl.
  destruct (RoomManager.outOfBounds (RoomManager.advance proj)); simpl.
  { by rewrite app_nil_r. }
  destruct (RoomManager.lifetimeExpired now (RoomManager.advance proj)); simpl.
  { by rewrite app_nil_r. }
  rewrite hitLoop_firstTarget. simpl.
  rewrite <- (firstTarget_samePose _ _ _ Hpose).
  destruct (firstTarget Math_sqrt ps0 (RoomManager.advance proj))
    as [target|]; simpl.
  - apply (registerHit_effect ps0 target projId (RoomManager.advance proj)
             (RoomManager.tick_moved projId (RoomManager.advance proj) st)).
    exact Hpose.
  - by rewrite !app_nil_r.
Qed.

Lemma stepProjectile_winInv now projId proj st :
  winInv st → winInv (stepProjectile' now projId proj st).
Proof.
  intros Hinv. unfold RoomManager.stepProjectile.
  repeat case_match; try exact Hinv.
  rewrite hitLoop_firstTarget. case_match; [|exact Hinv].
  by apply registerHit_winInv.
Qed.

(** The whole outer loop. *)
Lemma projectileLoop_effect ps0 now projs st :
  samePose ps0 (RoomManager.ts_players st) →
  let st' := projectileLoop' now projs st in
  RoomManager.ts_moved st' = RoomManager.ts_moved st ++ (advanced <$> projs)
  ∧ RoomManager.ts_hits st'
    = RoomManager.ts_hits st ++ omap (hitOf Math_sqrt now ps0) projs
  ∧ RoomManager.ts_expired st'
    = RoomManager.ts_expired st ++ omap (expiredId Math_sqrt now ps0) projs
  ∧ samePose ps0 (RoomManager.ts_players st').
Proof.
  revert st. induction projs as [|[projId proj] projs IH]; intros st Hpose.
  - simpl. by rewrite !app_nil_r.
  - destruct (stepProjectile_effect ps0 now projId proj st Hpose)
      as (Hm & Hh & He & Hp).
    destruct (IH _ Hp) as (Hm' & Hh' & He' & Hp').
    cbn [RoomManager.projectileLoop]. cbv zeta in *.
    rewrite Hm', Hh', He', Hm, Hh, He.
    rewrite <- !app_assoc. repeat split; try done.
    + cbn [omap list_omap].
      by destruct (hitOf Math_sqrt now ps0 (projId, proj)).
    + cbn [omap list_omap].
      by destruct (expiredId Math_sqrt now ps0 (projId, proj)).
Qed.

Lemma projectileLoop_winInv now projs st :
  winInv st → winInv (projectileLoop' now projs st).
Proof.
  revert st. induction projs as [|[projId proj] projs IH]; intros st Hinv;
    simpl; [done|].
  by apply IH, stepProjectile_winInv.
Qed.

(** The loop changes the state only by setting it to [ended]. *)
Lemma registerHit_state target projId proj st :
  let st' := RoomManager.registerHit target projId proj st in
  RoomManager.ts_state st' = ended
  ∨ RoomManager.ts_state st' = RoomManager.ts_state st.
Proof.
  unfold RoomManager.registerHit.
  destruct (OMap.get (Projectile.ownerId proj) (RoomManager.ts_players st));
    simpl; repeat case_match; simpl; auto.
Qed.

Lemma stepProjectile_state now projId proj st :
  let st' := stepProjectile' now projId proj st in
  RoomManager.ts_state st' = ended
  ∨ RoomManager.ts_state st' = RoomManager.ts_state st.
Proof.
  unfold RoomManager.stepProjectile. repeat case_match; simpl; auto.
  rewrite hitLoop_firstTarget. case_match; simpl; auto.
  apply (registerHit_state _ _ _
           (RoomManager.tick_moved projId (RoomManager.advance proj) st)).
Qed.

Lemma projectileLoop_state now projs st :
  let st' := projectileLoop' now projs st in
  RoomManager.ts_state st' = ended
  ∨ RoomManager.ts_state st' = RoomManager.ts_state st.
Proof.
  revert st. induction projs as [|[projId proj] projs IH]; intros st; simpl;
    [by right|].
  destruct (IH (stepProjectile' now projId proj st)) as [H|H]; [by left|].
  destruct (stepProjectile_state now projId proj st) as [H'|H'];
    simpl in *; [left | right]; congruence.
Qed.

End StepFacts.

(** ** The simulation step of a playing room *)

Section TickSpec.
Variable Math_sqrt : Q → Q.

Abbreviation tick' := (RoomManager.tick Math_sqrt).

(** [tick] on a playing room, with the loops in closed form. *)
Lemma tick_playing now roomId m room :
  m !! roomId = Some room →
  Room.state room = playing →
  ∃ ps' s',
    samePose (Room.players room) ps'
    ∧ (s' = ended
       ∨ (s' = playing ∧ (belowWin (Room.players room) → belowWin ps')))
    ∧ tick' now roomId m
      = (<[roomId := steppedRoom Math_sqrt now room ps' s']> m,
         omap (hitOf Math_sqrt now (Room.players room))
              (Room.projectiles room)).
Proof.
  intros Hroom Hst. unfold RoomManager.tick. rewrite Hroom, Hst. simpl.
  set (st0 := RoomManager.mkTick (Room.players room) playing [] [] []).
  destruct (projectileLoop_effect Math_sqrt (Room.players room) now
              (Room.projectiles room) st0 (samePose_refl _))
    as (Hm & Hh & He & Hp).
  cbv zeta in Hm, Hh, He, Hp. simpl in Hm, Hh, He.
  exists (RoomManager.ts_players
            (RoomManager.projectileLoop Math_sqrt now
               (Room.projectiles room) st0)),
         (RoomManager.ts_state
            (RoomManager.projectileLoop Math_sqrt now
               (Room.projectiles room) st0)).
  split; [exact Hp|]. split.
  - destruct (projectileLoop_state Math_sqrt now (Room.projectiles room) st0)
      as [H|H]; simpl in H; [by left|].
    right. split; [exact H|]. intros Hbelow.
    destruct (projectileLoop_winInv Math_sqrt now (Room.projectiles room) st0)
      as [H'|H']; [by right | congruence | exact H'].
  - unfold steppedRoom. rewrite Hm, Hh, He. reflexivity.
Qed.

End TickSpec.

(** ** Winning and the reported reason *)

Lemma belowWin_not_reached ps : belowWin ps → reachedWin ps → False.
Proof.
  unfold belowWin, reachedWin. rewrite Forall_forall, Exists_exists.
  intros Hbelow (kp & Hin & Hge). specialize (Hbelow kp Hin). lia.
Qed.

Lemma updateTimer_ended now room :
  Room.state room = ended →
  Room.state (RoomManager.updateTimer now room) = ended.
Proof.
  intros Hst. unfold RoomManager.updateTimer.
  repeat case_match; simpl; done.
Qed.

Lemma updateTimer_timeRemaining now room startTime :
  Room.startTime room = Some startTime → startTime ≠ 0 →
  Room.timeRemaining (RoomManager.updateTimer now room)
  = Qmax 0 (CONFIG.MATCH_DURATION - inject_Z (now - startTime) / 1000).
Proof.
  intros Hstart Hnz. unfold RoomManager.updateTimer, RoomManager.truthyTime.
  rewrite Hstart. destruct (Z.eqb_spec startTime 0); [done|].
  by case_match.
Qed.

(** The reason reported by [getMatchResults] is read off the room's
    [timeRemaining]. *)
Lemma getMatchResults_reason roomId m room :
  m !! roomId = Some room →
  ∃ res,
    RoomManager.getMatchResults roomId m = Some res
    ∧ Results.reason res
      = (if Qleb (Room.timeRemaining room) 0 then "timeout" else "score").
Proof.
  intros Hroom. unfold RoomManager.getMatchResults. rewrite Hroom.
  destruct (RoomManager.resultsLoop (Room.players room) ([], None, -1))
    as [[players winnerId] highScore].
  eexists. split; reflexivity.
Qed.

Lemma Qleb_true_iff a b : Qleb a b = true ↔ (a <= b)%Q.
Proof. apply Qle_bool_iff. Qed.

Lemma Qleb_false_iff a b : Qleb a b = false ↔ (b < a)%Q.
Proof.
  rewrite <- not_true_iff_false, Qleb_true_iff.
  split; [apply Qnot_le_lt | apply Qlt_not_le].
Qed.

(** C3, as stated, fails: on the step below, a hit raises the score of
    ["p1"] from 9 to [WIN_SCORE], the win check of the collision loop sets
    the state to [ended], the clock of the match runs out on the same
    step, and the reason reported for that ending is ["timeout"]. *)
Lemma win_on_last_step_reports_timeout :
  let room :=
    Scenario.arena [("p1", Scenario.cupid 9 0); ("p2", Scenario.dark 0)]
                   [("a1", Scenario.winning_shot "p1" 1179900)] 1000000 in
  let m := Scenario.registry room in
  let loop :=
    RoomManager.projectileLoop sqrt_floor 1180000 (Room.projectiles room)
      (RoomManager.mkTick (Room.players room) (Room.state room) [] [] []) in
  let m' := (RoomManager.tick sqrt_floor 1180000 "r1" m).1 in
  Scenario.phaseOf m = Some playing
  ∧ Scenario.scoreOf "p1" m = Some 9
  ∧ Scenario.scoreOf "p2" m = Some 0
  ∧ RoomManager.ts_state loop = ended
  ∧ Scenario.scoreOf "p1" m' = Some CONFIG.WIN_SCORE
  ∧ Scenario.phaseOf m' = Some ended
  ∧ Scenario.reasonOf m' = Some "timeout".
Proof. by_evaluation. Qed.

(** C3, amended.  On a step of a playing room in which some player's
    score first reaches [WIN_SCORE], the state is [ended] after that same
    step.  The reason reported for the room after the step is ["timeout"]
    exactly when its [timeRemaining] is not positive, and ["score"]
    otherwise: it is ["score"] when less than [MATCH_DURATION] seconds have
    elapsed since [startTime], and ["timeout"] when the clock has run out,
    whichever of the two set the state. *)
Theorem win_ends_match_on_same_step
    (Math_sqrt : Q → Q) (now : Z) (roomId : string)
    (m : RoomManager.Manager) (room : Room.t) :
  m !! roomId = Some room →
  Room.state room = playing →
  belowWin (Room.players room) →
  let m' := (RoomManager.tick Math_sqrt now roomId m).1 in
  ∃ room' res,
    m' !! roomId = Some room'
    ∧ RoomManager.getMatchResults roomId m' = Some res
    ∧ (reachedWin (Room.players room') → Room.state room' = ended)
    ∧ (Results.reason res = "timeout" ↔ (Room.timeRemaining room' <= 0)%Q)
    ∧ (Results.reason res = "score" ↔ (0 < Room.timeRemaining room')%Q)
    ∧ (∀ startTime,
         Room.startTime room = Some startTime → startTime ≠ 0 →
         ((inject_Z (now - startTime) / 1000 < CONFIG.MATCH_DURATION)%Q →
          Results.reason res = "score")
         ∧ ((CONFIG.MATCH_DURATION <= inject_Z (now - startTime) / 1000)%Q →
            Results.reason res = "timeout")).
Proof.
  intros Hroom Hst Hbelow m'. subst m'.
  destruct (tick_playing Math_sqrt now roomId m room Hroom Hst)
    as (ps' & s' & Hpose & Hs' & ->). simpl.
  set (room' := steppedRoom Math_sqrt now room ps' s').
  destruct (getMatchResults_reason roomId (<[roomId := room']> m) room')
    as (res & Hres & Hreason); [by rewrite lookup_insert_eq|].
  exists room', res. rewrite lookup_insert_eq.
  split; [done|]. split; [done|].
  assert (Htimeout :
    Results.reason res = "timeout" ↔ (Room.timeRemaining room' <= 0)%Q).
  { rewrite Hreason, <- Qleb_true_iff.
    destruct (Qleb (Room.timeRemaining room') 0); split; done. }
  assert (Hscore :
    Results.reason res = "score" ↔ (0 < Room.timeRemaining room')%Q).
  { rewrite Hreason, <- Qleb_false_iff.
    destruct (Qleb (Room.timeRemaining room') 0); split; done. }
  split; [|split; [exact Htimeout|split; [exact Hscore|]]].
  - intros Hwin. subst room'. unfold steppedRoom in *.
    rewrite updateTimer_players in Hwin. simpl in Hwin.
    apply updateTimer_ended. simpl.
    destruct Hs' as [->|[_ Hkeep]]; [done|].
    exfalso. eapply belowWin_not_reached; [apply Hkeep, Hbelow | exact Hwin].
  - intros startTime Hstart Hnz.
    assert (Htr : Room.timeRemaining room'
                  = Qmax 0 (CONFIG.MATCH_DURATION
                            - inject_Z (now - startTime) / 1000)).
    { subst room'. unfold steppedRoom.
      by apply updateTimer_timeRemaining. }
    split; intros Helapsed.
    + apply Hscore. rewrite Htr.
      eapply Qlt_le_trans; [|apply Q.le_max_r].
      by apply (Qlt_minus_iff (inject_Z (now - startTime) / 1000)
                              CONFIG.MATCH_DURATION).
    + apply Htimeout. rewrite Htr.
      apply Q.max_lub; [apply Qle_refl|].
      apply (Qplus_le_l _ _ (inject_Z (now - startTime) / 1000)).
      ring_simplify. exact Helapsed.
Qed.

(** ** Projectiles across phase changes *)

(** C1, as stated, fails: on the step below the first projectile scores
    the winning hit, the state goes from [playing] to [ended], and the
    second projectile is still in the room's projectiles map. *)
Lemma tick_to_ended_keeps_projectiles :
  let m :=
    Scenario.registry
      (Scenario.arena
         [("p1", Scenario.cupid 9 0); ("p2", Scenario.dark 0)]
         [("a1", Scenario.winning_shot "p1" 1000900);
          ("a2", Scenario.stray_shot)]
         1000000) in
  let m' := (RoomManager.tick sqrt_floor 1001000 "r1" m).1 in
  Scenario.phaseOf m = Some playing
  ∧ Scenario.phaseOf m' = Some ended
  ∧ Scenario.projectileIds m' = Some ["a2"].
Proof. by_evaluation. Qed.

Lemma omap_wf_unique {V} (m : OMap.t V) k v v' :
  OMap.wf m → (k, v) ∈ m → (k, v') ∈ m → v = v'.
Proof.
  intros Hwf H H'. apply (omap_In_get _ _ _ Hwf) in H, H'. congruence.
Qed.

(** C1, amended.  The projectiles map is emptied when a departure aborts
    a match (state [playing] or [countdown]) in a room that keeps a
    player, the state becoming [waiting], and when a rematch is accepted
    (from [ended] to [waiting]).  A step of a playing room, whether or not
    it sets the state to [ended], removes only the projectiles that
    expire on that step: a projectile that stays in bounds, within its
    lifetime and away from every other player is still in the map, at its
    advanced position. *)
Theorem projectiles_cleared_on_departure_and_rematch
    (Math_sqrt : Q → Q) (roomId : string) (m : RoomManager.Manager) :
  (∀ playerId room room',
     m !! roomId = Some room →
     Room.state room = playing ∨ Room.state room = countdown →
     RoomManager.removePlayer roomId playerId m !! roomId = Some room' →
     Room.state room' = waiting ∧ Room.projectiles room' = [])
  ∧ (∀ m',
       RoomManager.handleRematch roomId m = (m', true) →
       ∃ room room',
         m !! roomId = Some room ∧ Room.state room = ended
         ∧ m' !! roomId = Some room'
         ∧ Room.state room' = waiting ∧ Room.projectiles room' = [])
  ∧ (∀ now room projId proj,
       m !! roomId = Some room →
       Room.state room = playing →
       OMap.wf (Room.projectiles room) →
       (projId, proj) ∈ Room.projectiles room →
       expires Math_sqrt now (Room.players room) (projId, proj) = false →
       ∃ room',
         (RoomManager.tick Math_sqrt now roomId m).1 !! roomId = Some room'
         ∧ OMap.get projId (Room.projectiles room')
           = Some (RoomManager.advance proj)).
Proof.
  split; [|split].
  - intros playerId room room' Hroom Hst.
    unfold RoomManager.removePlayer. rewrite Hroom. simpl.
    assert (Hphase : Phase_eqb (Room.state room) playing
                     || Phase_eqb (Room.state room) countdown = true)
      by (destruct Hst as [-> | ->]; reflexivity).
    rewrite Hphase. case_match.
    + by rewrite lookup_delete_eq.
    + rewrite lookup_insert_eq. by intros [= <-].
  - intros m'. unfold RoomManager.handleRematch.
    destruct (m !! roomId) as [room|] eqn:Hroom; [|done].
    destruct (Phase_eqb (Room.state room) ended) eqn:Hst; simpl; [|done].
    intros [= <-]. apply Phase_eqb_eq in Hst.
    eexists _, _. rewrite lookup_insert_eq. by repeat split.
  - intros now room projId proj Hroom Hst Hwf Hin Hkeep.
    destruct (tick_playing Math_sqrt now roomId m room Hroom Hst)
      as (ps' & s' & _ & _ & ->). simpl.
    eexists. rewrite lookup_insert_eq. split; [reflexivity|].
    unfold steppedRoom, RoomManager.updateTimer. simpl.
    assert (Hget :
      OMap.get projId
        (RoomManager.removeExpired
           (omap (expiredId Math_sqrt now (Room.players room))
                 (Room.projectiles room))
           (advanced <$> Room.projectiles room))
      = Some (RoomManager.advance proj)).
    { rewrite removeExpired_keeps.
      - rewrite omap_get_advanced. by rewrite (omap_In_get _ _ _ Hwf Hin).
      - intros Hexp. apply list_elem_of_omap in Hexp as ([k p] & Hin' & Hexp).
        unfold expiredId in Hexp.
        destruct (expires Math_sqrt now (Room.players room) (k, p)) eqn:He;
          [|done].
        simpl in Hexp. injection Hexp as ->.
        rewrite (omap_wf_unique _ _ _ _ Hwf Hin Hin') in Hkeep. congruence. }
    repeat case_match; simpl; exact Hget.
Qed.

(** ** Projectiles whose owner has left *)

Section Orphans.
Variable Math_sqrt : Q → Q.

Lemma projectileLoop_app now l1 l2 st :
  RoomManager.projectileLoop Math_sqrt now (l1 ++ l2) st
  = RoomManager.projectileLoop Math_sqrt now l2
      (RoomManager.projectileLoop Math_sqrt now l1 st).
Proof.
  revert st. induction l1 as [|[projId proj] l1 IH]; intros st; simpl;
    [done|]. apply IH.
Qed.

(** The players and state produced by the loop depend only on the
    players and state it starts from. *)
Lemma registerHit_core target projId proj st1 st2 :
  sameCore st1 st2 →
  sameCore (RoomManager.registerHit target projId proj st1)
           (RoomManager.registerHit target projId proj st2).
Proof.
  destruct st1, st2. unfold sameCore. simpl. intros [-> ->].
  unfold RoomManager.registerHit. simpl.
  destruct (OMap.get (Projectile.ownerId proj) ts_players0); simpl;
    repeat case_match; simpl; done.
Qed.

Lemma stepProjectile_core now projId proj st1 st2 :
  sameCore st1 st2 →
  sameCore (RoomManager.stepProjectile Math_sqrt now projId proj st1)
           (RoomManager.stepProjectile Math_sqrt now projId proj st2).
Proof.
  intros Hcore. unfold RoomManager.stepProjectile.
  destruct (RoomManager.outOfBounds (RoomManager.advance proj)); [exact Hcore|].
  destruct (RoomManager.lifetimeExpired now (RoomManager.advance proj));
    [exact Hcore|].
  rewrite !hitLoop_firstTarget. simpl.
  destruct Hcore as [Hps Hst]. rewrite Hps.
  case_match; [|by split].
  apply registerHit_core. by split.
Qed.

Lemma projectileLoop_core now projs st1 st2 :
  sameCore st1 st2 →
  sameCore (RoomManager.projectileLoop Math_sqrt now projs st1)
           (RoomManager.projectileLoop Math_sqrt now projs st2).
Proof.
  revert st1 st2. induction projs as [|[projId proj] projs IH];
    intros st1 st2 Hcore; simpl; [done|].
  by apply IH, stepProjectile_core.
Qed.

(** Processing a projectile whose owner is not in the room leaves the
    players and the state as they are. *)
Lemma stepProjectile_orphan now projId proj st :
  OMap.get (Projectile.ownerId proj) (RoomManager.ts_players st) = None →
  sameCore (RoomManager.stepProjectile Math_sqrt now projId proj st) st.
Proof.
  intros Hnone. unfold RoomManager.stepProjectile.
  destruct (RoomManager.outOfBounds (RoomManager.advance proj)); [by split|].
  destruct (RoomManager.lifetimeExpired now (RoomManager.advance proj));
    [by split|].
  rewrite hitLoop_firstTarget. case_match; [|by split].
  apply (registerHit_orphan _ projId (RoomManager.advance proj)
           (RoomManager.tick_moved projId (RoomManager.advance proj) st)).
  exact Hnone.
Qed.

Lemma projectileLoop_orphan now pre projId proj post st :
  OMap.get (Projectile.ownerId proj) (RoomManager.ts_players st) = None →
  sameCore
    (RoomManager.projectileLoop Math_sqrt now (pre ++ (projId, proj) :: post) st)
    (RoomManager.projectileLoop Math_sqrt now (pre ++ post) st).
Proof.
  intros Hnone. rewrite !projectileLoop_app. simpl.
  apply projectileLoop_core, stepProjectile_orphan.
  apply omap_get_None_keys. rewrite projectileLoop_keys.
  by apply omap_get_None_keys.
Qed.

Lemma updateTimer_core now room1 room2 :
  Room.state room1 = Room.state room2 →
  Room.startTime room1 = Room.startTime room2 →
  Room.state (RoomManager.updateTimer now room1)
  = Room.state (RoomManager.updateTimer now room2).
Proof.
  intros Hst Hstart. unfold RoomManager.updateTimer. rewrite Hstart.
  destruct (RoomManager.truthyTime (Room.startTime room2)); [|exact Hst].
  simpl. rewrite Hst. by repeat case_match.
Qed.

End Orphans.

(** C6.  In a step of a playing room, let a projectile whose owner is not
    among the room's players stay in bounds and within its lifetime after
    being advanced, and be within hit distance of some player, [target]
    being the first such player.  Then the step returns the hit record
    [{projectileId, shooterId, targetId, x, z}] of that collision and
    removes the projectile from the room; and that hit increments no
    score and sets no state: the players and the state after the step are
    those that the same step yields when the projectile is not there. *)
Theorem orphan_hit_is_reported_but_not_scored
    (Math_sqrt : Q → Q) (now : Z) (roomId : string)
    (m : RoomManager.Manager) (room : Room.t)
    (pre post : OMap.t Projectile.t) (projId : string)
    (proj : Projectile.t) (target : string) :
  m !! roomId = Some room →
  Room.state room = playing →
  Room.projectiles room = pre ++ (projId, proj) :: post →
  OMap.wf (Room.projectiles room) →
  OMap.get (Projectile.ownerId proj) (Room.players room) = None →
  RoomManager.outOfBounds (RoomManager.advance proj) = false →
  RoomManager.lifetimeExpired now (RoomManager.advance proj) = false →
  firstTarget Math_sqrt (Room.players room) (RoomManager.advance proj)
  = Some target →
  let r := RoomManager.tick Math_sqrt now roomId m in
  let r0 :=
    RoomManager.tick Math_sqrt now roomId
      (<[roomId := Room.with_projectiles (pre ++ post) room]> m) in
  ∃ room' room0',
    r.1 !! roomId = Some room'
    ∧ r0.1 !! roomId = Some room0'
    ∧ (Hit.mk projId (Projectile.ownerId proj) target
              (Projectile.x (RoomManager.advance proj))
              (Projectile.z (RoomManager.advance proj))) ∈ r.2
    ∧ (projId ∉ OMap.keys (Room.projectiles room'))
    ∧ Room.players room' = Room.players room0'
    ∧ Room.state room' = Room.state room0'.
Proof.
  intros Hroom Hst Hprojs Hwf Horphan Hin Hlive Htarget r r0.
  assert (Hmem : (projId, proj) ∈ Room.projectiles room).
  { rewrite Hprojs. apply elem_of_app. right. left. }
  assert (Hcore :
    sameCore
      (RoomManager.projectileLoop Math_sqrt now (Room.projectiles room)
         (RoomManager.mkTick (Room.players room) playing [] [] []))
      (RoomManager.projectileLoop Math_sqrt now (pre ++ post)
         (RoomManager.mkTick (Room.players room) playing [] [] []))).
  { rewrite Hprojs. by apply projectileLoop_orphan. }
  destruct Hcore as [Hps Hstate].
  (* the step with the projectile *)
  destruct (tick_playing Math_sqrt now roomId m room Hroom Hst)
    as (ps' & s' & _ & _ & Hr).
  assert (Hhit : (Hit.mk projId (Projectile.ownerId proj) target
             (Projectile.x (RoomManager.advance proj))
             (Projectile.z (RoomManager.advance proj))) ∈ r.2).
  { subst r. rewrite Hr. simpl. apply list_elem_of_omap.
    exists (projId, proj). split; [exact Hmem|].
    unfold hitOf. simpl. by rewrite Hin, Hlive, Htarget. }
  assert (Hgone : ∀ psx sx,
            projId ∉ OMap.keys
              (Room.projectiles (steppedRoom Math_sqrt now room psx sx))).
  { intros psx sx. unfold steppedRoom.
    assert (Hk : projId ∉ OMap.keys
              (RoomManager.removeExpired
                 (omap (expiredId Math_sqrt now (Room.players room))
                       (Room.projectiles room))
                 (advanced <$> Room.projectiles room))).
    { apply removeExpired_removes.
      - unfold OMap.wf. by rewrite omap_keys_advanced.
      - apply list_elem_of_omap. exists (projId, proj).
        split; [exact Hmem|]. unfold expiredId, expires. simpl.
        by rewrite Hin, Hlive, Htarget. }
    unfold RoomManager.updateTimer. repeat case_match; exact Hk. }
  (* both steps, unfolded *)
  subst r r0. unfold RoomManager.tick in *.
  rewrite lookup_insert_eq. rewrite Hroom in *. simpl.
  rewrite Hst in *. simpl in *.
  eexists _, _. rewrite !lookup_insert_eq.
  split; [reflexivity|]. split; [reflexivity|].
  split; [exact Hhit|].
  split; [|split].
  - injection Hr as Hr _. apply (f_equal (λ m, m !! roomId)) in Hr.
    rewrite !lookup_insert_eq in Hr. injection Hr as Hr. rewrite Hr.
    apply Hgone.
  - rewrite !updateTimer_players. simpl. exact Hps.
  - apply updateTimer_core; simpl; [exact Hstate | reflexivity].
Qed.

(** ** Distinct ids *)

Lemma omap_keys_set_elem {V} k (v : V) (m : OMap.t V) k' :
  k' ∈ OMap.keys (OMap.set k v m) → k' = k ∨ k' ∈ OMap.keys m.
Proof.
  induction m as [|[k0 v0] m IH]; simpl.
  - intros H. apply list_elem_of_singleton in H. by left.
  - destruct (String.eqb_spec k k0) as [->|Hne]; simpl.
    + intros H. by right.
    + intros [->|H]%elem_of_cons; [right; left|].
      destruct (IH H) as [->|?]; [by left | right; by right].
Qed.

Lemma omap_wf_set {V} k (v : V) (m : OMap.t V) :
  OMap.wf m → OMap.wf (OMap.set k v m).
Proof.
  unfold OMap.wf. induction m as [|[k0 v0] m IH]; simpl.
  - intros _. apply NoDup_singleton.
  - rewrite NoDup_cons. intros [Hk Hm].
    destruct (String.eqb_spec k k0) as [->|Hne]; simpl.
    + by apply NoDup_cons.
    + apply NoDup_cons. split; [|auto].
      intros H. apply omap_keys_set_elem in H as [->|H]; done.
Qed.

Lemma omap_wf_alter {V} (f : V → V) k (m : OMap.t V) :
  OMap.wf m → OMap.wf (OMap.alter f k m).
Proof. unfold OMap.wf. by rewrite omap_keys_alter. Qed.

Lemma resetPlayers_keys i ps :
  OMap.keys (RoomManager.resetPlayers i ps) = OMap.keys ps.
Proof.
  revert i. induction ps as [|[pid p] ps IH]; intros i; simpl; [done|].
  by rewrite IH.
Qed.

Lemma samePose_keys ps ps' : samePose ps ps' → OMap.keys ps = OMap.keys ps'.
Proof.
  unfold samePose. induction 1 as [|a b ps ps' (Hk & _) _ IH]; simpl; [done|].
  by rewrite Hk, IH.
Qed.

Lemma stopTimers_projectiles room :
  Room.projectiles (RoomManager.stopTimers room) = Room.projectiles room.
Proof. unfold RoomManager.stopTimers. by repeat case_match. Qed.

Lemma updateTimer_projectiles now room :
  Room.projectiles (RoomManager.updateTimer now room) = Room.projectiles room.
Proof. unfold RoomManager.updateTimer. by repeat case_match. Qed.

Lemma wf_insert m roomId room :
  wf_ok m →
  OMap.wf (Room.players room) → OMap.wf (Room.projectiles room) →
  wf_ok (<[roomId := room]> m).
Proof. intros Hm Hps Hpr. by apply map_Forall_insert_2. Qed.

Lemma wf_lookup m roomId room :
  wf_ok m → m !! roomId = Some room →
  OMap.wf (Room.players room) ∧ OMap.wf (Room.projectiles room).
Proof. intros Hm Hr. exact (Hm _ _ Hr). Qed.

Lemma wf_startMatch now roomId m :
  wf_ok m → wf_ok (RoomManager.startMatch now roomId m).1.
Proof.
  intros Hm. unfold RoomManager.startMatch.
  destruct (m !! roomId) as [room|] eqn:Hroom; simpl; [|done].
  destruct (wf_lookup _ _ _ Hm Hroom). by apply wf_insert.
Qed.

Lemma wf_exec Math_sqrt m o : wf_ok m → wf_ok (exec Math_sqrt m o).
Proof.
  intros Hm. destruct o; simpl.
  - unfold RoomManager.getRoom.
    destruct (m !! roomId) eqn:Hroom; simpl; [done|].
    apply wf_insert; [done | apply NoDup_nil_2 | apply NoDup_nil_2].
  - unfold RoomManager.addPlayer, RoomManager.getRoom.
    destruct (m !! roomId) as [room|] eqn:Hroom.
    + destruct (wf_lookup _ _ _ Hm Hroom).
      case_match; simpl; [done|].
      apply wf_insert; [done | by apply omap_wf_set | done].
    + simpl. apply wf_insert; [|apply NoDup_singleton | apply NoDup_nil_2].
      apply wf_insert; [done | apply NoDup_nil_2 | apply NoDup_nil_2].
  - unfold RoomManager.removePlayer.
    destruct (m !! roomId) as [room|] eqn:Hroom; [|done].
    destruct (wf_lookup _ _ _ Hm Hroom). simpl. repeat case_match.
    + refine (map_Forall_delete _ _ _ _). apply wf_insert; [done| |].
      * rewrite stopTimers_players. by apply omap_wf_delete.
      * by rewrite stopTimers_projectiles.
    + apply wf_insert; [done| |apply NoDup_nil_2]. simpl.
      rewrite stopTimers_players. by apply omap_wf_delete.
    + apply wf_insert; [done | by apply omap_wf_delete | done].
  - unfold RoomManager.updatePlayerPosition.
    destruct (m !! roomId) as [room|] eqn:Hroom; [|done].
    destruct (wf_lookup _ _ _ Hm Hroom).
    repeat case_match; try done.
    apply wf_insert; [done | by apply omap_wf_alter | done].
  - unfold RoomManager.fireProjectile.
    destruct (m !! roomId) as [room|] eqn:Hroom; [|done].
    destruct (wf_lookup _ _ _ Hm Hroom).
    repeat case_match; simpl; try done.
    + apply wf_insert; [done | by apply omap_wf_alter | done].
    + apply wf_insert; [|by apply omap_wf_alter | by apply omap_wf_set].
      apply wf_insert; [done | by apply omap_wf_alter | done].
  - destruct (m !! roomId) as [room|] eqn:Hroom;
      [|unfold RoomManager.tick; by rewrite Hroom].
    destruct (wf_lookup _ _ _ Hm Hroom) as [Hps Hpr].
    destruct (Phase_eqb (Room.state room) playing) eqn:Hst;
      [|unfold RoomManager.tick; by rewrite Hroom, Hst].
    apply Phase_eqb_eq in Hst.
    destruct (tick_playing Math_sqrt now roomId m room Hroom Hst)
      as (ps' & s' & Hpose & _ & ->). simpl.
    apply wf_insert; [done| |]; unfold steppedRoom.
    + rewrite updateTimer_players. simpl. unfold OMap.wf in *.
      by rewrite <- (samePose_keys _ _ Hpose).
    + rewrite updateTimer_projectiles. simpl.
      apply removeExpired_wf. unfold OMap.wf. by rewrite omap_keys_advanced.
  - unfold RoomManager.startCountdown.
    destruct (m !! roomId) as [room|] eqn:Hroom; [|done].
    destruct (wf_lookup _ _ _ Hm Hroom). simpl.
    apply wf_insert; [done| |apply NoDup_nil_2]. simpl.
    unfold OMap.wf. by rewrite resetPlayers_keys.
  - unfold RoomManager.countdownInterval.
    destruct (m !! roomId) as [room|] eqn:Hroom; [|done].
    destruct (wf_lookup _ _ _ Hm Hroom).
    repeat case_match; simpl; try done.
    + by apply wf_insert.
    + apply wf_startMatch. by apply wf_insert.
  - by apply wf_startMatch.
  - unfold RoomManager.stopMatch.
    destruct (m !! roomId) as [room|] eqn:Hroom; [|done].
    destruct (wf_lookup _ _ _ Hm Hroom).
    apply wf_insert; [done| |].
    + by rewrite stopTimers_players.
    + by rewrite stopTimers_projectiles.
  - unfold RoomManager.handleRematch.
    destruct (m !! roomId) as [room|] eqn:Hroom; [|done].
    destruct (wf_lookup _ _ _ Hm Hroom).
    case_match; simpl; [done|]. apply wf_insert; [done | done | apply NoDup_nil_2].
  - unfold RoomManager.heartbeat.
    destruct (m !! roomId) as [room|] eqn:Hroom; [|done].
    destruct (wf_lookup _ _ _ Hm Hroom).
    case_match; [|done].
    apply wf_insert; [done | by apply omap_wf_alter | done].
Qed.

(** In every registry that the operations can produce, the ids of the
    players of a room are distinct, and so are the ids of its
    projectiles. *)
Lemma wf_run Math_sqrt ops :
  wf_ok (run Math_sqrt ops RoomManager.constructor).
Proof.
  assert (Hgen : ∀ m, wf_ok m → wf_ok (run Math_sqrt ops m)).
  { induction ops as [|o ops IH]; intros m Hm; simpl; [done|].
    apply IH. by apply wf_exec. }
  apply Hgen. apply map_Forall_empty.
Qed.

(** ** The theorems at concrete rooms *)

Lemma capacity_never_exceeded_witness :
  let room :=
    Scenario.arena [("p1", Scenario.cupid 0 0); ("p2", Scenario.dark 0)]
                   [] 1000000 in
  let m := Scenario.registry room in
  RoomManager.addPlayer 1002000 "p3" "r1" (WebSocket.mk 3 None None) m
  = (m, None).
Proof.
  intros room m.
  apply (proj2 (capacity_never_exceeded sqrt_floor)
               1002000 "p3" "r1" (WebSocket.mk 3 None None) m room);
    reflexivity.
Defined.

Lemma updatePlayerPosition_validates_and_clamps_witness :
  let room :=
    Scenario.arena [("p1", Scenario.cupid 0 0); ("p2", Scenario.dark 0)]
                   [] 1000000 in
  let m := Scenario.registry room in
  RoomManager.updatePlayerPosition "r1" "p1" (JNum 3) JInfinity (JNum 1) m = m
  ∧ ∃ room' player',
      RoomManager.updatePlayerPosition "r1" "p1" (JNum 100) (JNum (-100))
                                       (JNum 7) m !! "r1" = Some room'
      ∧ OMap.get "p1" (Room.players room') = Some player'
      ∧ (- CONFIG.ARENA_WIDTH / 2 + CONFIG.PLAYER_RADIUS
         <= Player.x player'
         <= CONFIG.ARENA_WIDTH / 2 - CONFIG.PLAYER_RADIUS)%Q
      ∧ (- CONFIG.ARENA_DEPTH / 2 + CONFIG.PLAYER_RADIUS
         <= Player.z player'
         <= CONFIG.ARENA_DEPTH / 2 - CONFIG.PLAYER_RADIUS)%Q
      ∧ Player.rotation player' = 7%Q
      ∧ Player.score player' = Player.score (Scenario.cupid 0 0).
Proof.
  intros room m. split.
  - apply (proj1 (updatePlayerPosition_validates_and_clamps
                    "r1" "p1" (JNum 3) JInfinity (JNum 1) m room
                    (Scenario.cupid 0 0) eq_refl eq_refl)).
    reflexivity.
  - apply (proj2 (updatePlayerPosition_validates_and_clamps
                    "r1" "p1" (JNum 100) (JNum (-100)) (JNum 7) m room
                    (Scenario.cupid 0 0) eq_refl eq_refl)
                 100%Q (-100)%Q 7%Q);
      reflexivity.
Defined.

Lemma removePlayer_aborts_match_witness :
  let room :=
    Scenario.arena [("p1", Scenario.cupid 4 0); ("p2", Scenario.dark 2)]
                   [("a2", Scenario.stray_shot)] 1000000 in
  let m := Scenario.registry room in
  ∃ room',
    RoomManager.removePlayer "r1" "p1" m !! "r1" = Some room'
    ∧ Room.state room' = waiting
    ∧ Room.projectiles room' = []
    ∧ Room.players room' = [("p2", Scenario.dark 2)].
Proof.
  intros room m.
  apply (removePlayer_aborts_match "r1" "p1" "p2" "p1"
           (Scenario.cupid 4 0) (Scenario.dark 2) m room).
  - reflexivity.
  - reflexivity.
  - discriminate.
  - left. reflexivity.
  - left. reflexivity.
Defined.

Lemma rejoin_duplicates_role_witness :
  let ws := WebSocket.mk 0 None None in
  let m1 := (RoomManager.addPlayer 1 "p1" "r1" ws RoomManager.constructor).1 in
  let m2 := (RoomManager.addPlayer 2 "p2" "r1" ws m1).1 in
  let m3 := RoomManager.removePlayer "r1" "p1" m2 in
  let m4 := (RoomManager.addPlayer 3 "p3" "r1" ws m3).1 in
  (∀ now uuid r ws m0 m' player,
     RoomManager.addPlayer now uuid r ws m0 = (m', Some player) →
     let present := OMap.size (Room.players (RoomManager.getRoom r m0).2) in
     Player.characterId player
     = (if (present =? 0)%nat then "cupid_prime" else "dark_cupid")
     ∧ Player.x player
       = (if (present =? 0)%nat
          then (- CONFIG.PLAYER_SPAWN_OFFSET)%Q
          else CONFIG.PLAYER_SPAWN_OFFSET)
     ∧ Player.rotation player
       = (if (present =? 0)%nat then 0%Q else Math_PI))
  ∧ (∃ p1,
       (RoomManager.addPlayer 1 "p1" "r1" ws RoomManager.constructor).2
       = Some p1
       ∧ Player.characterId p1 = "cupid_prime"
       ∧ Player.x p1 = (- CONFIG.PLAYER_SPAWN_OFFSET)%Q
       ∧ Player.rotation p1 = 0%Q)
  ∧ ∃ room p2 p3,
      m4 !! "r1" = Some room
      ∧ Room.players room = [("p2", p2); ("p3", p3)]
      ∧ Player.characterId p2 = "dark_cupid"
      ∧ Player.characterId p3 = "dark_cupid"
      ∧ Player.x p2 = CONFIG.PLAYER_SPAWN_OFFSET
      ∧ Player.x p3 = CONFIG.PLAYER_SPAWN_OFFSET
      ∧ Player.rotation p2 = Math_PI
      ∧ Player.rotation p3 = Math_PI.
Proof.
  intros ws.
  apply (rejoin_duplicates_role 1 2 3 "p1" "p2" "p3" "r1" ws ws ws
           RoomManager.constructor).
  - reflexivity.
  - discriminate.
  - discriminate.
Defined.

Lemma cooldown_admits_one_projectile_witness :
  let m :=
    Scenario.registry
      (Scenario.arena [("p1", Scenario.cupid 0 0); ("p2", Scenario.dark 0)]
                      [] 1000000) in
  let r1 :=
    RoomManager.fireProjectile sqrt_floor 1001000 "s1" "r1" "p1"
                               (JNum 1) (JNum 0) m in
  let r2 :=
    RoomManager.fireProjectile sqrt_floor 1001349 "s2" "r1" "p1"
                               (JNum 0) (JNum 1) r1.1 in
  (r1.2 = None ∨ r2.2 = None)
  ∧ ∃ proj, r1.2 = Some proj ∧ r2 = (r1.1, None).
Proof.
  intros m r1 r2.
  pose proof (cooldown_admits_one_projectile sqrt_floor 1001000 1001349
                "s1" "s2" "r1" "p1" (JNum 1) (JNum 0) (JNum 0) (JNum 1) m
                eq_refl) as [Hmost Hone].
  split; [exact Hmost|].
  eexists. split; [vm_compute; reflexivity|].
  eapply proj1. apply Hone. vm_compute. reflexivity.
Defined.

Lemma win_ends_match_on_same_step_witness :
  let room :=
    Scenario.arena [("p1", Scenario.cupid 9 0); ("p2", Scenario.dark 0)]
                   [("a1", Scenario.winning_shot "p1" 1000900)] 1000000 in
  let m := Scenario.registry room in
  let m' := (RoomManager.tick sqrt_floor 1001000 "r1" m).1 in
  ∃ room' res,
    m' !! "r1" = Some room'
    ∧ RoomManager.getMatchResults "r1" m' = Some res
    ∧ (reachedWin (Room.players room') → Room.state room' = ended)
    ∧ (Results.reason res = "timeout" ↔ (Room.timeRemaining room' <= 0)%Q)
    ∧ (Results.reason res = "score" ↔ (0 < Room.timeRemaining room')%Q)
    ∧ (∀ startTime,
         Room.startTime room = Some startTime → startTime ≠ 0 →
         ((inject_Z (1001000 - startTime) / 1000 < CONFIG.MATCH_DURATION)%Q →
          Results.reason res = "score")
         ∧ ((CONFIG.MATCH_DURATION <= inject_Z (1001000 - startTime) / 1000)%Q →
            Results.reason res = "timeout")).
Proof.
  intros room m.
  apply (win_ends_match_on_same_step sqrt_floor 1001000 "r1" m room).
  - reflexivity.
  - reflexivity.
  - unfold belowWin. repeat constructor.
Defined.

Lemma projectiles_cleared_on_departure_and_rematch_witness :
  let room :=
    Scenario.arena
      [("p1", Scenario.cupid 9 0); ("p2", Scenario.dark 0)]
      [("a1", Scenario.winning_shot "p1" 1000900);
       ("a2", Scenario.stray_shot)]
      1000000 in
  let m := Scenario.registry room in
  let gone := RoomManager.removePlayer "r1" "p2" m in
  let stepped := (RoomManager.tick sqrt_floor 1001000 "r1" m).1 in
  (∀ room',
     gone !! "r1" = Some room' →
     Room.state room' = waiting ∧ Room.projectiles room' = [])
  ∧ (∃ room room',
       stepped !! "r1" = Some room ∧ Room.state room = ended
       ∧ (RoomManager.handleRematch "r1" stepped).1 !! "r1" = Some room'
       ∧ Room.state room' = waiting ∧ Room.projectiles room' = [])
  ∧ (∃ room',
       stepped !! "r1" = Some room'
       ∧ OMap.get "a2" (Room.projectiles room')
         = Some (RoomManager.advance Scenario.stray_shot)).
Proof.
  intros room m gone stepped. split; [|split].
  - intros room'.
    apply (proj1 (projectiles_cleared_on_departure_and_rematch
                    sqrt_floor "r1" m) "p2" room room').
    + reflexivity.
    + left. reflexivity.
  - apply (proj1 (proj2 (projectiles_cleared_on_departure_and_rematch
                           sqrt_floor "r1" stepped))
                 (RoomManager.handleRematch "r1" stepped).1).
    vm_compute. reflexivity.
  - apply (proj2 (proj2 (projectiles_cleared_on_departure_and_rematch
                           sqrt_floor "r1" m))
                 1001000 room "a2" Scenario.stray_shot).
    + reflexivity.
    + reflexivity.
    + unfold OMap.wf. compute_done.
    + right. left.
    + vm_compute. reflexivity.
Defined.

Lemma orphan_hit_is_reported_but_not_scored_witness :
  let room :=
    Scenario.arena
      [("p1", Scenario.cupid 9 0); ("p2", Scenario.dark 0)]
      [("a2", Scenario.stray_shot);
       ("a1", Scenario.winning_shot "gone" 1000900)]
      1000000 in
  let m := Scenario.registry room in
  let r := RoomManager.tick sqrt_floor 1001000 "r1" m in
  let r0 :=
    RoomManager.tick sqrt_floor 1001000 "r1"
      (<["r1" := Room.with_projectiles
                   ([("a2", Scenario.stray_shot)] ++ []) room]> m) in
  let shot := Scenario.winning_shot "gone" 1000900 in
  ∃ room' room0',
    r.1 !! "r1" = Some room'
    ∧ r0.1 !! "r1" = Some room0'
    ∧ (Hit.mk "a1" (Projectile.ownerId shot) "p2"
              (Projectile.x (RoomManager.advance shot))
              (Projectile.z (RoomManager.advance shot))) ∈ r.2
    ∧ ("a1" ∉ OMap.keys (Room.projectiles room'))
    ∧ Room.players room' = Room.players room0'
    ∧ Room.state room' = Room.state room0'.
Proof.
  intros room m.
  apply (orphan_hit_is_reported_but_not_scored sqrt_floor 1001000 "r1" m room
           [("a2", Scenario.stray_shot)] [] "a1"
           (Scenario.winning_shot "gone" 1000900) "p2").
  - reflexivity.
  - reflexivity.
  - reflexivity.
  - unfold OMap.wf. compute_done.
  - reflexivity.
  - vm_compute. reflexivity.
  - vm_compute. reflexivity.
  - vm_compute. reflexivity.
Defined.

(** * Further properties of the room manager *)

(** ** Rooms: creation and teardown *)

Lemma omap_delete_absent {V} k (m : OMap.t V) :
  OMap.get k m = None → OMap.delete k m = m.
Proof.
  induction m as [|[k0 v0] m IH]; simpl; [done|].
  destruct (String.eqb k k0); [done|]. intros H. by rewrite IH.
Qed.

(** X1.  Removing the only player of a room deletes the room, whatever
    its state, and touches no other room; a later [getRoom] with the same
    id yields a new room that keeps nothing of the old one. *)
Theorem last_departure_deletes_room
    (roomId playerId : string) (p : Player.t)
    (m : RoomManager.Manager) (room : Room.t) :
  m !! roomId = Some room →
  Room.players room = [(playerId, p)] →
  let m' := RoomManager.removePlayer roomId playerId m in
  m' !! roomId = None
  ∧ (∀ other, other ≠ roomId → m' !! other = m !! other)
  ∧ (RoomManager.getRoom roomId m').2 = freshRoom roomId.
Proof.
  intros Hroom Hps. unfold RoomManager.removePlayer.
  rewrite Hroom. simpl. rewrite Hps. simpl. rewrite eqb_refl_true. simpl.
  assert (Hgone : delete roomId
            (<[roomId := RoomManager.stopTimers (Room.with_players [] room)]> m)
            !! roomId = None) by apply lookup_delete_eq.
  split; [exact Hgone|]. split.
  - intros other Hne. rewrite lookup_delete_ne by done.
    by rewrite lookup_insert_ne.
  - unfold RoomManager.getRoom. by rewrite Hgone.
Qed.

(** X2.  [removePlayer] with an id that is not in the room, the room
    having players: when the room is in a match ([playing] or
    [countdown]) the match is aborted all the same, the state becoming
    [waiting], the projectiles and timers being cleared and every player
    staying; in state [waiting] or [ended] the registry is unchanged. *)
Theorem removePlayer_of_non_member
    (roomId playerId : string) (m : RoomManager.Manager) (room : Room.t) :
  m !! roomId = Some room →
  OMap.get playerId (Room.players room) = None →
  Room.players room ≠ [] →
  (Room.state room = playing ∨ Room.state room = countdown →
   RoomManager.removePlayer roomId playerId m
   = <[roomId := abortedRoom room]> m)
  ∧ (Room.state room = waiting ∨ Room.state room = ended →
     RoomManager.removePlayer roomId playerId m = m).
Proof.
  intros Hroom Hnone Hne. unfold RoomManager.removePlayer.
  rewrite Hroom. simpl. rewrite (omap_delete_absent _ _ Hnone).
  assert (Hsame : Room.with_players (Room.players room) room = room)
    by by destruct room.
  rewrite Hsame.
  destruct (Room.players room) as [|kp ps] eqn:Hps; [done|]. simpl.
  split.
  - intros [Hst|Hst]; rewrite Hst; reflexivity.
  - intros [Hst|Hst]; rewrite Hst; simpl; by apply insert_id.
Qed.

(** ** The match life cycle *)

Lemma resetPlayers_lookup (j i : nat) (ps : OMap.t Player.t) :
  RoomManager.resetPlayers j ps !! i
  = (λ kp, (kp.1, respawned (j + i) kp.2)) <$> ps !! i.
Proof.
  revert j i. induction ps as [|[pid p] ps IH]; intros j i; simpl; [done|].
  destruct i as [|i]; simpl.
  - by rewrite Nat.add_0_r.
  - rewrite IH. by replace (S j + i)%nat with (j + S i)%nat by lia.
Qed.

(** X3.  [startCountdown] puts the room in state [countdown], empties the
    projectiles, installs the interval with [count = COUNTDOWN_DURATION]
    and announces that count.  It keeps the players and their order,
    resets every score to 0 and respawns them by position in that order:
    the first player at [x = -PLAYER_SPAWN_OFFSET] with rotation 0, every
    other one at [x = +PLAYER_SPAWN_OFFSET] with rotation [Math.PI], all
    at [z = 0]; id, characterId, connection, [lastHeartbeat] and
    [lastFireTime] are kept. *)
Theorem startCountdown_resets_players
    (roomId : string) (m : RoomManager.Manager) (room : Room.t) :
  m !! roomId = Some room →
  ∃ room',
    RoomManager.startCountdown roomId m
    = (<[roomId := room']> m, [MATCH_COUNTDOWN CONFIG.COUNTDOWN_DURATION])
    ∧ Room.state room' = countdown
    ∧ Room.projectiles room' = []
    ∧ Room.countdownTimer room'
      = Some {| count := CONFIG.COUNTDOWN_DURATION |}
    ∧ Room.startTime room' = Room.startTime room
    ∧ OMap.keys (Room.players room') = OMap.keys (Room.players room)
    ∧ (∀ i pid p,
         Room.players room !! i = Some (pid, p) →
         Room.players room' !! i = Some (pid, respawned i p)).
Proof.
  intros Hroom. unfold RoomManager.startCountdown. rewrite Hroom.
  eexists. split; [reflexivity|]. simpl.
  repeat split; try done.
  - apply resetPlayers_keys.
  - intros i pid p Hi. by rewrite resetPlayers_lookup, Hi.
Qed.

Lemma countdownInterval_step now roomId m room c :
  m !! roomId = Some room →
  Room.countdownTimer room = Some {| count := c |} →
  1 < c →
  RoomManager.countdownInterval now roomId m
  = (<[roomId := Room.with_countdownTimer (Some {| count := c - 1 |}) room]> m,
     [MATCH_COUNTDOWN (c - 1)]).
Proof.
  intros Hroom Htimer Hc. unfold RoomManager.countdownInterval.
  rewrite Hroom, Htimer. simpl.
  destruct (Z.ltb_spec 0 (c - 1)); [done | lia].
Qed.

Lemma countdownInterval_last now roomId m room c :
  m !! roomId = Some room →
  Room.countdownTimer room = Some {| count := c |} →
  c ≤ 1 →
  RoomManager.countdownInterval now roomId m
  = RoomManager.startMatch now roomId
      (<[roomId := Room.with_countdownTimer None room]> m).
Proof.
  intros Hroom Htimer Hc. unfold RoomManager.countdownInterval.
  rewrite Hroom, Htimer. simpl.
  destruct (Z.ltb_spec 0 (c - 1)); [lia | done].
Qed.

(** X4.  A countdown runs to the start of the match: after
    [startCountdown], the first two firings of the interval announce the
    counts 2 and 1 and the third one clears the interval and starts the
    match, announcing [MATCH_START]: the room is then in state [playing]
    with [startTime] the time of that firing and [timeRemaining =
    MATCH_DURATION], its players being those that [startCountdown]
    respawned and its projectiles empty. *)
Theorem countdown_runs_to_match_start
    (t1 t2 t3 : Z) (roomId : string) (m : RoomManager.Manager)
    (room : Room.t) :
  m !! roomId = Some room →
  let s0 := RoomManager.startCountdown roomId m in
  let s1 := RoomManager.countdownInterval t1 roomId s0.1 in
  let s2 := RoomManager.countdownInterval t2 roomId s1.1 in
  let s3 := RoomManager.countdownInterval t3 roomId s2.1 in
  s0.2 = [MATCH_COUNTDOWN 3]
  ∧ s1.2 = [MATCH_COUNTDOWN 2]
  ∧ s2.2 = [MATCH_COUNTDOWN 1]
  ∧ s3.2 = [MATCH_START]
  ∧ (Room.state <$> s1.1 !! roomId) = Some countdown
  ∧ (Room.state <$> s2.1 !! roomId) = Some countdown
  ∧ s3.1 !! roomId
    = Some (Room.mk (Room.id room)
              (RoomManager.resetPlayers 0 (Room.players room)) []
              playing (Room.matchTimer room) None (Some t3)
              CONFIG.MATCH_DURATION).
Proof.
  intros Hroom s0 s1 s2 s3.
  set (r0 := Room.mk (Room.id room)
               (RoomManager.resetPlayers 0 (Room.players room)) []
               countdown (Room.matchTimer room) (Some {| count := 3 |})
               (Room.startTime room) (Room.timeRemaining room)).
  assert (H0 : s0 = (<[roomId := r0]> m, [MATCH_COUNTDOWN 3])).
  { subst s0. unfold RoomManager.startCountdown. by rewrite Hroom. }
  assert (H1 : s1 = (<[roomId := Room.with_countdownTimer
                                   (Some {| count := 2 |}) r0]> m,
                     [MATCH_COUNTDOWN 2])).
  { subst s1. rewrite H0. simpl.
    rewrite (countdownInterval_step t1 roomId _ r0 3);
      [by rewrite insert_insert_eq | apply lookup_insert_eq | done | lia]. }
  assert (H2 : s2 = (<[roomId := Room.with_countdownTimer
                                   (Some {| count := 1 |}) r0]> m,
                     [MATCH_COUNTDOWN 1])).
  { subst s2. rewrite H1. simpl.
    rewrite (countdownInterval_step t2 roomId _
               (Room.with_countdownTimer (Some {| count := 2 |}) r0) 2);
      [by rewrite insert_insert_eq | apply lookup_insert_eq | done | lia]. }
  assert (H3 : s3 = (<[roomId := Room.mk (Room.id room)
                        (RoomManager.resetPlayers 0 (Room.players room)) []
                        playing (Room.matchTimer room) None (Some t3)
                        CONFIG.MATCH_DURATION]> m,
                     [MATCH_START])).
  { subst s3. rewrite H2. simpl.
    rewrite (countdownInterval_last t3 roomId _
               (Room.with_countdownTimer (Some {| count := 1 |}) r0) 1);
      [|apply lookup_insert_eq | done | lia].
    unfold RoomManager.startMatch. rewrite insert_insert_eq.
    rewrite lookup_insert_eq. simpl. by rewrite insert_insert_eq. }
  rewrite H0, H1, H2, H3. simpl. rewrite !lookup_insert_eq.
  repeat split; reflexivity.
Qed.

(** X5.  A departure during a match or a countdown, in a room that keeps
    a player, cancels the countdown: a later firing of the interval does
    nothing, so the room does not start playing. *)
Theorem departure_cancels_countdown
    (now : Z) (roomId playerId : string) (m : RoomManager.Manager)
    (room room' : Room.t) :
  m !! roomId = Some room →
  Room.state room = playing ∨ Room.state room = countdown →
  let m' := RoomManager.removePlayer roomId playerId m in
  m' !! roomId = Some room' →
  Room.countdownTimer room' = None
  ∧ Room.matchTimer room' = None
  ∧ RoomManager.countdownInterval now roomId m' = (m', []).
Proof.
  intros Hroom Hst m' Hroom'. subst m'.
  assert (Htimers : Room.countdownTimer room' = None
                    ∧ Room.matchTimer room' = None).
  { revert Hroom'. unfold RoomManager.removePlayer. rewrite Hroom. simpl.
    assert (Hphase : Phase_eqb (Room.state room) playing
                     || Phase_eqb (Room.state room) countdown = true)
      by (destruct Hst as [-> | ->]; reflexivity).
    rewrite Hphase. case_match.
    - by rewrite lookup_delete_eq.
    - rewrite lookup_insert_eq. intros [= <-]. simpl.
      unfold RoomManager.stopTimers. simpl.
      destruct (Room.matchTimer room) eqn:Hmt,
        (Room.countdownTimer room) eqn:Hct; simpl; rewrite ?Hmt, ?Hct;
        simpl; by split. }
  destruct Htimers as [Hc Hm]. split; [done|]. split; [done|].
  unfold RoomManager.countdownInterval. by rewrite Hroom', Hc.
Qed.

(** X6.  A rematch request is accepted exactly when the room exists and
    is in state [ended]; a rejected request changes nothing; an accepted
    one changes only the state and the projectiles: the players, with
    their scores and positions, the timers, [startTime] and
    [timeRemaining] are kept. *)
Theorem handleRematch_keeps_scores
    (roomId : string) (m : RoomManager.Manager) :
  let r := RoomManager.handleRematch roomId m in
  (r.2 = true ↔ ∃ room, m !! roomId = Some room ∧ Room.state room = ended)
  ∧ (r.2 = false → r.1 = m)
  ∧ (∀ room,
       m !! roomId = Some room → r.2 = true →
       r.1 = <[roomId :=
                 Room.mk (Room.id room) (Room.players room) [] waiting
                   (Room.matchTimer room) (Room.countdownTimer room)
                   (Room.startTime room) (Room.timeRemaining room)]> m).
Proof.
  unfold RoomManager.handleRematch.
  destruct (m !! roomId) as [room|] eqn:Hroom; simpl.
  - destruct (Phase_eqb (Room.state room) ended) eqn:Hst; simpl.
    + apply Phase_eqb_eq in Hst. repeat split; try done.
      * intros _. by exists room.
      * by intros room' [= <-] _.
    + repeat split; try done.
      intros (room' & [= <-] & Hended). rewrite Hended in Hst. done.
  - repeat split; try done. by intros (room' & ? & _).
Qed.

(** ** Match results *)

Lemma resultsLoop_players ps acc :
  (RoomManager.resultsLoop ps acc).1.1
  = acc.1.1
    ++ ((λ kp, Results.mkEntry (Player.id kp.2) (Player.characterId kp.2)
                               (Player.score kp.2)) <$> ps).
Proof.
  revert acc. induction ps as [|[pid p] ps IH]; intros [[players w] h];
    simpl; [by rewrite app_nil_r|].
  case_match; rewrite IH; simpl; by rewrite <- app_assoc.
Qed.

(** X7.  The results of a room with two players whose scores are not
    negative: the players are listed in join order with their id,
    characterId and score; equal scores give [isTie = true] and no
    winner; otherwise [isTie = false] and the winner is the player with
    the strictly higher score. *)
Theorem getMatchResults_of_two_players
    (roomId a b : string) (pa pb : Player.t)
    (m : RoomManager.Manager) (room : Room.t) :
  m !! roomId = Some room →
  Room.players room = [(a, pa); (b, pb)] →
  0 ≤ Player.score pa → 0 ≤ Player.score pb →
  ∃ res,
    RoomManager.getMatchResults roomId m = Some res
    ∧ Results.players res
      = [Results.mkEntry (Player.id pa) (Player.characterId pa)
                         (Player.score pa);
         Results.mkEntry (Player.id pb) (Player.characterId pb)
                         (Player.score pb)]
    ∧ (Player.score pa = Player.score pb →
       Results.isTie res = true ∧ Results.winnerId res = None)
    ∧ (Player.score pb < Player.score pa →
       Results.isTie res = false
       ∧ Results.winnerId res = Some (Player.id pa))
    ∧ (Player.score pa < Player.score pb →
       Results.isTie res = false
       ∧ Results.winnerId res = Some (Player.id pb)).
Proof.
  intros Hroom Hps Ha Hb. unfold RoomManager.getMatchResults.
  rewrite Hroom, Hps. simpl.
  destruct (Z.ltb_spec (-1) (Player.score pa)); [|lia]. simpl.
  destruct (Z.ltb_spec (Player.score pa) (Player.score pb)); simpl.
  - eexists. split; [reflexivity|]. simpl.
    destruct (Z.eqb_spec (Player.score pa) (Player.score pb)); [lia|].
    repeat split; try done; lia.
  - eexists. split; [reflexivity|]. simpl.
    destruct (Z.eqb_spec (Player.score pa) (Player.score pb)).
    + repeat split; try done; lia.
    + repeat split; try done; lia.
Qed.

(** ** The simulation step: hits *)

Lemma firstTarget_Some Math_sqrt ps proj target :
  firstTarget Math_sqrt ps proj = Some target →
  target ≠ Projectile.ownerId proj
  ∧ ∃ p, (target, p) ∈ ps ∧ RoomManager.collides Math_sqrt proj p = true.
Proof.
  induction ps as [|[pid p] ps IH]; simpl; [done|].
  destruct (String.eqb_spec pid (Projectile.ownerId proj)) as [Heq|Hne].
  - intros H. destruct (IH H) as (Hn & p' & Hin & Hc).
    split; [done|]. exists p'. split; [by right | done].
  - destruct (RoomManager.collides Math_sqrt proj p) eqn:Hc.
    + intros [= <-]. split; [done|]. exists p. split; [left | done].
    + intros H. destruct (IH H) as (Hn & p' & Hin & Hc').
      split; [done|]. exists p'. split; [by right | done].
Qed.

Lemma hitOf_Some Math_sqrt now ps entry h :
  hitOf Math_sqrt now ps entry = Some h →
  RoomManager.outOfBounds (RoomManager.advance entry.2) = false
  ∧ RoomManager.lifetimeExpired now (RoomManager.advance entry.2) = false
  ∧ firstTarget Math_sqrt ps (RoomManager.advance entry.2)
    = Some (Hit.targetId h)
  ∧ h = Hit.mk entry.1 (Projectile.ownerId entry.2) (Hit.targetId h)
               (Projectile.x (RoomManager.advance entry.2))
               (Projectile.z (RoomManager.advance entry.2)).
Proof.
  unfold hitOf.
  destruct (RoomManager.outOfBounds (RoomManager.advance entry.2)); [done|].
  destruct (RoomManager.lifetimeExpired now (RoomManager.advance entry.2));
    [done|].
  destruct (firstTarget Math_sqrt ps (RoomManager.advance entry.2));
    simpl; [|done].
  by intros [= <-].
Qed.

(** The hits and the projectiles left by a step of a playing room. *)
Lemma tick_outcome Math_sqrt now roomId m room :
  m !! roomId = Some room →
  Room.state room = playing →
  ∃ room',
    (RoomManager.tick Math_sqrt now roomId m).1 !! roomId = Some room'
    ∧ (RoomManager.tick Math_sqrt now roomId m).2
      = omap (hitOf Math_sqrt now (Room.players room)) (Room.projectiles room)
    ∧ Room.projectiles room'
      = RoomManager.removeExpired
          (omap (expiredId Math_sqrt now (Room.players room))
                (Room.projectiles room))
          (advanced <$> Room.projectiles room).
Proof.
  intros Hroom Hst.
  destruct (tick_playing Math_sqrt now roomId m room Hroom Hst)
    as (ps' & s' & _ & _ & ->). simpl.
  eexists. rewrite lookup_insert_eq. split; [reflexivity|].
  split; [reflexivity|].
  unfold steppedRoom. by rewrite updateTimer_projectiles.
Qed.

(** X8.  Every hit that a step of a playing room returns is the hit of
    one of the room's projectiles, reported at the projectile's advanced
    position with its owner as shooter; that projectile has stayed in
    bounds and within its lifetime; and the target is a player of the
    room, other than the shooter, within hit distance of it: no player is
    ever hit by its own projectile. *)
Theorem tick_hits_are_sound
    (Math_sqrt : Q → Q) (now : Z) (roomId : string)
    (m : RoomManager.Manager) (room : Room.t) (h : Hit.t) :
  m !! roomId = Some room →
  Room.state room = playing →
  h ∈ (RoomManager.tick Math_sqrt now roomId m).2 →
  Hit.targetId h ≠ Hit.shooterId h
  ∧ ∃ proj target,
      (Hit.projectileId h, proj) ∈ Room.projectiles room
      ∧ (Hit.targetId h, target) ∈ Room.players room
      ∧ Hit.shooterId h = Projectile.ownerId proj
      ∧ Hit.x h = Projectile.x (RoomManager.advance proj)
      ∧ Hit.z h = Projectile.z (RoomManager.advance proj)
      ∧ RoomManager.outOfBounds (RoomManager.advance proj) = false
      ∧ RoomManager.lifetimeExpired now (RoomManager.advance proj) = false
      ∧ RoomManager.collides Math_sqrt (RoomManager.advance proj) target
        = true.
Proof.
  intros Hroom Hst Hh.
  destruct (tick_outcome Math_sqrt now roomId m room Hroom Hst)
    as (room' & _ & Hhits & _).
  rewrite Hhits in Hh. apply list_elem_of_omap in Hh as ([k proj] & Hin & Hh).
  apply hitOf_Some in Hh as (Hb & Hl & Ht & Hrec). simpl in *.
  apply firstTarget_Some in Ht as (Hne & p & Hp & Hc).
  rewrite Hrec. simpl. split; [done|].
  exists proj, p. repeat split; done.
Qed.

Lemma omap_length_le {A B} (f : A → option B) (l : list A) :
  (length (omap f l) ≤ length l)%nat.
Proof.
  induction l as [|a l IH]; [done|].
  cbn [omap list_omap]. destruct (f a); cbn [length]; lia.
Qed.

Lemma omap_hit_ids Math_sqrt now ps (projs : OMap.t Projectile.t)
    (k : string) :
  k ∈ Hit.projectileId <$> omap (hitOf Math_sqrt now ps) projs →
  k ∈ OMap.keys projs.
Proof.
  intros H. apply list_elem_of_fmap in H as (h & -> & Hh).
  apply list_elem_of_omap in Hh as (entry & Hin & Hh).
  apply hitOf_Some in Hh as (_ & _ & _ & ->). simpl.
  by apply (list_elem_of_fmap_2 fst).
Qed.

(** X9.  A step of a playing room whose projectile ids are distinct
    returns at most one hit per projectile (the first player in join
    order within hit distance), and every projectile that scored a hit is
    gone from the room after the step. *)
Theorem tick_one_hit_per_projectile
    (Math_sqrt : Q → Q) (now : Z) (roomId : string)
    (m : RoomManager.Manager) (room : Room.t) :
  m !! roomId = Some room →
  Room.state room = playing →
  OMap.wf (Room.projectiles room) →
  let r := RoomManager.tick Math_sqrt now roomId m in
  NoDup (Hit.projectileId <$> r.2)
  ∧ (length r.2 ≤ length (Room.projectiles room))%nat
  ∧ ∃ room',
      r.1 !! roomId = Some room'
      ∧ ∀ h, h ∈ r.2 →
             Hit.projectileId h ∉ OMap.keys (Room.projectiles room').
Proof.
  intros Hroom Hst Hwf r. subst r.
  destruct (tick_outcome Math_sqrt now roomId m room Hroom Hst)
    as (room' & Hroom' & Hhits & Hprojs).
  rewrite Hhits. split; [|split].
  - clear Hroom Hroom' Hhits Hprojs. unfold OMap.wf in Hwf.
    induction (Room.projectiles room) as [|[k proj] projs IH]; simpl.
    + apply NoDup_nil_2.
    + simpl in Hwf. apply NoDup_cons in Hwf as [Hk Hwf].
      destruct (hitOf Math_sqrt now (Room.players room) (k, proj)) as [h|]
        eqn:Hh; [|by apply IH].
      simpl. apply NoDup_cons. split; [|by apply IH].
      apply hitOf_Some in Hh as (_ & _ & _ & ->). simpl.
      intros Hin. by apply omap_hit_ids in Hin.
  - apply omap_length_le.
  - exists room'. split; [done|]. intros h Hh. rewrite Hprojs.
    apply list_elem_of_omap in Hh as ([k proj] & Hin & Hh).
    pose proof Hh as Hh'.
    apply hitOf_Some in Hh' as (Hb & Hl & Ht & ->). simpl in *.
    apply removeExpired_removes.
    + unfold OMap.wf. by rewrite omap_keys_advanced.
    + apply list_elem_of_omap. exists (k, proj). split; [done|].
      unfold expiredId, expires. simpl. by rewrite Hb, Hl, Ht.
Qed.

(** X10.  A projectile that, once advanced, is outside the arena or
    older than [PROJECTILE_LIFETIME] is removed by the step without any
    hit, even when it overlaps a player: expiry is checked before
    collisions. *)
Theorem tick_expiry_precedes_hits
    (Math_sqrt : Q → Q) (now : Z) (roomId projId : string)
    (proj : Projectile.t) (m : RoomManager.Manager) (room : Room.t) :
  m !! roomId = Some room →
  Room.state room = playing →
  OMap.wf (Room.projectiles room) →
  (projId, proj) ∈ Room.projectiles room →
  RoomManager.outOfBounds (RoomManager.advance proj) = true
  ∨ RoomManager.lifetimeExpired now (RoomManager.advance proj) = true →
  let r := RoomManager.tick Math_sqrt now roomId m in
  (∀ h, h ∈ r.2 → Hit.projectileId h ≠ projId)
  ∧ ∃ room',
      r.1 !! roomId = Some room'
      ∧ projId ∉ OMap.keys (Room.projectiles room').
Proof.
  intros Hroom Hst Hwf Hin Hexp r. subst r.
  destruct (tick_outcome Math_sqrt now roomId m room Hroom Hst)
    as (room' & Hroom' & Hhits & Hprojs).
  rewrite Hhits. split.
  - intros h Hh Heq.
    apply list_elem_of_omap in Hh as ([k proj'] & Hin' & Hh).
    apply hitOf_Some in Hh as (Hb & Hl & _ & Hrec).
    rewrite Hrec in Heq. simpl in *. subst k.
    rewrite (omap_wf_unique _ _ _ _ Hwf Hin Hin') in Hexp.
    destruct Hexp; congruence.
  - exists room'. split; [done|]. rewrite Hprojs.
    apply removeExpired_removes.
    + unfold OMap.wf. by rewrite omap_keys_advanced.
    + apply list_elem_of_omap. exists (projId, proj). split; [done|].
      unfold expiredId, expires. simpl.
      destruct Hexp as [-> | ->]; simpl; [done|].
      by rewrite orb_true_r.
Qed.

(** ** The simulation step: scores and the end of the match *)

Lemma scoresGrew_refl ps : scoresGrew ps ps.
Proof.
  unfold scoresGrew. induction ps as [|[k p] ps IH]; constructor; [|done].
  simpl. repeat split; [by destruct p | lia].
Qed.

Lemma scoresGrew_keys ps ps' :
  scoresGrew ps ps' → OMap.keys ps = OMap.keys ps'.
Proof.
  unfold scoresGrew. induction 1 as [|a b ps ps' (Hk & _) _ IH]; simpl;
    [done|]. by rewrite Hk, IH.
Qed.

Lemma scoresGrew_get_None ps ps' k :
  scoresGrew ps ps' → OMap.get k ps = None ↔ OMap.get k ps' = None.
Proof.
  intros H. rewrite !omap_get_None_keys. by rewrite (scoresGrew_keys _ _ H).
Qed.

Lemma scoresGrew_alter ps0 ps k :
  scoresGrew ps0 ps → scoresGrew ps0 (OMap.alter RoomManager.incScore k ps).
Proof.
  unfold scoresGrew.
  induction 1 as [|[k0 p0] [k1 p1] ps0 ps (Hk & Hp & Hs) Htl IH]; simpl.
  - constructor.
  - simpl in *. destruct (String.eqb k k1); constructor; auto.
    simpl. repeat split; [done| |lia].
    rewrite Hp. by destruct p0.
Qed.

Lemma totalScore_alter ps k v :
  OMap.get k ps = Some v →
  totalScore (OMap.alter RoomManager.incScore k ps) = totalScore ps + 1.
Proof.
  induction ps as [|[k0 p0] ps IH]; simpl; [done|].
  destruct (String.eqb k k0); simpl.
  - intros _. lia.
  - intros H. rewrite (IH H). lia.
Qed.

Lemma scoringHits_app ps hits hits' :
  scoringHits ps (hits ++ hits')
  = scoringHits ps hits + scoringHits ps hits'.
Proof.
  induction hits as [|h hits IH]; simpl; [done|]. rewrite IH. lia.
Qed.

Lemma reachedWin_alter ps k :
  reachedWin ps → reachedWin (OMap.alter RoomManager.incScore k ps).
Proof.
  unfold reachedWin. induction 1 as [[k0 p0] ps Hhd|[k0 p0] ps Htl IH]; simpl.
  - destruct (String.eqb k k0); apply Exists_cons_hd; simpl in *; lia.
  - destruct (String.eqb k k0); apply Exists_cons_tl; done.
Qed.

Lemma reachedWin_get ps k p :
  OMap.get k ps = Some p → CONFIG.WIN_SCORE ≤ Player.score p → reachedWin ps.
Proof.
  intros Hget Hwin. apply Exists_exists. exists (k, p).
  split; [|done]. by apply omap_get_In.
Qed.

Section ScoreFacts.
Variable Math_sqrt : Q → Q.

Lemma registerHit_scoreInv ps0 target projId proj st :
  scoreInv ps0 st →
  scoreInv ps0 (RoomManager.registerHit target projId proj st).
Proof.
  intros (Hgrew & Htotal & Hend). unfold scoreInv, RoomManager.registerHit.
  destruct (OMap.get (Projectile.ownerId proj) (RoomManager.ts_players st))
    as [shooter|] eqn:Hshooter; simpl.
  - rewrite omap_get_alter, eqb_refl_true, Hshooter. simpl.
    assert (Hpresent : ∃ s0, OMap.get (Projectile.ownerId proj) ps0 = Some s0).
    { destruct (OMap.get (Projectile.ownerId proj) ps0) eqn:H0; [eauto|].
      apply (scoresGrew_get_None _ _ _ Hgrew) in H0. congruence. }
    destruct Hpresent as [s0 Hs0].
    assert (Hcommon :
      scoresGrew ps0
        (OMap.alter RoomManager.incScore (Projectile.ownerId proj)
                    (RoomManager.ts_players st))
      ∧ totalScore
          (OMap.alter RoomManager.incScore (Projectile.ownerId proj)
                      (RoomManager.ts_players st))
        = totalScore ps0
          + scoringHits ps0
              (RoomManager.ts_hits st
               ++ [Hit.mk projId (Projectile.ownerId proj) target
                          (Projectile.x proj) (Projectile.z proj)])).
    { split; [by apply scoresGrew_alter|].
      rewrite (totalScore_alter _ _ _ Hshooter), scoringHits_app, Htotal.
      simpl. rewrite Hs0. lia. }
    destruct Hcommon as [Hg Ht].
    destruct (Z.leb_spec CONFIG.WIN_SCORE (Player.score shooter + 1));
      simpl; (split; [exact Hg|]; split; [exact Ht|]).
    + right. eapply reachedWin_get.
      * rewrite omap_get_alter, eqb_refl_true, Hshooter. reflexivity.
      * simpl. lia.
    + destruct Hend as [?|Hwin]; [by left | right].
      by apply reachedWin_alter.
  - rewrite Hshooter. simpl. split; [done|]. split; [|done].
    rewrite scoringHits_app, Htotal. simpl.
    apply (scoresGrew_get_None _ _ _ Hgrew) in Hshooter.
    rewrite Hshooter. lia.
Qed.

Lemma stepProjectile_scoreInv ps0 now projId proj st :
  scoreInv ps0 st →
  scoreInv ps0 (RoomManager.stepProjectile Math_sqrt now projId proj st).
Proof.
  intros Hinv. unfold RoomManager.stepProjectile.
  repeat case_match; try exact Hinv.
  rewrite hitLoop_firstTarget. case_match; [|exact Hinv].
  by apply registerHit_scoreInv.
Qed.

Lemma projectileLoop_scoreInv ps0 now projs st :
  scoreInv ps0 st →
  scoreInv ps0 (RoomManager.projectileLoop Math_sqrt now projs st).
Proof.
  revert st. induction projs as [|[projId proj] projs IH]; intros st Hinv;
    simpl; [done|].
  by apply IH, stepProjectile_scoreInv.
Qed.

(** The room and the hits after a step of a playing room, with what the
    loop has established about the players and the state. *)
Lemma tick_scores now roomId m room :
  m !! roomId = Some room →
  Room.state room = playing →
  ∃ ps' s',
    RoomManager.tick Math_sqrt now roomId m
    = (<[roomId := steppedRoom Math_sqrt now room ps' s']> m,
       omap (hitOf Math_sqrt now (Room.players room))
            (Room.projectiles room))
    ∧ scoresGrew (Room.players room) ps'
    ∧ totalScore ps'
      = totalScore (Room.players room)
        + scoringHits (Room.players room)
            (omap (hitOf Math_sqrt now (Room.players room))
                  (Room.projectiles room))
    ∧ (s' = playing ∨ (s' = ended ∧ reachedWin ps'))
    ∧ (belowWin (Room.players room) → reachedWin ps' → s' = ended).
Proof.
  intros Hroom Hst. unfold RoomManager.tick. rewrite Hroom, Hst. simpl.
  set (st0 := RoomManager.mkTick (Room.players room) playing [] [] []).
  destruct (projectileLoop_effect Math_sqrt (Room.players room) now
              (Room.projectiles room) st0 (samePose_refl _))
    as (Hm & Hh & He & _).
  cbv zeta in Hm, Hh, He. simpl in Hm, Hh, He.
  destruct (projectileLoop_scoreInv (Room.players room) now
              (Room.projectiles room) st0) as (Hgrew & Htotal & Hend).
  { split; [apply scoresGrew_refl|]. split; [simpl; lia | by left]. }
  exists (RoomManager.ts_players
            (RoomManager.projectileLoop Math_sqrt now
               (Room.projectiles room) st0)),
         (RoomManager.ts_state
            (RoomManager.projectileLoop Math_sqrt now
               (Room.projectiles room) st0)).
  split.
  { unfold steppedRoom. rewrite <- Hm, <- He, <- Hh. reflexivity. }
  split; [exact Hgrew|]. split; [by rewrite Htotal, Hh|]. split.
  - destruct (projectileLoop_state Math_sqrt now (Room.projectiles room) st0)
      as [H|H]; simpl in H.
    + destruct Hend as [Hp|Hw]; [congruence | by right].
    + by left.
  - intros Hbelow Hwin.
    destruct (projectileLoop_winInv Math_sqrt now (Room.projectiles room) st0)
      as [H'|H']; [by right | exact H' |].
    exfalso. by eapply belowWin_not_reached.
Qed.

End ScoreFacts.

(** X11.  A step of a playing room keeps the players and their order,
    and changes nothing of a player but the score, which does not
    decrease: positions, rotation, connection and timestamps are left as
    they are. *)
Theorem tick_changes_only_scores
    (Math_sqrt : Q → Q) (now : Z) (roomId : string)
    (m : RoomManager.Manager) (room : Room.t) :
  m !! roomId = Some room →
  Room.state room = playing →
  ∃ room',
    (RoomManager.tick Math_sqrt now roomId m).1 !! roomId = Some room'
    ∧ scoresGrew (Room.players room) (Room.players room').
Proof.
  intros Hroom Hst.
  destruct (tick_scores Math_sqrt now roomId m room Hroom Hst)
    as (ps' & s' & -> & Hgrew & _). simpl.
  eexists. rewrite lookup_insert_eq. split; [reflexivity|].
  unfold steppedRoom. by rewrite updateTimer_players.
Qed.

(** X12.  Score accounting of a step of a playing room: the sum of the
    scores after the step is the sum before it plus the number of
    returned hits whose shooter is a player of the room; each such hit
    is worth one point. *)
Theorem tick_score_accounting
    (Math_sqrt : Q → Q) (now : Z) (roomId : string)
    (m : RoomManager.Manager) (room : Room.t) :
  m !! roomId = Some room →
  Room.state room = playing →
  let r := RoomManager.tick Math_sqrt now roomId m in
  ∃ room',
    r.1 !! roomId = Some room'
    ∧ totalScore (Room.players room')
      = totalScore (Room.players room)
        + scoringHits (Room.players room) r.2.
Proof.
  intros Hroom Hst r. subst r.
  destruct (tick_scores Math_sqrt now roomId m room Hroom Hst)
    as (ps' & s' & -> & _ & Htotal & _). simpl.
  eexists. rewrite lookup_insert_eq. split; [reflexivity|].
  unfold steppedRoom. by rewrite updateTimer_players.
Qed.

Lemma updateTimer_state now room startTime :
  Room.startTime room = Some startTime → startTime ≠ 0 →
  Room.state (RoomManager.updateTimer now room)
  = (if Qleb (Qmax 0 (CONFIG.MATCH_DURATION - elapsedAt now startTime)) 0
        && Phase_eqb (Room.state room) playing
     then ended else Room.state room).
Proof.
  intros Hstart Hnz. unfold RoomManager.updateTimer, RoomManager.truthyTime.
  rewrite Hstart. destruct (Z.eqb_spec startTime 0); [done|]. simpl.
  unfold elapsedAt. by case_match.
Qed.

Lemma timeRemaining_zero_iff e :
  Qleb (Qmax 0 (CONFIG.MATCH_DURATION - e)) 0 = true
  ↔ (CONFIG.MATCH_DURATION <= e)%Q.
Proof.
  rewrite Qleb_true_iff. split.
  - intros H.
    assert (H' : (CONFIG.MATCH_DURATION - e <= 0)%Q)
      by (eapply Qle_trans; [apply Q.le_max_r | exact H]).
    apply (Qplus_le_l _ _ e) in H'. ring_simplify in H'. exact H'.
  - intros H. apply Q.max_lub; [apply Qle_refl|].
    apply (Qplus_le_l _ _ e). ring_simplify. exact H.
Qed.

(** X13.  A step of a playing room in which no score had reached
    [WIN_SCORE], the match having a start time: after the step the state
    is [ended] exactly when some score has reached [WIN_SCORE] or at
    least [MATCH_DURATION] seconds have elapsed since [startTime], and
    [playing] otherwise; [timeRemaining] is
    [max(0, MATCH_DURATION - elapsed)], hence never negative. *)
Theorem tick_ends_exactly_on_win_or_timeout
    (Math_sqrt : Q → Q) (now startTime : Z) (roomId : string)
    (m : RoomManager.Manager) (room : Room.t) :
  m !! roomId = Some room →
  Room.state room = playing →
  belowWin (Room.players room) →
  Room.startTime room = Some startTime → startTime ≠ 0 →
  ∃ room',
    (RoomManager.tick Math_sqrt now roomId m).1 !! roomId = Some room'
    ∧ (Room.state room' = ended
       ↔ reachedWin (Room.players room')
         ∨ (CONFIG.MATCH_DURATION <= elapsedAt now startTime)%Q)
    ∧ (Room.state room' = ended ∨ Room.state room' = playing)
    ∧ Room.timeRemaining room'
      = Qmax 0 (CONFIG.MATCH_DURATION - elapsedAt now startTime)
    ∧ (0 <= Room.timeRemaining room')%Q.
Proof.
  intros Hroom Hst Hbelow Hstart Hnz.
  destruct (tick_scores Math_sqrt now roomId m room Hroom Hst)
    as (ps' & s' & -> & _ & _ & Hs' & Hwin). simpl.
  eexists. rewrite lookup_insert_eq. split; [reflexivity|].
  unfold steppedRoom.
  rewrite updateTimer_players, (updateTimer_state _ _ startTime) by done.
  rewrite (updateTimer_timeRemaining _ _ startTime) by done. simpl.
  fold (elapsedAt now startTime).
  pose proof (timeRemaining_zero_iff (elapsedAt now startTime)) as Hzero.
  destruct (Qleb (Qmax 0 (CONFIG.MATCH_DURATION - elapsedAt now startTime)) 0)
    eqn:Hout; simpl.
  - assert (Hlate : (CONFIG.MATCH_DURATION <= elapsedAt now startTime)%Q)
      by by apply Hzero.
    split; [|split; [|split; [done | apply Q.le_max_l]]].
    + destruct Hs' as [-> | [-> _]]; simpl; split; auto.
    + destruct Hs' as [-> | [-> _]]; simpl; auto.
  - assert (Hearly : ¬ (CONFIG.MATCH_DURATION <= elapsedAt now startTime)%Q).
    { intros H. apply Hzero in H. congruence. }
    split; [|split; [|split; [done | apply Q.le_max_l]]].
    + destruct Hs' as [-> | [-> Hw]].
      * split; [done|]. intros [Hw|Hl]; [|done]. by apply Hwin.
      * split; auto.
    + destruct Hs' as [-> | [-> _]]; auto.
Qed.

(** ** Joining and firing *)

Lemma omap_set_fresh {V} k (v : V) (m : OMap.t V) :
  OMap.get k m = None → OMap.set k v m = m ++ [(k, v)].
Proof.
  induction m as [|[k0 v0] m IH]; simpl; [done|].
  destruct (String.eqb k k0); [done|]. intros H. by rewrite IH.
Qed.

Lemma omap_set_present {V} k (v v0 : V) (m : OMap.t V) :
  OMap.get k m = Some v0 → OMap.set k v m = OMap.alter (λ _, v) k m.
Proof.
  induction m as [|[k0 v1] m IH]; simpl; [done|].
  destruct (String.eqb_spec k k0) as [->|Hne]; [done|].
  intros H. by rewrite (IH H).
Qed.

(** X14.  A join on a room that is not full, with an id that no player
    of the room has: the new player is appended after the players
    already there, who are left as they are; its role follows the number
    of players present (none: ['cupid_prime'] at [x = -PLAYER_SPAWN_OFFSET],
    rotation 0; otherwise ['dark_cupid'] at [x = +PLAYER_SPAWN_OFFSET],
    rotation [Math.PI]); it starts at [z = 0] with score 0,
    [lastFireTime = 0] and [lastHeartbeat = now]; and the connection is
    bound to the player id and the room id.  The state, projectiles and
    timers of the room are not touched. *)
Theorem addPlayer_appends_player
    (now : Z) (uuid roomId : string) (ws : WebSocket.t)
    (m : RoomManager.Manager) :
  let room := (RoomManager.getRoom roomId m).2 in
  (OMap.size (Room.players room) < CONFIG.MAX_PLAYERS)%nat →
  OMap.get uuid (Room.players room) = None →
  let player := joined now uuid roomId ws (OMap.size (Room.players room)) in
  RoomManager.addPlayer now uuid roomId ws m
  = (<[roomId := Room.with_players (Room.players room ++ [(uuid, player)])
                                    room]> m,
     Some player).
Proof.
  intros room Hsize Hfresh player. subst room player.
  unfold RoomManager.addPlayer, RoomManager.getRoom in *.
  destruct (m !! roomId) as [room|] eqn:Hroom; cbn [fst snd] in *.
  - destruct (Nat.leb_spec CONFIG.MAX_PLAYERS
                (OMap.size (Room.players room))); [lia|].
    rewrite (omap_set_fresh _ _ _ Hfresh). reflexivity.
  - simpl. rewrite insert_insert_eq. reflexivity.
Qed.

(** X15.  A join whose generated id is that of a player already in the
    room (the room not being full) does not add a player: the record
    stored under that id is replaced, at its place in the order, by the
    new player's record, and the size of the room is unchanged. *)
Theorem addPlayer_with_colliding_id
    (now : Z) (uuid roomId : string) (ws : WebSocket.t)
    (m : RoomManager.Manager) (room : Room.t) (old : Player.t) :
  m !! roomId = Some room →
  (OMap.size (Room.players room) < CONFIG.MAX_PLAYERS)%nat →
  OMap.get uuid (Room.players room) = Some old →
  let player := joined now uuid roomId ws (OMap.size (Room.players room)) in
  ∃ room',
    RoomManager.addPlayer now uuid roomId ws m
    = (<[roomId := room']> m, Some player)
    ∧ Room.players room'
      = OMap.alter (λ _, player) uuid (Room.players room)
    ∧ OMap.size (Room.players room') = OMap.size (Room.players room)
    ∧ OMap.get uuid (Room.players room') = Some player.
Proof.
  intros Hroom Hsize Hold player. subst player.
  unfold RoomManager.addPlayer, RoomManager.getRoom. rewrite Hroom.
  destruct (Nat.leb_spec CONFIG.MAX_PLAYERS (OMap.size (Room.players room)));
    [lia|].
  eexists. split; [reflexivity|]. simpl.
  pose proof (omap_set_present uuid
                (joined now uuid roomId ws (OMap.size (Room.players room)))
                old (Room.players room) Hold) as Hset.
  unfold joined in *. rewrite Hset. split; [done|].
  split; [by rewrite omap_size_alter|].
  by rewrite omap_get_alter, eqb_refl_true, Hold.
Qed.

Section AcceptedFire.
Variable Math_sqrt : Q → Q.

(** The projectile of an accepted fire. *)
Lemma fireProjectile_projectile now uuid roomId playerId dirX dirZ m m' proj :
  RoomManager.fireProjectile Math_sqrt now uuid roomId playerId
                             (JNum dirX) (JNum dirZ) m = (m', Some proj) →
  let len := Math_sqrt (dirX * dirX + dirZ * dirZ)%Q in
  ∃ room player,
    m !! roomId = Some room
    ∧ OMap.get playerId (Room.players room) = Some player
    ∧ (0.01 <= len)%Q
    ∧ proj = Projectile.mk uuid playerId
               (Player.x player + dirX / len * 1.0)%Q
               (Player.z player + dirZ / len * 1.0)%Q
               (dirX / len * CONFIG.PROJECTILE_SPEED)%Q
               (dirZ / len * CONFIG.PROJECTILE_SPEED)%Q now.
Proof.
  unfold RoomManager.fireProjectile.
  destruct (m !! roomId) as [room|] eqn:Hroom; [|done].
  destruct (Phase_eqb (Room.state room) playing); simpl; [|done].
  destruct (OMap.get playerId (Room.players room)) as [player|] eqn:Hp;
    [|done].
  case_match; [done|].
  destruct (Qltb (Math_sqrt (dirX * dirX + dirZ * dirZ)%Q) 0.01) eqn:Hlen;
    [done|].
  intros [= <- <-]. exists room, player. repeat split; try done.
  unfold Qltb in Hlen. apply negb_false_iff in Hlen.
  by apply Qle_bool_iff.
Qed.

End AcceptedFire.

Lemma forward_component (p d len : Q) :
  (0.01 <= len)%Q →
  ((0 <= d)%Q →
   (p <= p + d / len * 1.0)%Q ∧ (0 <= d / len * CONFIG.PROJECTILE_SPEED)%Q)
  ∧ ((d <= 0)%Q →
     (p + d / len * 1.0 <= p)%Q ∧ (d / len * CONFIG.PROJECTILE_SPEED <= 0)%Q).
Proof.
  intros Hlen.
  assert (Hpos : (0 < len)%Q) by (eapply Qlt_le_trans; [|exact Hlen]; done).
  unfold CONFIG.PROJECTILE_SPEED. split; intros Hd.
  - assert (Ht : (0 <= d / len)%Q).
    { apply Qle_shift_div_l; [done|]. by rewrite Qmult_0_l. }
    split; lra.
  - assert (Ht : (d / len <= 0)%Q).
    { apply Qle_shift_div_r; [done|]. by rewrite Qmult_0_l. }
    split; lra.
Qed.

(** X16.  An accepted fire shoots the way the direction points, on each
    axis: if a component of the direction is not negative, the
    projectile is spawned at or beyond the shooter's coordinate on that
    axis and the component of its velocity is not negative; if it is not
    positive, the projectile is spawned at or before the shooter's
    coordinate and the component of its velocity is not positive (so a
    zero component gives the shooter's coordinate and no velocity on
    that axis).  The owner of the projectile is the shooter, its id the
    generated one and its creation time the time of the fire.  This
    holds whatever [Math.sqrt] returns. *)
Theorem fireProjectile_shoots_forward
    (Math_sqrt : Q → Q) (now : Z) (uuid roomId playerId : string)
    (dirX dirZ : Q) (m m' : RoomManager.Manager) (proj : Projectile.t) :
  RoomManager.fireProjectile Math_sqrt now uuid roomId playerId
                             (JNum dirX) (JNum dirZ) m = (m', Some proj) →
  ∃ room player,
    m !! roomId = Some room
    ∧ OMap.get playerId (Room.players room) = Some player
    ∧ ((0 <= dirX)%Q →
       (Player.x player <= Projectile.x proj)%Q
       ∧ (0 <= Projectile.vx proj)%Q)
    ∧ ((dirX <= 0)%Q →
       (Projectile.x proj <= Player.x player)%Q
       ∧ (Projectile.vx proj <= 0)%Q)
    ∧ ((0 <= dirZ)%Q →
       (Player.z player <= Projectile.z proj)%Q
       ∧ (0 <= Projectile.vz proj)%Q)
    ∧ ((dirZ <= 0)%Q →
       (Projectile.z proj <= Player.z player)%Q
       ∧ (Projectile.vz proj <= 0)%Q)
    ∧ Projectile.ownerId proj = playerId
    ∧ Projectile.id proj = uuid
    ∧ Projectile.createdAt proj = now.
Proof.
  intros Hfire.
  apply fireProjectile_projectile in Hfire
    as (room & player & Hroom & Hp & Hlen & ->).
  exists room, player.
  cbn [Projectile.x Projectile.z Projectile.vx Projectile.vz
       Projectile.ownerId Projectile.id Projectile.createdAt].
  destruct (forward_component (Player.x player) dirX _ Hlen) as [Hx1 Hx2].
  destruct (forward_component (Player.z player) dirZ _ Hlen) as [Hz1 Hz2].
  split; [done|]. split; [done|].
  split; [exact Hx1|]. split; [exact Hx2|].
  split; [exact Hz1|]. split; [exact Hz2|]. done.
Qed.

(** ** Liveness: heartbeats and stale players *)

Lemma staleLoop_elem now roomId ps s :
  s ∈ RoomManager.staleLoop now roomId ps
  ↔ ∃ playerId p,
      (playerId, p) ∈ ps
      ∧ CONFIG.HEARTBEAT_TIMEOUT < now - Player.lastHeartbeat p
      ∧ s = Stale.mk roomId playerId (Player.ws p).
Proof.
  induction ps as [|[pid p] ps IH]; simpl.
  - split; [by intros ?%elem_of_nil|].
    by intros (? & ? & ?%elem_of_nil & _).
  - destruct (Z.ltb_spec CONFIG.HEARTBEAT_TIMEOUT
                         (now - Player.lastHeartbeat p)).
    + rewrite elem_of_cons, IH. split.
      * intros [->|(pid' & p' & Hin & Hlate & ->)].
        -- exists pid, p. split; [left | done].
        -- exists pid', p'. split; [by right | done].
      * intros (pid' & p' & [[= -> ->]|Hin]%elem_of_cons & Hlate & ->).
        -- by left.
        -- right. eauto.
    + rewrite IH. split.
      * intros (pid' & p' & Hin & Hlate & ->).
        exists pid', p'. split; [by right | done].
      * intros (pid' & p' & [[= -> ->]|Hin]%elem_of_cons & Hlate & ->);
          [lia | eauto].
Qed.

(** The players that [cleanStale] reports. *)
Lemma cleanStale_elem now m s :
  s ∈ RoomManager.cleanStale now m
  ↔ ∃ room p,
      m !! Stale.roomId s = Some room
      ∧ (Stale.playerId s, p) ∈ Room.players room
      ∧ CONFIG.HEARTBEAT_TIMEOUT < now - Player.lastHeartbeat p
      ∧ Stale.ws s = Player.ws p.
Proof.
  unfold RoomManager.cleanStale. rewrite list_elem_of_bind. split.
  - intros ([roomId room] & Hs & Hin). simpl in Hs.
    apply elem_of_map_to_list in Hin.
    apply staleLoop_elem in Hs as (pid & p & Hp & Hlate & ->). simpl.
    by exists room, p.
  - intros (room & p & Hroom & Hp & Hlate & Hws).
    exists (Stale.roomId s, room). split.
    + simpl. apply staleLoop_elem.
      exists (Stale.playerId s), p. repeat split; try done.
      destruct s; simpl in *. by rewrite Hws.
    + by apply elem_of_map_to_list.
Qed.

Lemma omap_alter_elem_wf {V} (f : V → V) k (m : OMap.t V) k' v :
  OMap.wf m →
  (k', v) ∈ OMap.alter f k m →
  (k' ≠ k ∧ (k', v) ∈ m) ∨ (k' = k ∧ ∃ v0, (k, v0) ∈ m ∧ v = f v0).
Proof.
  unfold OMap.wf. induction m as [|[k0 v0] m IH]; simpl.
  - by intros _ ?%elem_of_nil.
  - rewrite NoDup_cons. intros [Hk Hm].
    destruct (String.eqb_spec k k0) as [->|Hne].
    + intros [[= -> ->]|Hin]%elem_of_cons.
      * right. split; [done|]. exists v0. split; [left | done].
      * left. split; [|by right].
        intros ->. apply Hk. by apply (list_elem_of_fmap_2 fst) in Hin.
    + intros [[= -> ->]|Hin]%elem_of_cons.
      * left. split; [congruence | left].
      * destruct (IH Hm Hin) as [[? ?]|[-> (v1 & ? & ->)]].
        -- left. split; [done | by right].
        -- right. split; [done|]. exists v1. split; [by right | done].
Qed.

(** X17.  After a heartbeat of a player at time [t], [cleanStale] does
    not report that player at any time [now] with
    [now - t <= HEARTBEAT_TIMEOUT]; and the heartbeat changes nothing for
    the other players: they are reported after it exactly when they were
    before.  (A heartbeat for an unknown room or player changes
    nothing.) *)
Theorem heartbeat_keeps_player_alive
    (t now : Z) (roomId playerId : string) (m : RoomManager.Manager) :
  (∀ room, m !! roomId = Some room → OMap.wf (Room.players room)) →
  let m' := RoomManager.heartbeat t roomId playerId m in
  (now - t ≤ CONFIG.HEARTBEAT_TIMEOUT →
   ∀ s, s ∈ RoomManager.cleanStale now m' →
        ¬ (Stale.roomId s = roomId ∧ Stale.playerId s = playerId))
  ∧ (∀ s, ¬ (Stale.roomId s = roomId ∧ Stale.playerId s = playerId) →
          s ∈ RoomManager.cleanStale now m'
          ↔ s ∈ RoomManager.cleanStale now m).
Proof.
  intros Hwf m'. subst m'. unfold RoomManager.heartbeat.
  destruct (m !! roomId) as [room|] eqn:Hroom.
  2:{ split; [|done]. intros _ s Hs [Hr Hp].
      apply cleanStale_elem in Hs as (room & _ & Hroom' & _).
      rewrite Hr in Hroom'. congruence. }
  specialize (Hwf room eq_refl).
  destruct (OMap.get playerId (Room.players room)) as [p0|] eqn:Hp0.
  2:{ split; [|done]. intros _ s Hs [Hr Hp].
      apply cleanStale_elem in Hs as (room' & p & Hroom' & Hin & _).
      rewrite Hr, Hroom in Hroom'. injection Hroom' as <-.
      apply omap_get_None_keys in Hp0. apply Hp0. rewrite <- Hp.
      by apply (list_elem_of_fmap_2 fst) in Hin. }
  split.
  - intros Hfresh s Hs [Hr Hp].
    apply cleanStale_elem in Hs as (room' & p & Hroom' & Hin & Hlate & _).
    rewrite Hr, lookup_insert_eq in Hroom'. injection Hroom' as <-.
    simpl in Hin. rewrite Hp in Hin.
    apply omap_alter_elem_wf in Hin as [[? _]|[_ (v0 & _ & ->)]]; [done| |done].
    simpl in Hlate. lia.
  - intros s Hother. rewrite !cleanStale_elem. split.
    + intros (room' & p & Hroom' & Hin & Hlate & Hws).
      destruct (decide (Stale.roomId s = roomId)) as [Heq|Hne].
      * rewrite Heq, lookup_insert_eq in Hroom'. injection Hroom' as <-.
        simpl in Hin.
        apply omap_alter_elem_wf in Hin as [[? Hin]|[Hk _]]; [| |done].
        -- exists room, p. by rewrite Heq.
        -- exfalso. by apply Hother.
      * rewrite lookup_insert_ne in Hroom' by done. by exists room', p.
    + intros (room' & p & Hroom' & Hin & Hlate & Hws).
      destruct (decide (Stale.roomId s = roomId)) as [Heq|Hne].
      * rewrite Heq, Hroom in Hroom'. injection Hroom' as <-.
        eexists _, p. rewrite Heq, lookup_insert_eq.
        split; [reflexivity|]. simpl. repeat split; try done.
        assert (Hk : Stale.playerId s ≠ playerId)
          by (intros Hk; by apply Hother).
        clear -Hin Hk. induction (Room.players room) as [|[k0 v0] ps IH];
          simpl; [done|].
        apply elem_of_cons in Hin as [[= <- <-]|Hin].
        -- rewrite (eqb_neq_false playerId (Stale.playerId s)) by done. left.
        -- destruct (String.eqb playerId k0); right; auto.
      * exists room', p. by rewrite lookup_insert_ne.
Qed.

Lemma omap_delete_elem {V} k (m : OMap.t V) kv :
  kv ∈ OMap.delete k m → kv ∈ m.
Proof.
  induction m as [|[k0 v0] m IH]; simpl; [done|].
  destruct (String.eqb k k0).
  - intros H. by right.
  - intros [->|H]%elem_of_cons; [left | right; auto].
Qed.

Lemma playersWithin_refl m : playersWithin m m.
Proof. intros roomId room kp Hroom Hkp. eauto. Qed.

Lemma playersWithin_trans m1 m2 m3 :
  playersWithin m1 m2 → playersWithin m2 m3 → playersWithin m1 m3.
Proof.
  intros H12 H23 roomId room kp Hroom Hkp.
  destruct (H12 _ _ _ Hroom Hkp) as (room2 & Hroom2 & Hkp2). eauto.
Qed.

(** [removePlayer] adds no player and alters no player record. *)
Lemma removePlayer_within roomId playerId m :
  playersWithin (RoomManager.removePlayer roomId playerId m) m.
Proof.
  unfold RoomManager.removePlayer.
  destruct (m !! roomId) as [room|] eqn:Hroom; [|apply playersWithin_refl].
  intros r room' kp. simpl.
  destruct (decide (r = roomId)) as [->|Hne].
  - repeat case_match.
    + by rewrite lookup_delete_eq.
    + rewrite lookup_insert_eq. intros [= <-]. simpl.
      rewrite stopTimers_players. simpl. intros Hkp.
      exists room. split; [done|]. by eapply omap_delete_elem.
    + rewrite lookup_insert_eq. intros [= <-]. simpl. intros Hkp.
      exists room. split; [done|]. by eapply omap_delete_elem.
  - repeat case_match;
      rewrite ?lookup_delete_ne, ?lookup_insert_ne by done; eauto.
Qed.

(** After [removePlayer], the player is not in the room. *)
Lemma removePlayer_removed roomId playerId m room' :
  (∀ room, m !! roomId = Some room → OMap.wf (Room.players room)) →
  RoomManager.removePlayer roomId playerId m !! roomId = Some room' →
  playerId ∉ OMap.keys (Room.players room').
Proof.
  intros Hwf. unfold RoomManager.removePlayer.
  destruct (m !! roomId) as [room|] eqn:Hroom; [|intros; congruence].
  specialize (Hwf room eq_refl). simpl. repeat case_match.
  - by rewrite lookup_delete_eq.
  - rewrite lookup_insert_eq. intros [= <-]. simpl.
    rewrite stopTimers_players. simpl. by apply omap_delete_not_in.
  - rewrite lookup_insert_eq. intros [= <-]. simpl.
    by apply omap_delete_not_in.
Qed.

Lemma removeStale_within stale m : playersWithin (removeStale stale m) m.
Proof.
  revert m. induction stale as [|s stale IH]; intros m; simpl.
  - apply playersWithin_refl.
  - eapply playersWithin_trans; [apply IH | apply removePlayer_within].
Qed.

Lemma wf_removePlayer roomId playerId m :
  wf_ok m → wf_ok (RoomManager.removePlayer roomId playerId m).
Proof.
  intros Hm. exact (wf_exec (λ q, q) m (OpRemovePlayer roomId playerId) Hm).
Qed.

Lemma removeStale_removed stale m s room' :
  wf_ok m → s ∈ stale →
  removeStale stale m !! Stale.roomId s = Some room' →
  Stale.playerId s ∉ OMap.keys (Room.players room').
Proof.
  revert m. induction stale as [|s0 stale IH]; intros m Hwf Hs; simpl.
  - by apply elem_of_nil in Hs.
  - apply elem_of_cons in Hs as [->|Hs].
    + intros Hroom' Hin.
      apply list_elem_of_fmap in Hin as ([k v] & Hk & Hin). simpl in Hk.
      subst k.
      destruct (removeStale_within stale _ _ _ _ Hroom' Hin)
        as (room1 & Hroom1 & Hin1).
      eapply removePlayer_removed; [|exact Hroom1|].
      * intros room Hroom. exact (proj1 (Hwf _ _ Hroom)).
      * by apply (list_elem_of_fmap_2 fst) in Hin1.
    + apply IH; [by apply wf_removePlayer | done].
Qed.

(** ** What ends a match *)

Lemma stopTimers_state room :
  Room.state (RoomManager.stopTimers room) = Room.state room.
Proof. unfold RoomManager.stopTimers. by repeat case_match. Qed.

(** Splits a lookup in an updated registry on whether the room looked up
    is the one updated. *)
Ltac lookup_cases r r0 :=
  rewrite ?insert_insert_eq;
  destruct (decide (r = r0)) as [->|?];
  [ rewrite ?lookup_delete_eq, ?lookup_insert_eq
  | rewrite ?lookup_delete_ne, ?lookup_insert_ne by done ].

(** X18.  Only the simulation step ends a match: if a room is in state
    [ended] after any other operation of the room manager, it was in
    that state before the operation. *)
Theorem only_tick_ends_a_match
    (Math_sqrt : Q → Q) (m : RoomManager.Manager) (o : Op)
    (roomId : string) (room' : Room.t) :
  isTick o = false →
  exec Math_sqrt m o !! roomId = Some room' →
  Room.state room' = ended →
  ∃ room, m !! roomId = Some room ∧ Room.state room = ended.
Proof.
  intros Hop. destruct o as
    [r0|now uuid r0 ws|r0 pid|r0 pid x z rot|now uuid r0 pid dx dz|now r0
    |r0|now r0|now r0|r0|r0|now r0 pid]; simpl in *; try done.
  - unfold RoomManager.getRoom.
    destruct (m !! r0) eqn:Hr; simpl; [eauto|].
    lookup_cases roomId r0; [by intros [= <-] | eauto].
  - unfold RoomManager.addPlayer, RoomManager.getRoom.
    destruct (m !! r0) as [room|] eqn:Hr.
    + case_match; simpl; [eauto|].
      lookup_cases roomId r0; [|eauto].
      intros [= <-]. simpl. eauto.
    + simpl. lookup_cases roomId r0; [by intros [= <-] | eauto].
  - unfold RoomManager.removePlayer.
    destruct (m !! r0) as [room|] eqn:Hr; [|eauto].
    simpl. repeat case_match; lookup_cases roomId r0; eauto; try done.
    + by intros [= <-].
    + intros [= <-]. simpl. eauto.
  - unfold RoomManager.updatePlayerPosition.
    destruct (m !! r0) as [room|] eqn:Hr; [|eauto].
    repeat case_match; eauto.
    lookup_cases roomId r0; [|eauto]. intros [= <-]. simpl. eauto.
  - unfold RoomManager.fireProjectile.
    destruct (m !! r0) as [room|] eqn:Hr; [|eauto].
    repeat case_match; simpl; eauto;
      (lookup_cases roomId r0; [|eauto]); intros [= <-]; simpl; eauto.
  - unfold RoomManager.startCountdown.
    destruct (m !! r0) as [room|] eqn:Hr; [|eauto]. simpl.
    lookup_cases roomId r0; [by intros [= <-] | eauto].
  - unfold RoomManager.countdownInterval.
    destruct (m !! r0) as [room|] eqn:Hr; [|eauto].
    repeat case_match; simpl; eauto.
    + lookup_cases roomId r0; [|eauto]. intros [= <-]. simpl. eauto.
    + unfold RoomManager.startMatch. rewrite lookup_insert_eq. simpl.
      lookup_cases roomId r0; [by intros [= <-] | eauto].
  - unfold RoomManager.startMatch.
    destruct (m !! r0) as [room|] eqn:Hr; [|eauto]. simpl.
    lookup_cases roomId r0; [by intros [= <-] | eauto].
  - unfold RoomManager.stopMatch.
    destruct (m !! r0) as [room|] eqn:Hr; [|eauto].
    lookup_cases roomId r0; [|eauto].
    intros [= <-]. rewrite stopTimers_state. eauto.
  - unfold RoomManager.handleRematch.
    destruct (m !! r0) as [room|] eqn:Hr; [|eauto].
    case_match; simpl; [eauto|].
    lookup_cases roomId r0; [by intros [= <-] | eauto].
  - unfold RoomManager.heartbeat.
    destruct (m !! r0) as [room|] eqn:Hr; [|eauto].
    case_match; [|eauto].
    lookup_cases roomId r0; [|eauto]. intros [= <-]. simpl. eauto.
Qed.

(** ** Consistency of the registry *)

Lemma Forall_omap_set {V} (P : string * V → Prop) k v (m : OMap.t V) :
  Forall P m → P (k, v) → Forall P (OMap.set k v m).
Proof.
  intros Hm Hkv. induction Hm as [|[k0 v0] m Hhd Htl IH]; simpl.
  - by constructor.
  - destruct (String.eqb k k0); constructor; auto.
Qed.

Lemma Forall_omap_delete {V} (P : string * V → Prop) k (m : OMap.t V) :
  Forall P m → Forall P (OMap.delete k m).
Proof.
  induction 1 as [|[k0 v0] m Hhd Htl IH]; simpl; [constructor|].
  destruct (String.eqb k k0); [done | by constructor].
Qed.

Lemma Forall_omap_alter {V} (P : string * V → Prop) (f : V → V) k
    (m : OMap.t V) :
  (∀ k' v, P (k', v) → P (k', f v)) →
  Forall P m → Forall P (OMap.alter f k m).
Proof.
  intros Hf. induction 1 as [|[k0 v0] m Hhd Htl IH]; simpl; [constructor|].
  destruct (String.eqb k k0); constructor; auto.
Qed.

Lemma Forall_resetPlayers roomId i ps :
  Forall (playerOk roomId) ps →
  Forall (playerOk roomId) (RoomManager.resetPlayers i ps).
Proof.
  intros H. revert i.
  induction H as [|[k p] ps (?&?&?&?&?) Htl IH]; intros i; simpl;
    constructor; [|apply IH].
  unfold playerOk in *. simpl in *. repeat split; done.
Qed.

Lemma Forall_scoresGrew roomId ps ps' :
  scoresGrew ps ps' →
  Forall (playerOk roomId) ps → Forall (playerOk roomId) ps'.
Proof.
  unfold scoresGrew.
  induction 1 as [|[k p] [k' p'] ps ps' (Hk & Hp & Hs) Htl IH];
    [done|].
  rewrite !Forall_cons. intros [(?&?&?&?&?) Hrest]. split; [|auto].
  unfold playerOk in *. simpl in *. subst k'. rewrite Hp. simpl.
  repeat split; try done. lia.
Qed.

Lemma Forall_removeExpired ids projs :
  Forall projectileOk projs →
  Forall projectileOk (RoomManager.removeExpired ids projs).
Proof.
  revert projs. induction ids as [|id ids IH]; intros projs H; simpl;
    [done|]. by apply IH, Forall_omap_delete.
Qed.

Lemma Forall_advanced projs :
  Forall projectileOk projs → Forall projectileOk (advanced <$> projs).
Proof.
  induction 1 as [|[k p] projs Hhd Htl IH]; simpl; constructor; done.
Qed.

Lemma stopTimers_ok roomId room :
  roomOk roomId room → roomOk roomId (RoomManager.stopTimers room).
Proof.
  intros (?&?&?&?&?). unfold RoomManager.stopTimers.
  repeat case_match; repeat split; simpl; done.
Qed.

Lemma updateTimer_ok now roomId room :
  roomOk roomId room → roomOk roomId (RoomManager.updateTimer now room).
Proof.
  intros (?&?&?&?&?). unfold RoomManager.updateTimer.
  repeat case_match; repeat split; simpl; try done; apply Q.le_max_l.
Qed.

Lemma consistent_insert m roomId room :
  consistent m → roomOk roomId room → consistent (<[roomId := room]> m).
Proof. intros Hm Hr. by apply map_Forall_insert_2. Qed.

Lemma consistent_lookup m roomId room :
  consistent m → m !! roomId = Some room → roomOk roomId room.
Proof. intros Hm Hr. exact (Hm _ _ Hr). Qed.

Lemma freshRoom_ok roomId : roomOk roomId (freshRoom roomId).
Proof. repeat split; simpl; try constructor. by vm_compute. Qed.

Lemma consistent_startMatch now roomId m :
  consistent m → consistent (RoomManager.startMatch now roomId m).1.
Proof.
  intros Hm. unfold RoomManager.startMatch.
  destruct (m !! roomId) as [room|] eqn:Hroom; simpl; [|done].
  destruct (consistent_lookup _ _ _ Hm Hroom) as (?&?&?&?&?).
  apply consistent_insert; [done|].
  repeat split; simpl; try done; by vm_compute.
Qed.

Lemma consistent_exec Math_sqrt m o :
  consistent m → consistent (exec Math_sqrt m o).
Proof.
  intros Hm. destruct o; simpl.
  - unfold RoomManager.getRoom.
    destruct (m !! roomId) eqn:Hroom; simpl; [done|].
    apply consistent_insert; [done | apply freshRoom_ok].
  - unfold RoomManager.addPlayer, RoomManager.getRoom.
    destruct (m !! roomId) as [room|] eqn:Hroom.
    + destruct (consistent_lookup _ _ _ Hm Hroom) as (?&?&?&?&?).
      case_match; simpl; [done|].
      apply consistent_insert; [done|].
      repeat split; simpl; try done.
      apply Forall_omap_set; [done|]. by repeat split.
    + simpl. apply consistent_insert.
      * apply consistent_insert; [done | apply freshRoom_ok].
      * repeat split; simpl; try constructor; try done;
          try (by repeat split); by vm_compute.
  - unfold RoomManager.removePlayer.
    destruct (m !! roomId) as [room|] eqn:Hroom; [|done].
    pose proof (consistent_lookup _ _ _ Hm Hroom) as Hok.
    assert (Hok' : roomOk roomId
              (Room.with_players
                 (OMap.delete playerId (Room.players room)) room)).
    { destruct Hok as (?&?&?&?&?). repeat split; simpl; try done.
      by apply Forall_omap_delete. }
    simpl. repeat case_match.
    + refine (map_Forall_delete _ _ _ _).
      apply consistent_insert; [done | by apply stopTimers_ok].
    + apply consistent_insert; [done|].
      apply stopTimers_ok in Hok'. destruct Hok' as (?&?&?&?&?).
      repeat split; simpl; try done; constructor.
    + by apply consistent_insert.
  - unfold RoomManager.updatePlayerPosition.
    destruct (m !! roomId) as [room|] eqn:Hroom; [|done].
    destruct (consistent_lookup _ _ _ Hm Hroom) as (?&?&?&?&?).
    repeat case_match; try done.
    apply consistent_insert; [done|]. repeat split; simpl; try done.
    apply Forall_omap_alter; [|done]. by intros k' v (?&?&?&?&?).
  - unfold RoomManager.fireProjectile.
    destruct (m !! roomId) as [room|] eqn:Hroom; [|done].
    destruct (consistent_lookup _ _ _ Hm Hroom) as (?&?&?&?&?).
    assert (Hps : Forall (playerOk roomId)
              (OMap.alter (Player.with_lastFireTime now) playerId
                          (Room.players room))).
    { apply Forall_omap_alter; [|done]. by intros k' v (?&?&?&?&?). }
    repeat case_match; simpl; try done.
    + apply consistent_insert; [done|]. by repeat split.
    + apply consistent_insert;
        [apply consistent_insert; [done | by repeat split]|].
      repeat split; simpl; try done. by apply Forall_omap_set.
  - destruct (m !! roomId) as [room|] eqn:Hroom;
      [|unfold RoomManager.tick; by rewrite Hroom].
    destruct (Phase_eqb (Room.state room) playing) eqn:Hst;
      [|unfold RoomManager.tick; by rewrite Hroom, Hst].
    apply Phase_eqb_eq in Hst.
    destruct (consistent_lookup _ _ _ Hm Hroom) as (?&?&?&?&?).
    destruct (tick_scores Math_sqrt now roomId m room Hroom Hst)
      as (ps' & s' & -> & Hgrew & _). simpl.
    apply consistent_insert; [done|]. unfold steppedRoom.
    apply updateTimer_ok. repeat split; simpl; try done.
    + by eapply Forall_scoresGrew.
    + by apply Forall_removeExpired, Forall_advanced.
  - unfold RoomManager.startCountdown.
    destruct (m !! roomId) as [room|] eqn:Hroom; [|done].
    destruct (consistent_lookup _ _ _ Hm Hroom) as (?&?&?&?&?). simpl.
    apply consistent_insert; [done|]. repeat split; simpl; try done.
    by apply Forall_resetPlayers.
  - unfold RoomManager.countdownInterval.
    destruct (m !! roomId) as [room|] eqn:Hroom; [|done].
    destruct (consistent_lookup _ _ _ Hm Hroom) as (?&?&?&?&?).
    repeat case_match; simpl; try done.
    + apply consistent_insert; [done | by repeat split].
    + apply consistent_startMatch.
      apply consistent_insert; [done | by repeat split].
  - by apply consistent_startMatch.
  - unfold RoomManager.stopMatch.
    destruct (m !! roomId) as [room|] eqn:Hroom; [|done].
    apply consistent_insert; [done|].
    by apply stopTimers_ok, (consistent_lookup m).
  - unfold RoomManager.handleRematch.
    destruct (m !! roomId) as [room|] eqn:Hroom; [|done].
    destruct (consistent_lookup _ _ _ Hm Hroom) as (?&?&?&?&?).
    case_match; simpl; [done|].
    apply consistent_insert; [done|].
    repeat split; simpl; try done; constructor.
  - unfold RoomManager.heartbeat.
    destruct (m !! roomId) as [room|] eqn:Hroom; [|done].
    destruct (consistent_lookup _ _ _ Hm Hroom) as (?&?&?&?&?).
    case_match; [|done].
    apply consistent_insert; [done|]. repeat split; simpl; try done.
    apply Forall_omap_alter; [|done]. by intros k' v (?&?&?&?&?).
Qed.

Lemma consistent_run Math_sqrt ops :
  consistent (run Math_sqrt ops RoomManager.constructor).
Proof.
  assert (Hgen : ∀ m, consistent m → consistent (run Math_sqrt ops m)).
  { induction ops as [|o ops IH]; intros m Hm; simpl; [done|].
    apply IH. by apply consistent_exec. }
  apply Hgen. apply map_Forall_empty.
Qed.

(** X19.  In every registry that the operations of the room manager can
    produce from the empty one, the records agree with the keys under
    which they are stored: a room carries the id it is registered under;
    a player carries the id it is stored under and the id of its room,
    and its connection is bound to that player id and room id; a
    projectile carries the id it is stored under.  The field
    [matchTimer] is never set. *)
Theorem registry_records_match_keys
    (Math_sqrt : Q → Q) (ops : list Op) (roomId : string) (room : Room.t) :
  run Math_sqrt ops RoomManager.constructor !! roomId = Some room →
  Room.id room = roomId
  ∧ (∀ playerId p,
       (playerId, p) ∈ Room.players room →
       Player.id p = playerId
       ∧ Player.roomId p = roomId
       ∧ WebSocket._playerId (Player.ws p) = Some playerId
       ∧ WebSocket._roomId (Player.ws p) = Some roomId)
  ∧ (∀ projId proj,
       (projId, proj) ∈ Room.projectiles room → Projectile.id proj = projId)
  ∧ Room.matchTimer room = None.
Proof.
  intros Hroom.
  destruct (consistent_lookup _ _ _ (consistent_run Math_sqrt ops) Hroom)
    as (Hid & Hps & Hprojs & _ & Hmt).
  split; [done|]. split; [|split; [|done]].
  - intros playerId p Hin. rewrite Forall_forall in Hps.
    destruct (Hps _ Hin) as (?&?&?&?&?). done.
  - intros projId proj Hin. rewrite Forall_forall in Hprojs.
    exact (Hprojs _ Hin).
Qed.

(** X20.  The snapshot of a room in any registry that the operations of
    the room manager can produce from the empty one: it exists exactly
    when the room does; it lists the players in join order, each under
    the id it is registered with and with a score that is not negative;
    it has one entry per projectile; and its [timeRemaining] is a whole
    number of seconds that is not negative. *)
Theorem getState_of_reachable_room
    (Math_sqrt : Q → Q) (ops : list Op) (roomId : string) :
  let m := run Math_sqrt ops RoomManager.constructor in
  (RoomManager.getState roomId m = None ↔ m !! roomId = None)
  ∧ (∀ room s,
       m !! roomId = Some room →
       RoomManager.getState roomId m = Some s →
       State.PlayerView.id <$> State.players s = OMap.keys (Room.players room)
       ∧ Forall (λ v, 0 ≤ State.PlayerView.score v) (State.players s)
       ∧ State.ProjectileView.id <$> State.projectiles s
         = OMap.keys (Room.projectiles room)
       ∧ State.state s = Room.state room
       ∧ 0 ≤ State.timeRemaining s).
Proof.
  intros m. unfold RoomManager.getState. split.
  - destruct (m !! roomId); split; done.
  - intros room s Hroom. rewrite Hroom. intros [= <-]. simpl.
    destruct (consistent_lookup _ _ _ (consistent_run Math_sqrt ops) Hroom)
      as (_ & Hps & Hprojs & Htr & _).
    repeat split; try done.
    + unfold OMap.keys. rewrite <- list_fmap_compose.
      apply Forall_fmap_ext_1. eapply Forall_impl; [exact Hps|].
      by intros [k p] (?&?&?&?&?).
    + rewrite Forall_fmap. eapply Forall_impl; [exact Hps|].
      by intros [k p] (?&?&?&?&?).
    + unfold OMap.keys. rewrite <- list_fmap_compose.
      apply Forall_fmap_ext_1. eapply Forall_impl; [exact Hprojs|].
      by intros [k p] ?.
    + change 0 with (Qceiling 0). by apply Qceiling_resp_le.
Qed.

Lemma Qceiling_zero_iff (x : Q) : (0 <= x)%Q → Qceiling x = 0 ↔ (x <= 0)%Q.
Proof.
  intros Hx. split.
  - intros H. pose proof (Qle_ceiling x) as Hc. by rewrite H in Hc.
  - intros H. apply Z.le_antisymm.
    + change 0 with (Qceiling 0). by apply Qceiling_resp_le.
    + change 0 with (Qceiling 0). by apply Qceiling_resp_le.
Qed.

(** X21.  The snapshot taken after a step of a playing room that has a
    start time shows a [timeRemaining] that is not negative, that is at
    most [MATCH_DURATION] when the clock has not gone back before
    [startTime], and that is 0 exactly when at least [MATCH_DURATION]
    seconds have elapsed; and a snapshot that shows 0 shows the state
    [ended]. *)
Theorem snapshot_clock_after_tick
    (Math_sqrt : Q → Q) (now startTime : Z) (roomId : string)
    (m : RoomManager.Manager) (room : Room.t) :
  m !! roomId = Some room →
  Room.state room = playing →
  Room.startTime room = Some startTime → startTime ≠ 0 →
  ∃ s,
    RoomManager.getState roomId (RoomManager.tick Math_sqrt now roomId m).1
    = Some s
    ∧ 0 ≤ State.timeRemaining s
    ∧ (startTime ≤ now → State.timeRemaining s ≤ 180)
    ∧ (State.timeRemaining s = 0
       ↔ (CONFIG.MATCH_DURATION <= elapsedAt now startTime)%Q)
    ∧ (State.timeRemaining s = 0 → State.state s = ended).
Proof.
  intros Hroom Hst Hstart Hnz.
  destruct (tick_scores Math_sqrt now roomId m room Hroom Hst)
    as (ps' & s' & -> & _ & _ & Hs' & _). simpl.
  unfold RoomManager.getState. rewrite lookup_insert_eq.
  eexists. split; [reflexivity|]. simpl. unfold steppedRoom.
  rewrite (updateTimer_state _ _ startTime) by done.
  rewrite (updateTimer_timeRemaining _ _ startTime) by done. simpl.
  fold (elapsedAt now startTime).
  set (tr := Qmax 0 (CONFIG.MATCH_DURATION - elapsedAt now startTime)).
  assert (Htr : (0 <= tr)%Q) by apply Q.le_max_l.
  pose proof (timeRemaining_zero_iff (elapsedAt now startTime)) as Hzero.
  fold tr in Hzero. rewrite Qleb_true_iff in Hzero.
  split; [|split; [|split]].
  - change 0 with (Qceiling 0). by apply Qceiling_resp_le.
  - intros Hclock. change 180 with (Qceiling 180).
    apply Qceiling_resp_le. apply Q.max_lub; [by vm_compute|].
    assert (He : (0 <= elapsedAt now startTime)%Q).
    { unfold elapsedAt. apply Qle_shift_div_l; [by vm_compute|].
      ring_simplify. change 0%Q with (inject_Z 0).
      rewrite <- Zle_Qle. lia. }
    apply (Qplus_le_l _ _ (elapsedAt now startTime)). ring_simplify.
    apply (Qplus_le_r _ _ CONFIG.MATCH_DURATION) in He.
    ring_simplify in He.
    rewrite (Qplus_comm (elapsedAt now startTime) 180). exact He.
  - rewrite (Qceiling_zero_iff _ Htr). exact Hzero.
  - intros Hzero'. apply (Qceiling_zero_iff _ Htr) in Hzero'.
    apply Qleb_true_iff in Hzero'. rewrite Hzero'. simpl.
    destruct Hs' as [-> | [-> _]]; reflexivity.
Qed.

(** * Properties of the server *)

(** ** Rate limiting *)

Lemma rateLimitAll_window (times : list Z) (c R : Z) :
  0 ≤ c →
  Forall (λ t, t ≤ R) times →
  processed (Server.rateLimitAll times (Some (Server.RateLimiter.mk c R))).2
  = Z.to_nat
      (Z.max 0 (Z.min (Z.of_nat (length times))
                      (Server.MAX_MESSAGES_PER_SECOND - c))).
Proof.
  intros Hc Htimes. revert c Hc.
  induction Htimes as [|t times Ht Htl IH]; intros c Hc.
  - simpl. lia.
  - cbn [Server.rateLimitAll]. unfold Server.rateLimit, Server.getRateLimiter.
    cbn [Server.RateLimiter.resetTime Server.RateLimiter.count].
    destruct (Z.ltb_spec R t); [lia|].
    cbn [Server.RateLimiter.resetTime Server.RateLimiter.count].
    specialize (IH (c + 1) ltac:(lia)).
    destruct (Server.rateLimitAll times
                (Some (Server.RateLimiter.mk (c + 1) R))) as [rl oks].
    cbn [snd processed] in *. rewrite IH.
    unfold Server.MAX_MESSAGES_PER_SECOND.
    destruct (Z.ltb_spec 60 (c + 1)); cbn [negb length]; lia.
Qed.

(** X22.  Rate limiting of a connection: of the messages that arrive
    within one window, that is from the first message of the connection
    at time [t0] up to time [t0 + 1000] included, the first
    [MAX_MESSAGES_PER_SECOND] are processed and the others are dropped;
    and a message that arrives after the window has expired is processed
    and opens a new window. *)
Theorem rate_limit_per_window (t0 : Z) (times : list Z) :
  Forall (λ t, t ≤ t0 + 1000) times →
  processed (Server.rateLimitAll (t0 :: times) None).2
  = Nat.min (length (t0 :: times)) 60
  ∧ ∀ rl t,
      Server.RateLimiter.resetTime rl < t →
      Server.rateLimit t (Some rl)
      = (Some (Server.RateLimiter.mk 1 (t + 1000)), true).
Proof.
  intros Htimes. split.
  - cbn [Server.rateLimitAll]. unfold Server.rateLimit, Server.getRateLimiter.
    cbn [Server.RateLimiter.resetTime Server.RateLimiter.count].
    destruct (Z.ltb_spec (t0 + 1000) t0); [lia|].
    cbn [Server.RateLimiter.resetTime Server.RateLimiter.count].
    pose proof (rateLimitAll_window times (0 + 1) (t0 + 1000) ltac:(lia) Htimes)
      as Hwin.
    destruct (Server.rateLimitAll times
                (Some (Server.RateLimiter.mk (0 + 1) (t0 + 1000))))
      as [rl oks].
    cbn [snd processed] in *. rewrite Hwin.
    unfold Server.MAX_MESSAGES_PER_SECOND. cbn [length].
    change (negb (60 <? 0 + 1)) with true. cbn iota. lia.
  - intros rl t Hlate. unfold Server.rateLimit, Server.getRateLimiter.
    destruct (Z.ltb_spec (Server.RateLimiter.resetTime rl) t); [|lia].
    reflexivity.
Qed.

(** ** Connections per address *)

Lemma ipStep_ok tbl e : ipOk tbl → ipOk (Server.ipStep tbl e).
Proof.
  intros Hok. destruct e as [ip|ip]; simpl.
  - unfold Server.ipConnect, Server.countOr.
    destruct (tbl !! ip) as [c|] eqn:Hc.
    + pose proof (Hok _ _ Hc) as Hb. cbv beta in Hb.
      unfold Server.MAX_CONNECTIONS_PER_IP in *.
      destruct (Z.eqb_spec c 0); [lia|].
      destruct (Z.ltb_spec 4 (c + 1)); cbn [fst]; [done|].
      apply map_Forall_insert_2;
        [unfold Server.MAX_CONNECTIONS_PER_IP; lia | done].
    + cbn [fst]. apply map_Forall_insert_2; [by vm_compute | done].
  - unfold Server.ipClose, Server.countOr.
    destruct (tbl !! ip) as [c|] eqn:Hc.
    + pose proof (Hok _ _ Hc) as Hb. cbv beta in Hb.
      unfold Server.MAX_CONNECTIONS_PER_IP in *.
      destruct (Z.eqb_spec c 0); [lia|].
      destruct (Z.leb_spec (c - 1) 0).
      * by apply map_Forall_delete.
      * apply map_Forall_insert_2;
        [unfold Server.MAX_CONNECTIONS_PER_IP; lia | done].
    + by apply map_Forall_delete.
Qed.

(** X23.  Whatever connections are opened and closed, the table of
    connections per address holds, for each address it knows, a count
    between 1 and [MAX_CONNECTIONS_PER_IP]; and a connection from an
    address that holds [MAX_CONNECTIONS_PER_IP] connections is refused,
    the table being left as it is. *)
Theorem ip_connections_bounded (events : list Server.IpEvent) :
  let tbl := fold_left Server.ipStep events ∅ in
  (∀ ip c, tbl !! ip = Some c → 1 ≤ c ≤ Server.MAX_CONNECTIONS_PER_IP)
  ∧ (∀ ip,
       tbl !! ip = Some Server.MAX_CONNECTIONS_PER_IP →
       Server.ipConnect ip tbl = (tbl, false)).
Proof.
  intros tbl. split.
  - assert (Hgen : ∀ t0, ipOk t0 → ipOk (fold_left Server.ipStep events t0)).
    { induction events as [|e events IH]; intros t0 H0; simpl; [done|].
      apply IH. by apply ipStep_ok. }
    intros ip c Hc. exact (Hgen ∅ (map_Forall_empty _) _ _ Hc).
  - intros ip Hfull. unfold Server.ipConnect. by rewrite Hfull.
Qed.

(** X24.  Opening a connection that is kept and closing it again leaves
    the table of connections per address as it was, when every count of
    the table is between 1 and [MAX_CONNECTIONS_PER_IP]. *)
Theorem ip_connect_then_close (ip : string) (tbl : gmap string Z) :
  ipOk tbl →
  (Server.ipConnect ip tbl).2 = true →
  Server.ipClose ip (Server.ipConnect ip tbl).1 = tbl.
Proof.
  intros Hok. unfold Server.ipConnect.
  destruct (tbl !! ip) as [c|] eqn:Hc; simpl.
  - pose proof (Hok _ _ Hc) as Hb. cbv beta in Hb.
    unfold Server.MAX_CONNECTIONS_PER_IP in *.
    destruct (Z.eqb_spec c 0); [lia|].
    destruct (Z.ltb_spec 4 (c + 1)); cbn [fst snd]; [done|]. intros _.
    unfold Server.ipClose. rewrite lookup_insert_eq. simpl.
    destruct (Z.eqb_spec (c + 1) 0); [lia|].
    destruct (Z.leb_spec (c + 1 - 1) 0); [lia|].
    rewrite insert_insert_eq. replace (c + 1 - 1) with c by lia.
    by apply insert_id.
  - intros _. unfold Server.ipClose. rewrite lookup_insert_eq. simpl.
    by apply delete_insert_id.
Qed.

(** ** The handlers *)

Lemma broadcastLoop_elem isOpen (ps : OMap.t Player.t) data ex h d :
  (h, d) ∈ Server.broadcastLoop isOpen ps data ex
  ↔ d = data
    ∧ ∃ pid p,
        (pid, p) ∈ ps ∧ ex ≠ Some pid
        ∧ isOpen (WebSocket.handle (Player.ws p)) = true
        ∧ h = WebSocket.handle (Player.ws p).
Proof.
  induction ps as [|[pid p] ps IH]; cbn [Server.broadcastLoop].
  - split; [by intros ?%elem_of_nil|].
    by intros (_ & ? & ? & ?%elem_of_nil & _).
  - assert (Hex : (match ex with
                   | Some id => String.eqb pid id
                   | None => false
                   end) = false ↔ ex ≠ Some pid).
    { destruct ex as [id|]; [|done].
      destruct (String.eqb_spec pid id) as [->|Hne]; split; try done.
      intros _ [= ->]. done. }
    destruct (match ex with
              | Some id => String.eqb pid id
              | None => false
              end) eqn:Hexcl; cbn [negb andb].
    + rewrite IH. split.
      * intros (-> & pid' & p' & Hin & Hrest). split; [done|].
        exists pid', p'. split; [by right | done].
      * intros (-> & pid' & p' & [[= -> ->]|Hin]%elem_of_cons & Hne & Hrest).
        -- apply Hex in Hne. congruence.
        -- split; [done|]. by exists pid', p'.
    + destruct (isOpen (WebSocket.handle (Player.ws p))) eqn:Hopen.
      * rewrite elem_of_cons, IH. split.
        -- intros [[= -> ->]|(-> & pid' & p' & Hin & Hrest)].
           ++ split; [done|]. exists pid, p. split; [by left|].
              split; [by apply Hex | done].
           ++ split; [done|]. exists pid', p'. split; [by right | done].
        -- intros (-> & pid' & p' & [[= -> ->]|Hin]%elem_of_cons & Hne
                   & Hop & ->).
           ++ by left.
           ++ right. split; [done|]. by exists pid', p'.
      * rewrite IH. split.
        -- intros (-> & pid' & p' & Hin & Hrest). split; [done|].
           exists pid', p'. split; [by right | done].
        -- intros (-> & pid' & p' & [[= -> ->]|Hin]%elem_of_cons & Hne
                   & Hop & ->).
           ++ congruence.
           ++ split; [done|]. by exists pid', p'.
Qed.

Lemma send_elem isOpen ws data h d :
  (h, d) ∈ Server.send isOpen ws data → d = data.
Proof.
  unfold Server.send. destruct (isOpen _).
  - by intros [= -> ->]%list_elem_of_singleton.
  - by intros ?%elem_of_nil.
Qed.

Lemma broadcast_elem isOpen roomId data ex m h d :
  (h, d) ∈ Server.broadcast isOpen roomId data ex m → d = data.
Proof.
  unfold Server.broadcast. destruct (m !! roomId); [|by intros ?%elem_of_nil].
  by intros [-> _]%broadcastLoop_elem.
Qed.

(** X25.  A connection that joins a room holding one player, with an id
    that this player does not have, becomes the second player.  If the
    room was [waiting], the handler starts the countdown at once: the
    room is in state [countdown] with both players respawned, and the
    announcement of the countdown goes to exactly the players of the
    room whose socket is open.  If the room was in another state (left
    [ended] by a finished match, say), the player is added, the state
    stays as it was and no countdown is announced. *)
Theorem connection_starts_countdown_when_full
    (isOpen : nat → bool) (now : Z) (uuid : string) (q : Server.QueryValue)
    (ws : WebSocket.t) (m : RoomManager.Manager) (room : Room.t) :
  let roomId := Server.roomIdOf q in
  let res := Server.onConnection isOpen now uuid q ws m in
  let both := Room.players room ++ [(uuid, joined now uuid roomId ws 1)] in
  m !! roomId = Some room →
  OMap.size (Room.players room) = 1%nat →
  OMap.get uuid (Room.players room) = None →
  res.2 = Some (joined now uuid roomId ws 1)
  ∧ (Room.state room = waiting →
     ∃ room',
       res.1.1 !! roomId = Some room'
       ∧ Room.state room' = countdown
       ∧ Room.countdownTimer room'
         = Some {| count := CONFIG.COUNTDOWN_DURATION |}
       ∧ Room.projectiles room' = []
       ∧ Room.players room' = RoomManager.resetPlayers 0 both
       ∧ ∀ h b,
           (h, Server.LIFECYCLE b) ∈ res.1.2
           ↔ b = MATCH_COUNTDOWN CONFIG.COUNTDOWN_DURATION
             ∧ ∃ pid p,
                 (pid, p) ∈ Room.players room'
                 ∧ isOpen (WebSocket.handle (Player.ws p)) = true
                 ∧ h = WebSocket.handle (Player.ws p))
  ∧ (Room.state room ≠ waiting →
     ∃ room',
       res.1.1 !! roomId = Some room'
       ∧ Room.state room' = Room.state room
       ∧ Room.countdownTimer room' = Room.countdownTimer room
       ∧ Room.players room' = both
       ∧ ∀ h b, (h, Server.LIFECYCLE b) ∉ res.1.2).
Proof.
  intros roomId res both Hroom Hsize Hfresh. subst res.
  unfold Server.onConnection. fold roomId.
  unfold RoomManager.addPlayer, RoomManager.getRoom. rewrite Hroom.
  cbv zeta. rewrite Hsize.
  change (CONFIG.MAX_PLAYERS <=? 1)%nat with false. cbn [Nat.eqb].
  rewrite omap_set_fresh by done. cbv iota beta.
  rewrite lookup_insert_eq.
  change (Player.mk uuid roomId "dark_cupid" CONFIG.PLAYER_SPAWN_OFFSET 0
            Math_PI 0
            (WebSocket.mk (WebSocket.handle ws) (Some uuid) (Some roomId))
            now 0)
    with (joined now uuid roomId ws 1).
  fold both.
  assert (Hboth : OMap.size both = 2%nat).
  { unfold both, OMap.size in *. rewrite length_app, Hsize. done. }
  cbn [Room.players Room.with_players Room.state]. rewrite Hboth.
  change (2 =? CONFIG.MAX_PLAYERS)%nat with true. cbn [andb].
  destruct (Room.state room) eqn:Hst; cbn [Phase_eqb];
    [ unfold Server.startCountdownAndAnnounce, RoomManager.startCountdown;
      rewrite lookup_insert_eq; cbv zeta | .. ];
    (split; [reflexivity|]);
    (split; [intros Hw; try done | intros Hnw; try done]).
  - cbn [fst snd]. eexists. rewrite lookup_insert_eq. split; [reflexivity|].
    cbn [Room.state Room.countdownTimer Room.projectiles Room.players
         Room.with_state Room.with_countdownTimer Room.with_projectiles
         Room.with_players].
    do 4 (split; [reflexivity|]).
    intros h b. rewrite !elem_of_app. split.
    + intros [Hin|[Hin|Hin]].
      * by apply send_elem in Hin.
      * by apply broadcast_elem in Hin.
      * cbn [mbind list_bind app] in Hin. rewrite app_nil_r in Hin.
        unfold Server.broadcast in Hin. rewrite lookup_insert_eq in Hin.
        apply broadcastLoop_elem in Hin
          as ([= ->] & pid & p & Hp & _ & Hop & ->).
        split; [done|]. by exists pid, p.
    + intros (-> & pid & p & Hp & Hop & ->). right; right.
      cbn [mbind list_bind app]. rewrite app_nil_r.
      unfold Server.broadcast. rewrite lookup_insert_eq.
      apply broadcastLoop_elem. split; [done|]. by exists pid, p.
  - eexists. cbn [fst snd]. rewrite lookup_insert_eq.
    split; [reflexivity|]. do 3 (split; [done|]).
    intros h b [Hin|Hin]%elem_of_app.
    + by apply send_elem in Hin.
    + by apply broadcast_elem in Hin.
  - eexists. cbn [fst snd]. rewrite lookup_insert_eq.
    split; [reflexivity|]. do 3 (split; [done|]).
    intros h b [Hin|Hin]%elem_of_app.
    + by apply send_elem in Hin.
    + by apply broadcast_elem in Hin.
  - eexists. cbn [fst snd]. rewrite lookup_insert_eq.
    split; [reflexivity|]. do 3 (split; [done|]).
    intros h b [Hin|Hin]%elem_of_app.
    + by apply send_elem in Hin.
    + by apply broadcast_elem in Hin.
Qed.

(** X26.  A [REMATCH] message from a connection bound to a room.  If the
    room is not [ended], nothing changes and nothing is sent.  If it is
    [ended] and holds [MAX_PLAYERS] players, the request of this one
    connection starts the countdown at once: the projectiles are
    cleared, the players are respawned with score 0, and the countdown
    is announced to the players whose socket is open.  If it is [ended]
    with fewer players, the room becomes [waiting] with no projectiles
    and nothing is sent. *)
Theorem rematch_restarts_full_room
    (Math_sqrt : Q → Q) (isOpen : nat → bool) (now : Z) (uuid : string)
    (ws : WebSocket.t) (pid rid : string) (m : RoomManager.Manager)
    (room : Room.t) :
  let res := Server.onMessage Math_sqrt isOpen now uuid ws Server.REMATCH m in
  WebSocket._playerId ws = Some pid →
  WebSocket._roomId ws = Some rid →
  m !! rid = Some room →
  (Room.state room ≠ ended → res = (m, []))
  ∧ (Room.state room = ended →
     OMap.size (Room.players room) ≠ CONFIG.MAX_PLAYERS →
     res = (<[rid := Room.with_state waiting
                       (Room.with_projectiles [] room)]> m, []))
  ∧ (Room.state room = ended →
     OMap.size (Room.players room) = CONFIG.MAX_PLAYERS →
     ∃ room',
       res.1 !! rid = Some room'
       ∧ Room.state room' = countdown
       ∧ Room.countdownTimer room'
         = Some {| count := CONFIG.COUNTDOWN_DURATION |}
       ∧ Room.projectiles room' = []
       ∧ Room.players room' = RoomManager.resetPlayers 0 (Room.players room)
       ∧ res.2
         = Server.broadcastLoop isOpen (Room.players room')
             (Server.LIFECYCLE (MATCH_COUNTDOWN CONFIG.COUNTDOWN_DURATION))
             None).
Proof.
  intros res Hpid Hrid Hroom. subst res.
  unfold Server.onMessage. rewrite Hpid, Hrid.
  unfold RoomManager.handleRematch. rewrite Hroom.
  destruct (Room.state room) eqn:Hst; cbn [Phase_eqb negb];
    try (split; [done|]; split; intros; done).
  split; [done|].
  unfold RoomManager.getRoom. rewrite lookup_insert_eq.
  cbn [Room.players Room.with_state Room.with_projectiles].
  destruct (Nat.eqb_spec (OMap.size (Room.players room)) CONFIG.MAX_PLAYERS)
    as [Hfull|Hnot].
  - split; [done|]. intros _ _.
    unfold Server.startCountdownAndAnnounce, RoomManager.startCountdown.
    rewrite lookup_insert_eq. cbv zeta. cbn [fst snd].
    eexists. rewrite lookup_insert_eq. split; [reflexivity|].
    cbn [Room.state Room.countdownTimer Room.projectiles Room.players
         Room.with_state Room.with_countdownTimer Room.with_projectiles
         Room.with_players].
    do 4 (split; [reflexivity|]).
    cbn [mbind list_bind app]. rewrite app_nil_r.
    unfold Server.broadcast. by rewrite lookup_insert_eq.
  - split; [|done]. intros _ _. reflexivity.
Qed.

Lemma broadcastState_elem isOpen roomId m h d :
  (h, d) ∈ Server.broadcastState isOpen roomId m →
  ∃ s, RoomManager.getState roomId m = Some s ∧ d = Server.STATE_UPDATE s.
Proof.
  unfold Server.broadcastState.
  destruct (m !! roomId) as [room|]; [|by intros ?%elem_of_nil].
  destruct (0 <? OMap.size (Room.players room))%nat;
    [|by intros ?%elem_of_nil].
  destruct (RoomManager.getState roomId m) as [s|];
    [|by intros ?%elem_of_nil].
  intros ->%broadcast_elem. by exists s.
Qed.

Lemma broadcastState_complete isOpen roomId m room pid p :
  m !! roomId = Some room →
  (pid, p) ∈ Room.players room →
  isOpen (WebSocket.handle (Player.ws p)) = true →
  ∃ s,
    RoomManager.getState roomId m = Some s
    ∧ (WebSocket.handle (Player.ws p), Server.STATE_UPDATE s)
      ∈ Server.broadcastState isOpen roomId m.
Proof.
  intros Hroom Hin Hopen. unfold Server.broadcastState. rewrite Hroom.
  destruct (Room.players room) as [|kp ps] eqn:Hps; [by apply elem_of_nil in Hin|].
  cbn [OMap.size length Nat.ltb Nat.leb].
  unfold RoomManager.getState. rewrite Hroom. eexists. split; [reflexivity|].
  unfold Server.broadcast. rewrite Hroom, Hps.
  apply broadcastLoop_elem. split; [done|]. by exists pid, p.
Qed.

Lemma stopTimers_timeRemaining room :
  Room.timeRemaining (RoomManager.stopTimers room) = Room.timeRemaining room.
Proof. unfold RoomManager.stopTimers. by repeat case_match. Qed.

Lemma stopTimers_cleared room :
  Room.matchTimer (RoomManager.stopTimers room) = None
  ∧ Room.countdownTimer (RoomManager.stopTimers room) = None.
Proof. unfold RoomManager.stopTimers. by repeat case_match. Qed.

Lemma getMatchResults_stopMatch roomId m :
  RoomManager.getMatchResults roomId (RoomManager.stopMatch roomId m)
  = RoomManager.getMatchResults roomId m.
Proof.
  unfold RoomManager.getMatchResults, RoomManager.stopMatch.
  destruct (m !! roomId) as [room|] eqn:Hroom; rewrite ?Hroom; [|done].
  rewrite lookup_insert_eq.
  by rewrite stopTimers_players, stopTimers_timeRemaining.
Qed.

(** X27.  One pass of the game loop over a room.  A room that is not
    [playing] is left as it is.  [MATCH_END] is sent only on the pass on
    which a [playing] room becomes [ended], with the results of the room
    as the pass leaves it; it then reaches every player of the room
    whose socket is open, and both timers of the room are cleared.  On
    every pass each player whose socket is open is sent the state of the
    room as the pass leaves it. *)
Theorem loop_announces_match_end
    (Math_sqrt : Q → Q) (isOpen : nat → bool) (now : Z) (roomId : string)
    (m : RoomManager.Manager) (room : Room.t) :
  let res := Server.loopRoom Math_sqrt isOpen now roomId m in
  m !! roomId = Some room →
  (Room.state room ≠ playing → res.1 = m)
  ∧ (∀ h r,
       (h, Server.MATCH_END r) ∈ res.2 →
       Room.state room = playing
       ∧ Room.state <$> res.1 !! roomId = Some ended
       ∧ r = RoomManager.getMatchResults roomId res.1)
  ∧ (∀ room' pid p,
       res.1 !! roomId = Some room' →
       (pid, p) ∈ Room.players room' →
       isOpen (WebSocket.handle (Player.ws p)) = true →
       (∃ s,
          RoomManager.getState roomId res.1 = Some s
          ∧ (WebSocket.handle (Player.ws p), Server.STATE_UPDATE s) ∈ res.2)
       ∧ (Room.state room = playing →
          Room.state room' = ended →
          (WebSocket.handle (Player.ws p),
           Server.MATCH_END (RoomManager.getMatchResults roomId res.1))
          ∈ res.2
          ∧ Room.matchTimer room' = None
          ∧ Room.countdownTimer room' = None)).
Proof.
  intros res Hroom. subst res. unfold Server.loopRoom. rewrite Hroom.
  destruct (Phase_eqb (Room.state room) playing) eqn:Hplaying.
  - apply Phase_eqb_eq in Hplaying.
    destruct (tick_outcome Math_sqrt now roomId m room Hroom Hplaying)
      as (room1 & Hroom1 & _).
    destruct (RoomManager.tick Math_sqrt now roomId m) as [m1 hits].
    cbn [fst] in Hroom1. rewrite Hroom1. cbn [fmap option_fmap option_map].
    assert (Hhits : ∀ h r,
              (h, Server.MATCH_END r)
              ∉ hits ≫= λ hit,
                  Server.broadcast isOpen roomId (Server.HIT_CONFIRM hit)
                    None m1).
    { intros h r (hit & Hin & _)%list_elem_of_bind.
      by apply broadcast_elem in Hin. }
    destruct (Room.state room1) eqn:Hst1; cbn [fst snd].
    4: {
      assert (Hstop : RoomManager.stopMatch roomId m1 !! roomId
                      = Some (RoomManager.stopTimers room1)).
      { unfold RoomManager.stopMatch. rewrite Hroom1.
        by rewrite lookup_insert_eq. }
      split; [congruence|]. split.
      - intros h r [[Hin|Hin]%elem_of_app|Hin]%elem_of_app.
        + by apply Hhits in Hin.
        + apply broadcast_elem in Hin as [= ->].
          split; [done|]. rewrite Hstop. cbn [fmap option_fmap option_map].
          rewrite stopTimers_state, Hst1.
          by rewrite getMatchResults_stopMatch.
        + by apply broadcastState_elem in Hin as (s & _ & ?).
      - intros room' pid p Hroom' Hin Hopen. split.
        + destruct (broadcastState_complete isOpen roomId _ _ pid p
                      Hroom' Hin Hopen) as (s & Hs & Hmem).
          exists s. split; [done|]. apply elem_of_app. by right.
        + intros _ _. rewrite Hstop in Hroom'. injection Hroom' as <-.
          split; [|apply stopTimers_cleared].
          apply elem_of_app. left. apply elem_of_app. right.
          rewrite getMatchResults_stopMatch.
          unfold Server.broadcast. rewrite Hroom1.
          apply broadcastLoop_elem. split; [done|]. exists pid, p.
          rewrite stopTimers_players in Hin. done.
    }
    all: split; [congruence|]; split;
      [ intros h r [Hin|Hin]%elem_of_app;
        [ by apply Hhits in Hin
        | by apply broadcastState_elem in Hin as (s & _ & ?) ]
      | intros room' pid p Hroom' Hin Hopen; split;
        [ destruct (broadcastState_complete isOpen roomId _ _ pid p
                      Hroom' Hin Hopen) as (s & Hs & Hmem);
          exists s; split; [done|]; apply elem_of_app; by right
        | intros _ Hended; congruence ] ].
  - cbn [fst snd app]. split; [done|]. split.
    + intros h r Hin. by apply broadcastState_elem in Hin as (s & _ & ?).
    + intros room' pid p Hroom' Hin Hopen. split.
      * by apply (broadcastState_complete isOpen roomId m room' pid p).
      * intros Hpl. rewrite Hpl in Hplaying. done.
Qed.

(** ** The cleanup of stale connections *)

Lemma cleanupLoop_registry isOpen stale m :
  (Server.cleanupLoop isOpen stale m).1 = removeStale stale m.
Proof.
  revert m. induction stale as [|s stale IH]; intros m; simpl; [done|].
  specialize (IH (RoomManager.removePlayer (Stale.roomId s)
                    (Stale.playerId s) m)).
  destruct (Server.cleanupLoop isOpen stale _) as [m' out']. done.
Qed.

Lemma cleanupLoop_messages isOpen stale m h d :
  (h, d) ∈ (Server.cleanupLoop isOpen stale m).2 →
  ∃ s players, s ∈ stale ∧ d = Server.PLAYER_LEFT (Stale.playerId s) players.
Proof.
  revert m. induction stale as [|s stale IH]; intros m; simpl.
  - by intros ?%elem_of_nil.
  - specialize (IH (RoomManager.removePlayer (Stale.roomId s)
                      (Stale.playerId s) m)).
    destruct (Server.cleanupLoop isOpen stale _) as [m' out'].
    cbn [snd] in *. intros [Hin|Hin]%elem_of_app.
    + apply broadcast_elem in Hin. eexists s, _. split; [by left | done].
    + destruct (IH Hin) as (s' & l & Hs' & ->).
      exists s', l. split; [by right | done].
Qed.

(** X28.  The periodic cleanup of stale connections is complete and
    removes only: in a registry whose player ids are distinct within
    each room, after the cleanup [cleanStale] at the same time reports
    nobody, every player left in the registry was there before, in the
    same room and with the same record, and every message sent is a
    [PLAYER_LEFT] that names a player whom [cleanStale] had reported. *)
Theorem stale_cleanup_is_complete
    (isOpen : nat → bool) (now : Z) (m : RoomManager.Manager) :
  let res := Server.staleCleanup isOpen now m in
  wf_ok m →
  RoomManager.cleanStale now res.1 = []
  ∧ playersWithin res.1 m
  ∧ ∀ h d,
      (h, d) ∈ res.2 →
      ∃ s players,
        s ∈ RoomManager.cleanStale now m
        ∧ d = Server.PLAYER_LEFT (Stale.playerId s) players.
Proof.
  intros res Hwf. subst res. unfold Server.staleCleanup.
  rewrite cleanupLoop_registry. split; [|split].
  - apply elem_of_nil_inv. intros s Hs.
    pose proof Hs as Hs'.
    apply cleanStale_elem in Hs' as (room' & p & Hroom' & Hin & Hlate & Hws).
    destruct (removeStale_within _ _ _ _ _ Hroom' Hin)
      as (room & Hroom & Hin0).
    assert (Hold : s ∈ RoomManager.cleanStale now m).
    { apply cleanStale_elem. by exists room, p. }
    apply (removeStale_removed _ _ _ _ Hwf Hold Hroom').
    by apply (list_elem_of_fmap_2 fst) in Hin.
  - apply removeStale_within.
  - intros h d. apply cleanupLoop_messages.
Qed.

(** ** Disconnection *)

Lemma omap_delete_elem_iff {V} k (m : OMap.t V) k' v :
  OMap.wf m →
  (k', v) ∈ OMap.delete k m ↔ (k', v) ∈ m ∧ k' ≠ k.
Proof.
  intros Hwf. split.
  - intros Hin. split; [by apply omap_delete_elem in Hin|].
    intros ->. apply (omap_delete_not_in k m Hwf).
    by apply (list_elem_of_fmap_2 fst) in Hin.
  - intros [Hin Hne]. clear Hwf.
    induction m as [|[k0 v0] m IH]; simpl; [done|].
    apply elem_of_cons in Hin as [[= <- <-]|Hin].
    + destruct (String.eqb_spec k k'); [congruence | by left].
    + destruct (String.eqb k k0); [done | right; auto].
Qed.

(** X29.  The disconnection of a player bound to a room whose player ids
    are distinct: the player is removed by [removePlayer], and a
    [PLAYER_LEFT] message goes to exactly the other players of the room
    whose socket is open, listing the players that remain; when the
    player was the last one, the room is deleted and nobody is
    notified. *)
Theorem close_notifies_remaining_players
    (isOpen : nat → bool) (ws : WebSocket.t) (pid rid : string)
    (m : RoomManager.Manager) (room : Room.t) :
  let res := Server.onClose isOpen ws m in
  let remaining := OMap.delete pid (Room.players room) in
  WebSocket._playerId ws = Some pid → pid ≠ "" →
  WebSocket._roomId ws = Some rid → rid ≠ "" →
  m !! rid = Some room →
  OMap.wf (Room.players room) →
  res.1 = RoomManager.removePlayer rid pid m
  ∧ (remaining = [] → res = (delete rid m, []))
  ∧ Server.getPlayerList rid res.1
    = (λ kp, Results.mkEntry (Player.id kp.2) (Player.characterId kp.2)
                             (Player.score kp.2)) <$> remaining
  ∧ ∀ h d,
      (h, d) ∈ res.2
      ↔ d = Server.PLAYER_LEFT pid (Server.getPlayerList rid res.1)
        ∧ ∃ pid' p,
            (pid', p) ∈ Room.players room ∧ pid' ≠ pid
            ∧ isOpen (WebSocket.handle (Player.ws p)) = true
            ∧ h = WebSocket.handle (Player.ws p).
Proof.
  intros res remaining Hpid Hpne Hrid Hrne Hroom Hwf. subst res.
  unfold Server.onClose. rewrite Hpid, Hrid. unfold Server.truthyString.
  destruct (String.eqb_spec pid ""); [done|].
  destruct (String.eqb_spec rid ""); [done|].
  cbn [fst snd]. split; [done|].
  assert (Hmem : ∀ h d data,
            (h, d) ∈ Server.broadcastLoop isOpen remaining data None
            ↔ d = data
              ∧ ∃ pid' p,
                  (pid', p) ∈ Room.players room ∧ pid' ≠ pid
                  ∧ isOpen (WebSocket.handle (Player.ws p)) = true
                  ∧ h = WebSocket.handle (Player.ws p)).
  { intros h d data. rewrite broadcastLoop_elem. split.
    - intros (-> & pid' & p & Hin & _ & Hop & ->).
      apply omap_delete_elem_iff in Hin as [Hin Hne]; [|done].
      split; [done|]. by exists pid', p.
    - intros (-> & pid' & p & Hin & Hne & Hop & ->).
      split; [done|]. exists pid', p. split; [|done].
      by apply omap_delete_elem_iff. }
  unfold RoomManager.removePlayer. rewrite Hroom. cbv zeta.
  cbn [Room.players Room.with_players Room.state]. fold remaining.
  destruct remaining as [|kp rest] eqn:Hrem.
  - cbn [OMap.size length Nat.eqb].
    rewrite delete_insert_eq.
    unfold Server.getPlayerList, Server.broadcast. rewrite lookup_delete_eq.
    split; [done|]. split; [done|]. intros h d. rewrite <- (Hmem h d).
    simpl. done.
  - cbn [OMap.size length Nat.eqb].
    split; [done|].
    destruct (Phase_eqb (Room.state room) playing
              || Phase_eqb (Room.state room) countdown);
      unfold Server.getPlayerList, Server.broadcast;
      rewrite lookup_insert_eq;
      cbn [Room.players Room.with_players Room.with_state
           Room.with_projectiles];
      rewrite ?stopTimers_players; cbn [Room.players Room.with_players];
      (split; [done|]); intros h d; apply Hmem.
Qed.

(** * The further theorems at concrete rooms *)

Lemma last_departure_deletes_room_witness :
  let roomId := "r1" in
  let m := Scenario.registry (solo ended) in
  let m' := RoomManager.removePlayer roomId "p1" m in
  m' !! roomId = None
  ∧ (∀ other, other ≠ roomId → m' !! other = m !! other)
  ∧ (RoomManager.getRoom roomId m').2 = freshRoom roomId.
Proof.
  intros roomId m.
  apply (last_departure_deletes_room roomId "p1" (Scenario.cupid 0 0) m
           (solo ended)); reflexivity.
Defined.

Lemma removePlayer_of_non_member_witness :
  let room := duel countdown 0 0 in
  let m := Scenario.registry room in
  RoomManager.removePlayer "r1" "p9" m = <["r1" := abortedRoom room]> m
  ∧ RoomManager.removePlayer "r1" "p9" (Scenario.registry (duel ended 10 3))
    = Scenario.registry (duel ended 10 3).
Proof.
  intros room m. split.
  - apply (removePlayer_of_non_member "r1" "p9" m room);
      [reflexivity | reflexivity | discriminate | right; reflexivity].
  - apply (removePlayer_of_non_member "r1" "p9"
             (Scenario.registry (duel ended 10 3)) (duel ended 10 3));
      [reflexivity | reflexivity | discriminate | right; reflexivity].
Defined.

Lemma startCountdown_resets_players_witness :
  let roomId := "r1" in
  let room := duel waiting 4 2 in
  let m := Scenario.registry room in
  ∃ room',
    RoomManager.startCountdown roomId m
    = (<[roomId := room']> m, [MATCH_COUNTDOWN CONFIG.COUNTDOWN_DURATION])
    ∧ Room.state room' = countdown
    ∧ Room.projectiles room' = []
    ∧ Room.countdownTimer room'
      = Some {| count := CONFIG.COUNTDOWN_DURATION |}
    ∧ Room.startTime room' = Room.startTime room
    ∧ OMap.keys (Room.players room') = OMap.keys (Room.players room)
    ∧ (∀ i pid p,
         Room.players room !! i = Some (pid, p) →
         Room.players room' !! i = Some (pid, respawned i p)).
Proof.
  intros roomId room m.
  apply (startCountdown_resets_players roomId m room). reflexivity.
Defined.

Lemma countdown_runs_to_match_start_witness :
  let roomId := "r1" in
  let room := duel waiting 4 2 in
  let m := Scenario.registry room in
  let s0 := RoomManager.startCountdown roomId m in
  let s1 := RoomManager.countdownInterval 1001000 roomId s0.1 in
  let s2 := RoomManager.countdownInterval 1002000 roomId s1.1 in
  let s3 := RoomManager.countdownInterval 1003000 roomId s2.1 in
  s0.2 = [MATCH_COUNTDOWN 3]
  ∧ s1.2 = [MATCH_COUNTDOWN 2]
  ∧ s2.2 = [MATCH_COUNTDOWN 1]
  ∧ s3.2 = [MATCH_START]
  ∧ (Room.state <$> s1.1 !! roomId) = Some countdown
  ∧ (Room.state <$> s2.1 !! roomId) = Some countdown
  ∧ s3.1 !! roomId
    = Some (Room.mk (Room.id room)
              (RoomManager.resetPlayers 0 (Room.players room)) []
              playing (Room.matchTimer room) None (Some 1003000)
              CONFIG.MATCH_DURATION).
Proof.
  intros roomId room m.
  apply (countdown_runs_to_match_start 1001000 1002000 1003000 roomId m room).
  reflexivity.
Defined.

Lemma departure_cancels_countdown_witness :
  let roomId := "r1" in
  let room :=
    Room.with_countdownTimer (Some {| count := 2 |}) (duel countdown 0 0) in
  let m := Scenario.registry room in
  let room' := abortedRoom (Room.with_players [("p2", Scenario.dark 0)] room) in
  let m' := RoomManager.removePlayer roomId "p1" m in
  Room.countdownTimer room' = None
  ∧ Room.matchTimer room' = None
  ∧ RoomManager.countdownInterval 1001000 roomId m' = (m', []).
Proof.
  intros roomId room m room'.
  apply (departure_cancels_countdown 1001000 roomId "p1" m room room').
  - reflexivity.
  - right. reflexivity.
  - vm_compute. reflexivity.
Defined.

Lemma handleRematch_keeps_scores_witness :
  let roomId := "r1" in
  let m := Scenario.registry (duel ended 10 3) in
  let r := RoomManager.handleRematch roomId m in
  (r.2 = true ↔ ∃ room, m !! roomId = Some room ∧ Room.state room = ended)
  ∧ (r.2 = false → r.1 = m)
  ∧ (∀ room,
       m !! roomId = Some room → r.2 = true →
       r.1 = <[roomId :=
                 Room.mk (Room.id room) (Room.players room) [] waiting
                   (Room.matchTimer room) (Room.countdownTimer room)
                   (Room.startTime room) (Room.timeRemaining room)]> m).
Proof.
  intros roomId m. apply (handleRematch_keeps_scores roomId m).
Defined.

Lemma getMatchResults_of_two_players_witness :
  let roomId := "r1" in
  let pa := Scenario.cupid 10 0 in
  let pb := Scenario.dark 3 in
  let m := Scenario.registry (duel ended 10 3) in
  ∃ res,
    RoomManager.getMatchResults roomId m = Some res
    ∧ Results.players res
      = [Results.mkEntry (Player.id pa) (Player.characterId pa)
                         (Player.score pa);
         Results.mkEntry (Player.id pb) (Player.characterId pb)
                         (Player.score pb)]
    ∧ (Player.score pa = Player.score pb →
       Results.isTie res = true ∧ Results.winnerId res = None)
    ∧ (Player.score pb < Player.score pa →
       Results.isTie res = false
       ∧ Results.winnerId res = Some (Player.id pa))
    ∧ (Player.score pa < Player.score pb →
       Results.isTie res = false
       ∧ Results.winnerId res = Some (Player.id pb)).
Proof.
  intros roomId pa pb m.
  apply (getMatchResults_of_two_players roomId "p1" "p2" pa pb m
           (duel ended 10 3)).
  - reflexivity.
  - reflexivity.
  - simpl. lia.
  - simpl. lia.
Defined.

Lemma tick_hits_are_sound_witness :
  let shot := Scenario.winning_shot "p1" 1000900 in
  let room :=
    Scenario.arena [("p1", Scenario.cupid 9 0); ("p2", Scenario.dark 0)]
                   [("a1", shot)] 1000000 in
  let m := Scenario.registry room in
  let h :=
    Hit.mk "a1" "p1" "p2" (Projectile.x (RoomManager.advance shot))
           (Projectile.z (RoomManager.advance shot)) in
  Hit.targetId h ≠ Hit.shooterId h
  ∧ ∃ proj target,
      (Hit.projectileId h, proj) ∈ Room.projectiles room
      ∧ (Hit.targetId h, target) ∈ Room.players room
      ∧ Hit.shooterId h = Projectile.ownerId proj
      ∧ Hit.x h = Projectile.x (RoomManager.advance proj)
      ∧ Hit.z h = Projectile.z (RoomManager.advance proj)
      ∧ RoomManager.outOfBounds (RoomManager.advance proj) = false
      ∧ RoomManager.lifetimeExpired 1001000 (RoomManager.advance proj) = false
      ∧ RoomManager.collides sqrt_floor (RoomManager.advance proj) target
        = true.
Proof.
  intros shot room m h.
  apply (tick_hits_are_sound sqrt_floor 1001000 "r1" m room h).
  - reflexivity.
  - reflexivity.
  - vm_compute. left.
Defined.

Lemma tick_one_hit_per_projectile_witness :
  let roomId := "r1" in
  let room :=
    Scenario.arena [("p1", Scenario.cupid 9 0); ("p2", Scenario.dark 0)]
                   [("a1", Scenario.winning_shot "p1" 1000900);
                    ("a2", Scenario.stray_shot)] 1000000 in
  let m := Scenario.registry room in
  let r := RoomManager.tick sqrt_floor 1001000 roomId m in
  NoDup (Hit.projectileId <$> r.2)
  ∧ (length r.2 ≤ length (Room.projectiles room))%nat
  ∧ ∃ room',
      r.1 !! roomId = Some room'
      ∧ ∀ h, h ∈ r.2 →
             Hit.projectileId h ∉ OMap.keys (Room.projectiles room').
Proof.
  intros roomId room m.
  apply (tick_one_hit_per_projectile sqrt_floor 1001000 roomId m room).
  - reflexivity.
  - reflexivity.
  - unfold OMap.wf. compute_done.
Defined.

Lemma tick_expiry_precedes_hits_witness :
  let roomId := "r1" in
  let projId := "a1" in
  let room :=
    Scenario.arena [("p1", Scenario.cupid 9 0); ("p2", Scenario.dark 0)]
                   [("a1", Scenario.winning_shot "p1" 1000900)] 1000000 in
  let m := Scenario.registry room in
  let r := RoomManager.tick sqrt_floor 1004000 roomId m in
  (∀ h, h ∈ r.2 → Hit.projectileId h ≠ projId)
  ∧ ∃ room',
      r.1 !! roomId = Some room'
      ∧ projId ∉ OMap.keys (Room.projectiles room').
Proof.
  intros roomId projId room m.
  apply (tick_expiry_precedes_hits sqrt_floor 1004000 roomId projId
           (Scenario.winning_shot "p1" 1000900) m room).
  - reflexivity.
  - reflexivity.
  - unfold OMap.wf. compute_done.
  - left.
  - right. vm_compute. reflexivity.
Defined.

Lemma tick_changes_only_scores_witness :
  let room :=
    Scenario.arena [("p1", Scenario.cupid 3 0); ("p2", Scenario.dark 0)]
                   [("a1", Scenario.winning_shot "p1" 1000900)] 1000000 in
  let m := Scenario.registry room in
  ∃ room',
    (RoomManager.tick sqrt_floor 1001000 "r1" m).1 !! "r1" = Some room'
    ∧ scoresGrew (Room.players room) (Room.players room').
Proof.
  intros room m.
  apply (tick_changes_only_scores sqrt_floor 1001000 "r1" m room);
    reflexivity.
Defined.

Lemma tick_score_accounting_witness :
  let roomId := "r1" in
  let room :=
    Scenario.arena [("p1", Scenario.cupid 3 0); ("p2", Scenario.dark 0)]
                   [("a1", Scenario.winning_shot "p1" 1000900);
                    ("a3", Scenario.winning_shot "gone" 1000900)] 1000000 in
  let m := Scenario.registry room in
  let r := RoomManager.tick sqrt_floor 1001000 roomId m in
  ∃ room',
    r.1 !! roomId = Some room'
    ∧ totalScore (Room.players room')
      = totalScore (Room.players room)
        + scoringHits (Room.players room) r.2.
Proof.
  intros roomId room m.
  apply (tick_score_accounting sqrt_floor 1001000 roomId m room);
    reflexivity.
Defined.

Lemma tick_ends_exactly_on_win_or_timeout_witness :
  let now := 1181000 in
  let startTime := 1000000 in
  let room :=
    Scenario.arena [("p1", Scenario.cupid 3 0); ("p2", Scenario.dark 0)]
                   [] startTime in
  let m := Scenario.registry room in
  ∃ room',
    (RoomManager.tick sqrt_floor now "r1" m).1 !! "r1" = Some room'
    ∧ (Room.state room' = ended
       ↔ reachedWin (Room.players room')
         ∨ (CONFIG.MATCH_DURATION <= elapsedAt now startTime)%Q)
    ∧ (Room.state room' = ended ∨ Room.state room' = playing)
    ∧ Room.timeRemaining room'
      = Qmax 0 (CONFIG.MATCH_DURATION - elapsedAt now startTime)
    ∧ (0 <= Room.timeRemaining room')%Q.
Proof.
  intros now startTime room m.
  apply (tick_ends_exactly_on_win_or_timeout sqrt_floor now startTime "r1"
           m room).
  - reflexivity.
  - reflexivity.
  - unfold belowWin. repeat constructor.
  - reflexivity.
  - discriminate.
Defined.

Lemma addPlayer_appends_player_witness :
  let now := 1002000 in
  let uuid := "p2" in
  let roomId := "r1" in
  let ws := WebSocket.mk 2 None None in
  let m := Scenario.registry (solo waiting) in
  let room := (RoomManager.getRoom roomId m).2 in
  let player := joined now uuid roomId ws (OMap.size (Room.players room)) in
  RoomManager.addPlayer now uuid roomId ws m
  = (<[roomId := Room.with_players (Room.players room ++ [(uuid, player)])
                                    room]> m,
     Some player).
Proof.
  intros now uuid roomId ws m.
  apply (addPlayer_appends_player now uuid roomId ws m).
  - vm_compute. lia.
  - reflexivity.
Defined.

Lemma addPlayer_with_colliding_id_witness :
  let now := 1002000 in
  let uuid := "p1" in
  let roomId := "r1" in
  let ws := WebSocket.mk 2 None None in
  let room := solo waiting in
  let m := Scenario.registry room in
  let player := joined now uuid roomId ws (OMap.size (Room.players room)) in
  ∃ room',
    RoomManager.addPlayer now uuid roomId ws m
    = (<[roomId := room']> m, Some player)
    ∧ Room.players room'
      = OMap.alter (λ _, player) uuid (Room.players room)
    ∧ OMap.size (Room.players room') = OMap.size (Room.players room)
    ∧ OMap.get uuid (Room.players room') = Some player.
Proof.
  intros now uuid roomId ws room m.
  apply (addPlayer_with_colliding_id now uuid roomId ws m room
           (Scenario.cupid 0 0)).
  - reflexivity.
  - vm_compute. lia.
  - reflexivity.
Defined.

Lemma fireProjectile_shoots_forward_witness :
  let now := 1001000 in
  let uuid := "s1" in
  let roomId := "r1" in
  let playerId := "p1" in
  let dirX := 3%Q in
  let dirZ := (-4)%Q in
  let m := Scenario.registry (duel playing 0 0) in
  let len := sqrt_floor (dirX * dirX + dirZ * dirZ) in
  let proj :=
    Projectile.mk uuid playerId
      (Player.x (Scenario.cupid 0 0) + dirX / len * 1.0)%Q
      (Player.z (Scenario.cupid 0 0) + dirZ / len * 1.0)%Q
      (dirX / len * CONFIG.PROJECTILE_SPEED)%Q
      (dirZ / len * CONFIG.PROJECTILE_SPEED)%Q now in
  ∃ room player,
    m !! roomId = Some room
    ∧ OMap.get playerId (Room.players room) = Some player
    ∧ ((0 <= dirX)%Q →
       (Player.x player <= Projectile.x proj)%Q
       ∧ (0 <= Projectile.vx proj)%Q)
    ∧ ((dirX <= 0)%Q →
       (Projectile.x proj <= Player.x player)%Q
       ∧ (Projectile.vx proj <= 0)%Q)
    ∧ ((0 <= dirZ)%Q →
       (Player.z player <= Projectile.z proj)%Q
       ∧ (0 <= Projectile.vz proj)%Q)
    ∧ ((dirZ <= 0)%Q →
       (Projectile.z proj <= Player.z player)%Q
       ∧ (Projectile.vz proj <= 0)%Q)
    ∧ Projectile.ownerId proj = playerId
    ∧ Projectile.id proj = uuid
    ∧ Projectile.createdAt proj = now.
Proof.
  intros now uuid roomId playerId dirX dirZ m len proj.
  apply (fireProjectile_shoots_forward sqrt_floor now uuid roomId playerId
           dirX dirZ m
           (RoomManager.fireProjectile sqrt_floor now uuid roomId playerId
              (JNum dirX) (JNum dirZ) m).1
           proj).
  vm_compute. reflexivity.
Defined.

Lemma heartbeat_keeps_player_alive_witness :
  let t := 1010000 in
  let now := 1020000 in
  let roomId := "r1" in
  let playerId := "p1" in
  let m := Scenario.registry (duel playing 0 0) in
  let m' := RoomManager.heartbeat t roomId playerId m in
  (now - t ≤ CONFIG.HEARTBEAT_TIMEOUT →
   ∀ s, s ∈ RoomManager.cleanStale now m' →
        ¬ (Stale.roomId s = roomId ∧ Stale.playerId s = playerId))
  ∧ (∀ s, ¬ (Stale.roomId s = roomId ∧ Stale.playerId s = playerId) →
          s ∈ RoomManager.cleanStale now m'
          ↔ s ∈ RoomManager.cleanStale now m).
Proof.
  intros t now roomId playerId m.
  apply (heartbeat_keeps_player_alive t now roomId playerId m).
  intros room Hroom. vm_compute in Hroom. injection Hroom as <-.
  unfold OMap.wf. compute_done.
Defined.

Lemma only_tick_ends_a_match_witness :
  let m := Scenario.registry (duel ended 10 3) in
  ∃ room, m !! "r1" = Some room ∧ Room.state room = ended.
Proof.
  intros m.
  apply (only_tick_ends_a_match sqrt_floor m (OpRemovePlayer "r1" "p2") "r1"
           (Room.with_players [("p1", Scenario.cupid 10 0)]
                              (duel ended 10 3))).
  - reflexivity.
  - vm_compute. reflexivity.
  - reflexivity.
Defined.

Lemma registry_records_match_keys_witness :
  let roomId := "r1" in
  let ws := WebSocket.mk 1 None None in
  let room :=
    Room.with_players [("p1", joined 1000 "p1" roomId ws 0)]
                      (freshRoom roomId) in
  Room.id room = roomId
  ∧ (∀ playerId p,
       (playerId, p) ∈ Room.players room →
       Player.id p = playerId
       ∧ Player.roomId p = roomId
       ∧ WebSocket._playerId (Player.ws p) = Some playerId
       ∧ WebSocket._roomId (Player.ws p) = Some roomId)
  ∧ (∀ projId proj,
       (projId, proj) ∈ Room.projectiles room → Projectile.id proj = projId)
  ∧ Room.matchTimer room = None.
Proof.
  intros roomId ws room.
  apply (registry_records_match_keys sqrt_floor
           [OpAddPlayer 1000 "p1" roomId ws; OpStartMatch 2000 "r2"]
           roomId room).
  vm_compute. reflexivity.
Defined.

Lemma getState_of_reachable_room_witness :
  let roomId := "r1" in
  let ops :=
    [OpAddPlayer 1000 "p1" roomId (WebSocket.mk 1 None None);
     OpAddPlayer 1500 "p2" roomId (WebSocket.mk 2 None None);
     OpStartMatch 2000 roomId;
     OpFireProjectile 3000 "s1" roomId "p1" (JNum 1) (JNum 0);
     OpTick 3050 roomId] in
  let m := run sqrt_floor ops RoomManager.constructor in
  (RoomManager.getState roomId m = None ↔ m !! roomId = None)
  ∧ (∀ room s,
       m !! roomId = Some room →
       RoomManager.getState roomId m = Some s →
       State.PlayerView.id <$> State.players s = OMap.keys (Room.players room)
       ∧ Forall (λ v, 0 ≤ State.PlayerView.score v) (State.players s)
       ∧ State.ProjectileView.id <$> State.projectiles s
         = OMap.keys (Room.projectiles room)
       ∧ State.state s = Room.state room
       ∧ 0 ≤ State.timeRemaining s).
Proof.
  intros roomId ops. apply (getState_of_reachable_room sqrt_floor ops roomId).
Defined.

Lemma snapshot_clock_after_tick_witness :
  let now := 1181000 in
  let startTime := 1000000 in
  let roomId := "r1" in
  let room :=
    Scenario.arena [("p1", Scenario.cupid 3 0); ("p2", Scenario.dark 0)]
                   [] startTime in
  let m := Scenario.registry room in
  ∃ s,
    RoomManager.getState roomId (RoomManager.tick sqrt_floor now roomId m).1
    = Some s
    ∧ 0 ≤ State.timeRemaining s
    ∧ (startTime ≤ now → State.timeRemaining s ≤ 180)
    ∧ (State.timeRemaining s = 0
       ↔ (CONFIG.MATCH_DURATION <= elapsedAt now startTime)%Q)
    ∧ (State.timeRemaining s = 0 → State.state s = ended).
Proof.
  intros now startTime roomId room m.
  apply (snapshot_clock_after_tick sqrt_floor now startTime roomId m room).
  - reflexivity.
  - reflexivity.
  - reflexivity.
  - discriminate.
Defined.

Lemma rate_limit_per_window_witness :
  let t0 := 5000 in
  let times := replicate 70 5900 in
  processed (Server.rateLimitAll (t0 :: times) None).2
  = Nat.min (length (t0 :: times)) 60
  ∧ ∀ rl t,
      Server.RateLimiter.resetTime rl < t →
      Server.rateLimit t (Some rl)
      = (Some (Server.RateLimiter.mk 1 (t + 1000)), true).
Proof.
  intros t0 times. apply (rate_limit_per_window t0 times).
  apply Forall_replicate. vm_compute. discriminate.
Defined.

Lemma ip_connections_bounded_witness :
  let events :=
    [Server.IpConnect "a"; Server.IpConnect "a"; Server.IpConnect "b";
     Server.IpConnect "a"; Server.IpConnect "a"; Server.IpConnect "a";
     Server.IpClose "b"] in
  let tbl := fold_left Server.ipStep events ∅ in
  (∀ ip c, tbl !! ip = Some c → 1 ≤ c ≤ Server.MAX_CONNECTIONS_PER_IP)
  ∧ (∀ ip,
       tbl !! ip = Some Server.MAX_CONNECTIONS_PER_IP →
       Server.ipConnect ip tbl = (tbl, false)).
Proof.
  intros events. apply (ip_connections_bounded events).
Defined.

Lemma ip_connect_then_close_witness :
  let ip := "a" in
  let tbl : gmap string Z := <["a" := 2]> (<["b" := 4]> ∅) in
  Server.ipClose ip (Server.ipConnect ip tbl).1 = tbl.
Proof.
  intros ip tbl. apply (ip_connect_then_close ip tbl).
  - apply map_Forall_insert_2;
      [unfold Server.MAX_CONNECTIONS_PER_IP; lia|].
    apply map_Forall_insert_2;
      [unfold Server.MAX_CONNECTIONS_PER_IP; lia|].
    apply map_Forall_empty.
  - vm_compute. reflexivity.
Defined.

Lemma connection_starts_countdown_when_full_witness :
  let now := 1002000 in
  let uuid := "p2" in
  let q := Server.QString "r1" in
  let ws := WebSocket.mk 2 None None in
  let room := solo waiting in
  let m := Scenario.registry room in
  let isOpen := allOpen in
  let roomId := Server.roomIdOf q in
  let res := Server.onConnection isOpen now uuid q ws m in
  let both := Room.players room ++ [(uuid, joined now uuid roomId ws 1)] in
  res.2 = Some (joined now uuid roomId ws 1)
  ∧ (Room.state room = waiting →
     ∃ room',
       res.1.1 !! roomId = Some room'
       ∧ Room.state room' = countdown
       ∧ Room.countdownTimer room'
         = Some {| count := CONFIG.COUNTDOWN_DURATION |}
       ∧ Room.projectiles room' = []
       ∧ Room.players room' = RoomManager.resetPlayers 0 both
       ∧ ∀ h b,
           (h, Server.LIFECYCLE b) ∈ res.1.2
           ↔ b = MATCH_COUNTDOWN CONFIG.COUNTDOWN_DURATION
             ∧ ∃ pid p,
                 (pid, p) ∈ Room.players room'
                 ∧ isOpen (WebSocket.handle (Player.ws p)) = true
                 ∧ h = WebSocket.handle (Player.ws p))
  ∧ (Room.state room ≠ waiting →
     ∃ room',
       res.1.1 !! roomId = Some room'
       ∧ Room.state room' = Room.state room
       ∧ Room.countdownTimer room' = Room.countdownTimer room
       ∧ Room.players room' = both
       ∧ ∀ h b, (h, Server.LIFECYCLE b) ∉ res.1.2).
Proof.
  intros now uuid q ws room m isOpen.
  apply (connection_starts_countdown_when_full isOpen now uuid q ws m room);
    reflexivity.
Defined.

Lemma rematch_restarts_full_room_witness :
  let now := 1200000 in
  let ws := Scenario.conn 1 "p1" in
  let rid := "r1" in
  let room := duel ended 10 3 in
  let m := Scenario.registry room in
  let isOpen := allOpen in
  let res := Server.onMessage sqrt_floor isOpen now "u1" ws Server.REMATCH m in
  (Room.state room ≠ ended → res = (m, []))
  ∧ (Room.state room = ended →
     OMap.size (Room.players room) ≠ CONFIG.MAX_PLAYERS →
     res = (<[rid := Room.with_state waiting
                       (Room.with_projectiles [] room)]> m, []))
  ∧ (Room.state room = ended →
     OMap.size (Room.players room) = CONFIG.MAX_PLAYERS →
     ∃ room',
       res.1 !! rid = Some room'
       ∧ Room.state room' = countdown
       ∧ Room.countdownTimer room'
         = Some {| count := CONFIG.COUNTDOWN_DURATION |}
       ∧ Room.projectiles room' = []
       ∧ Room.players room' = RoomManager.resetPlayers 0 (Room.players room)
       ∧ res.2
         = Server.broadcastLoop isOpen (Room.players room')
             (Server.LIFECYCLE (MATCH_COUNTDOWN CONFIG.COUNTDOWN_DURATION))
             None).
Proof.
  intros now ws rid room m isOpen.
  apply (rematch_restarts_full_room sqrt_floor isOpen now "u1" ws "p1" rid
           m room); reflexivity.
Defined.

Lemma loop_announces_match_end_witness :
  let now := 1001000 in
  let roomId := "r1" in
  let room :=
    Scenario.arena [("p1", Scenario.cupid 9 0); ("p2", Scenario.dark 0)]
                   [("a1", Scenario.winning_shot "p1" 1000900)] 1000000 in
  let m := Scenario.registry room in
  let isOpen := allOpen in
  let res := Server.loopRoom sqrt_floor isOpen now roomId m in
  (Room.state room ≠ playing → res.1 = m)
  ∧ (∀ h r,
       (h, Server.MATCH_END r) ∈ res.2 →
       Room.state room = playing
       ∧ Room.state <$> res.1 !! roomId = Some ended
       ∧ r = RoomManager.getMatchResults roomId res.1)
  ∧ (∀ room' pid p,
       res.1 !! roomId = Some room' →
       (pid, p) ∈ Room.players room' →
       isOpen (WebSocket.handle (Player.ws p)) = true →
       (∃ s,
          RoomManager.getState roomId res.1 = Some s
          ∧ (WebSocket.handle (Player.ws p), Server.STATE_UPDATE s) ∈ res.2)
       ∧ (Room.state room = playing →
          Room.state room' = ended →
          (WebSocket.handle (Player.ws p),
           Server.MATCH_END (RoomManager.getMatchResults roomId res.1))
          ∈ res.2
          ∧ Room.matchTimer room' = None
          ∧ Room.countdownTimer room' = None)).
Proof.
  intros now roomId room m isOpen.
  apply (loop_announces_match_end sqrt_floor isOpen now roomId m room).
  reflexivity.
Defined.

Lemma stale_cleanup_is_complete_witness :
  let now := 1020000 in
  let m := Scenario.registry (duel playing 0 0) in
  let isOpen := allOpen in
  let res := Server.staleCleanup isOpen now m in
  RoomManager.cleanStale now res.1 = []
  ∧ playersWithin res.1 m
  ∧ ∀ h d,
      (h, d) ∈ res.2 →
      ∃ s players,
        s ∈ RoomManager.cleanStale now m
        ∧ d = Server.PLAYER_LEFT (Stale.playerId s) players.
Proof.
  intros now m isOpen. apply (stale_cleanup_is_complete isOpen now m).
  apply map_Forall_insert_2; [|apply map_Forall_empty].
  split; unfold OMap.wf; compute_done.
Defined.

Lemma close_notifies_remaining_players_witness :
  let ws := Scenario.conn 2 "p2" in
  let pid := "p2" in
  let rid := "r1" in
  let room := duel playing 0 0 in
  let m := Scenario.registry room in
  let isOpen := allOpen in
  let res := Server.onClose isOpen ws m in
  let remaining := OMap.delete pid (Room.players room) in
  res.1 = RoomManager.removePlayer rid pid m
  ∧ (remaining = [] → res = (delete rid m, []))
  ∧ Server.getPlayerList rid res.1
    = (λ kp, Results.mkEntry (Player.id kp.2) (Player.characterId kp.2)
                             (Player.score kp.2)) <$> remaining
  ∧ ∀ h d,
      (h, d) ∈ res.2
      ↔ d = Server.PLAYER_LEFT pid (Server.getPlayerList rid res.1)
        ∧ ∃ pid' p,
            (pid', p) ∈ Room.players room ∧ pid' ≠ pid
            ∧ isOpen (WebSocket.handle (Player.ws p)) = true
            ∧ h = WebSocket.handle (Player.ws p).
Proof.
  intros ws pid rid room m isOpen.
  apply (close_notifies_remaining_players isOpen ws pid rid m room).
  - reflexivity.
  - discriminate.
  - reflexivity.
  - discriminate.
  - reflexivity.
  - unfold OMap.wf. compute_done.
Defined.
